(** * WindowEmperor: a shallow embedding of the process-wide coordinator

    The development follows [src/cascadia/WindowsTerminal/WindowEmperor.cpp]:
    the handoff codec, the acquire-or-handoff retry loop, the window-thread
    pool with its refrigerator, the live-window counter, the global hotkey
    table, the notification icon and the session-buffer sweep; then the
    environment block, the [WM_COPYDATA] case of the message handler and,
    from the variant of the file that restores persisted layouts, the window
    requests of startup. *)

From Stdlib Require Import ZArith List Lia Bool.
From Stdlib.Strings Require Import Byte String.
From stdpp Require Import base list gmap.

Local Open Scope Z_scope.

(** ** Machine integers

    [uint32_t], [DWORD] and [size_t] (a 64-bit build: the handoff magic
    [0x5445524d494e414c] is a 64-bit [ULONG_PTR]) are [Z] with the
    wrap-around written out. *)

Definition UINT32_MOD : Z := 2 ^ 32.
Definition SIZE_T_MOD : Z := 2 ^ 64.

Definition to_uint32 (z : Z) : Z := z mod UINT32_MOD.
Definition to_size_t (z : Z) : Z := z mod SIZE_T_MOD.

(** [gsl::narrow_cast<int>]: keep the low 32 bits, read as two's complement. *)
Definition narrow_cast_int (z : Z) : Z :=
  let w := z mod UINT32_MOD in
  if w <? 2 ^ 31 then w else w - UINT32_MOD.

Definition sizeof_uint32_t : Z := 4.
Definition sizeof_wchar_t : Z := 2.

(** A UTF-16 code unit is a 16-bit value; a wide string is a list of them. *)
Definition wchar_t := Z.
Definition wstring := list wchar_t.

Definition wf_wchar (c : wchar_t) : Prop := 0 <= c < 2 ^ 16.
Definition wf_wstring (s : wstring) : Prop := Forall wf_wchar s.

Definition byte_of_Z (z : Z) : byte :=
  default Byte.x00 (Byte.of_N (Z.to_N (z mod 256))).
Definition Z_of_byte (b : byte) : Z := Z.of_N (Byte.to_N b).

(** The object representation of a [uint32_t] and of a [wchar_t] on the
    little-endian targets the terminal is built for. *)
Definition uint32_bytes (v : Z) : list byte :=
  [byte_of_Z v; byte_of_Z (v / 2 ^ 8); byte_of_Z (v / 2 ^ 16); byte_of_Z (v / 2 ^ 24)].

Definition uint32_of_bytes (b0 b1 b2 b3 : byte) : Z :=
  Z_of_byte b0 + 2 ^ 8 * Z_of_byte b1 + 2 ^ 16 * Z_of_byte b2 + 2 ^ 24 * Z_of_byte b3.

Definition wchar_bytes (c : wchar_t) : list byte :=
  [byte_of_Z c; byte_of_Z (c / 2 ^ 8)].

Definition wstring_bytes (s : wstring) : list byte := concat (map wchar_bytes s).

Fixpoint wchars_of_bytes (bs : list byte) : wstring :=
  match bs with
  | b0 :: b1 :: rest => (Z_of_byte b0 + 2 ^ 8 * Z_of_byte b1) :: wchars_of_bytes rest
  | _ => []
  end.

(** ** Exceptions and outcomes *)

Inductive exn : Type :=
| out_of_range (what : string)
| narrowing_error.

Inductive outcome (A : Type) : Type :=
| Ret (a : A)
| Throw (e : exn)
| Fault.
Arguments Ret {A} a.
Arguments Throw {A} e.
Arguments Fault {A}.

(** ** HandoffCodec *)

Module Codec.

(** *** Encoding: the [out] vector is passed along explicitly. *)

Definition serializeUint32 (out : list byte) (value : Z) : list byte :=
  out ++ uint32_bytes value.

(** [gsl::narrow<uint32_t>] throws when the value does not survive the trip. *)
Definition narrow_uint32 (z : Z) : outcome Z :=
  if decide (to_uint32 z = z) then Ret (to_uint32 z) else Throw narrowing_error.

Definition serializeString (out : list byte) (str : wstring) : outcome (list byte) :=
  match narrow_uint32 (Z.of_nat (length str)) with
  | Ret len =>
      let out := serializeUint32 out len in
      Ret (out ++ take (Z.to_nat (to_size_t (len * sizeof_wchar_t))) (wstring_bytes str))
  | Throw e => Throw e
  | Fault => Fault
  end.

(** The three strings are what [GetCommandLineW], the environment block and
    the current directory gave; [nCmdShow] is an [int]. *)
Definition serializeHandoffPayload (args env cwd : wstring) (nCmdShow : Z)
  : outcome (list byte) :=
  match serializeString [] args with
  | Ret out =>
      match serializeString out env with
      | Ret out =>
          match serializeString out cwd with
          | Ret out => Ret (serializeUint32 out (to_uint32 nCmdShow))
          | Throw e => Throw e
          | Fault => Fault
          end
      | Throw e => Throw e
      | Fault => Fault
      end
  | Throw e => Throw e
  | Fault => Fault
  end.

(** *** Decoding

    Pointers into the received buffer are byte offsets from [beg].  A
    computation reads the buffer and logs the offset of every byte it loads;
    a load outside the buffer is a [Fault]. *)

Definition Rd (A : Type) : Type := list byte → list Z → outcome A * list Z.

Definition ret {A} (a : A) : Rd A := λ _ log, (Ret a, log).
Definition throw {A} (e : exn) : Rd A := λ _ log, (Throw e, log).
Definition bind {A B} (m : Rd A) (k : A → Rd B) : Rd B :=
  λ mem log,
    match m mem log with
    | (Ret a, log') => k a mem log'
    | (Throw e, log') => (Throw e, log')
    | (Fault, log') => (Fault, log')
    end.

Notation "'let*' x ':=' m 'in' k" := (bind m (λ x, k))
  (at level 10, x name, m at level 100, k at level 200).
Notation "'let*' ' p ':=' m 'in' k" := (bind m (λ r, let 'p := r in k))
  (at level 10, p pattern, m at level 100, k at level 200).

Definition load8 (p : Z) : Rd byte :=
  λ mem log,
    (match (if decide (0 <= p) then mem !! Z.to_nat p else None) with
     | Some b => Ret b
     | None => Fault
     end, log ++ [p]).

Definition load_uint32 (p : Z) : Rd Z :=
  let* b0 := load8 p in
  let* b1 := load8 (p + 1) in
  let* b2 := load8 (p + 2) in
  let* b3 := load8 (p + 3) in
  ret (uint32_of_bytes b0 b1 b2 b3).

(** What a load finds at an offset that lies inside the buffer. *)
Definition byte_at (mem : list byte) (p : Z) : byte :=
  default Byte.x00 (mem !! Z.to_nat p).
Definition uint32_at (mem : list byte) (p : Z) : Z :=
  uint32_of_bytes (byte_at mem p) (byte_at mem (p + 1)) (byte_at mem (p + 2)) (byte_at mem (p + 3)).

(** Returns the advanced iterator together with the value stored to [val]. *)
Definition deserializeUint32 (it end_ : Z) : Rd (Z * Z) :=
  if to_size_t (end_ - it) <? sizeof_uint32_t
  then throw (out_of_range "Not enough data for uint32_t"%string)
  else let* val := load_uint32 it in ret (it + sizeof_uint32_t, val).

(** A [std::wstring_view]: where it starts and how many code units it spans. *)
Record wstring_view : Type := { data : Z; size : Z }.

Definition deserializeString (it end_ : Z) : Rd (Z * wstring_view) :=
  let* '(it, len) := deserializeUint32 it end_ in
  if to_size_t (end_ - it) <? to_size_t (len * sizeof_wchar_t)
  then throw (out_of_range "Not enough data for string content"%string)
  else ret (it + to_size_t (len * sizeof_wchar_t), {| data := it; size := len |}).

Record Handoff : Type := { args : wstring_view; env : wstring_view; cwd : wstring_view; show : Z }.

Definition deserializeHandoffPayload (beg end_ : Z) : Rd Handoff :=
  let* '(it, result_args) := deserializeString beg end_ in
  let* '(it, result_env) := deserializeString it end_ in
  let* '(it, result_cwd) := deserializeString it end_ in
  let* '(it, result_show) := deserializeUint32 it end_ in
  ret {| args := result_args; env := result_env; cwd := result_cwd; show := result_show |}.

(** Copying a view out of the buffer, as the [winrt::hstring] constructors
    in the [WM_COPYDATA] handler do. *)
Definition hstring_of_view (v : wstring_view) : Rd wstring :=
  λ mem log,
    let first := Z.to_nat (data v) in
    let count := Z.to_nat (sizeof_wchar_t * size v) in
    let touched := map (λ i : nat, data v + Z.of_nat i) (seq 0 count) in
    (if decide (0 <= data v ∧ 0 <= size v ∧ data v + sizeof_wchar_t * size v <= Z.of_nat (length mem))
     then Ret (wchars_of_bytes (take count (drop first mem)))
     else Fault, log ++ touched).

(** The payload as the receiving side sees it once the views are copied. *)
Record HandoffPayload : Type :=
  { commandLine : wstring; environmentBlock : wstring; workingDirectory : wstring; showCommand : Z }.

Definition decodeHandoff (cbData : list byte) : outcome HandoffPayload * list Z :=
  (let* handoff := deserializeHandoffPayload 0 (Z.of_nat (length cbData)) in
   let* a := hstring_of_view (args handoff) in
   let* e := hstring_of_view (env handoff) in
   let* c := hstring_of_view (cwd handoff) in
   ret {| commandLine := a; environmentBlock := e; workingDirectory := c;
          showCommand := show handoff |}) cbData [].

(** Every logged load hit a byte of a buffer of [n] bytes. *)
Definition reads_within (n : Z) (log : list Z) : Prop :=
  Forall (λ a, 0 <= a < n) log.

Definition encodeHandoff (p : HandoffPayload) : outcome (list byte) :=
  serializeHandoffPayload (commandLine p) (environmentBlock p) (workingDirectory p) (showCommand p).

(** A payload the encoder accepts: well-formed code units, string lengths
    that fit the 32-bit prefix, and a 32-bit show command. *)
Definition valid_payload (p : HandoffPayload) : Prop :=
  wf_wstring (commandLine p) ∧ wf_wstring (environmentBlock p) ∧ wf_wstring (workingDirectory p) ∧
  Z.of_nat (length (commandLine p)) < UINT32_MOD ∧
  Z.of_nat (length (environmentBlock p)) < UINT32_MOD ∧
  Z.of_nat (length (workingDirectory p)) < UINT32_MOD ∧
  0 <= showCommand p < UINT32_MOD.

(** The wire format in closed form: [u32 len | UTF-16 bytes] three times,
    then the raw [u32] show command. *)
Definition string_record (s : wstring) : list byte :=
  uint32_bytes (Z.of_nat (length s)) ++ wstring_bytes s.

Definition payload_bytes (p : HandoffPayload) : list byte :=
  string_record (commandLine p) ++ string_record (environmentBlock p) ++
  string_record (workingDirectory p) ++ uint32_bytes (showCommand p).

(** The end-to-end scenario: ["wt -w 0"], ["A=1\0\0"], ["C:\Users"], show command 1. *)
Definition scenario_payload : HandoffPayload :=
  {| commandLine := [119; 116; 32; 45; 119; 32; 48];
     environmentBlock := [65; 61; 49; 0; 0];
     workingDirectory := [67; 58; 92; 85; 115; 101; 114; 115];
     showCommand := 1 |}.

End Codec.

(** ** SingleInstanceCoordinator: [acquireMutexOrAttemptHandoff] *)

Module SingleInstance.

(** What the operating system answers during one pass of the retry loop. *)
Record Attempt : Type := {
  CreateMutexW_handle : bool;        (* a non-null handle came back *)
  lastError_ALREADY_EXISTS : bool;   (* GetLastError() == ERROR_ALREADY_EXISTS *)
  FindWindowW_found : bool;          (* the primary's message window exists *)
  SendMessageTimeoutW_ok : bool      (* non-zero: delivered within the timeout *)
}.

Inductive Event : Type :=
| EvCreateMutex
| EvFindWindow
| EvSendMessageTimeout (cbData : Z) (uTimeout : Z)
| EvSleep (dwMilliseconds : Z).

(** [gsl::narrow<DWORD>] on the payload size. *)
Definition narrow_DWORD (z : Z) : outcome Z :=
  if decide (to_uint32 z = z) then Ret (to_uint32 z) else Throw narrowing_error.

(** [sleep += sleep / 2] on a [DWORD]. *)
Definition next_sleep (sleep : Z) : Z := to_uint32 (sleep + sleep / 2).

(** [true]: the caller owns the mutex; [false]: the empty [unique_mutex]. *)
Fixpoint retry_loop (fuel : nat) (payload : outcome (list byte)) (os : nat → Attempt)
    (k : nat) (sleep : Z) (trace : list Event) : option (outcome bool * list Event) :=
  match fuel with
  | O => None
  | S fuel =>
      if sleep <? 10000 then
        let a := os k in
        let trace := trace ++ [EvCreateMutex] in
        let mutex := CreateMutexW_handle a && negb (lastError_ALREADY_EXISTS a) in
        if mutex then Some (Ret true, trace)
        else
          let trace := trace ++ [EvFindWindow] in
          if FindWindowW_found a then
            match payload with
            | Ret bytes =>
                match narrow_DWORD (Z.of_nat (length bytes)) with
                | Ret cb =>
                    let trace := trace ++ [EvSendMessageTimeout cb 10000] in
                    if SendMessageTimeoutW_ok a then Some (Ret false, trace)
                    else retry_loop fuel payload os (S k) (next_sleep sleep)
                           (trace ++ [EvSleep sleep])
                | Throw e => Some (Throw e, trace)
                | Fault => Some (Fault, trace)
                end
            | Throw e => Some (Throw e, trace)
            | Fault => Some (Fault, trace)
            end
          else retry_loop fuel payload os (S k) (next_sleep sleep) (trace ++ [EvSleep sleep])
      else Some (Ret false, trace)
  end.

(** [args], [env] and [cwd] are the command line, environment block and
    current directory that [serializeHandoffPayload] picks up. *)
Definition acquireMutexOrAttemptHandoff (fuel : nat) (args env cwd : wstring) (nCmdShow : Z)
    (os : nat → Attempt) : option (outcome bool * list Event) :=
  retry_loop fuel (Codec.serializeHandoffPayload args env cwd nCmdShow) os 0 50 [].

(** The loop header alone: the values [sleep] takes while it stays below the bound. *)
Fixpoint backoff_schedule (fuel : nat) (sleep : Z) : option (list Z) :=
  match fuel with
  | O => None
  | S fuel =>
      if sleep <? 10000
      then option_map (cons sleep) (backoff_schedule fuel (next_sleep sleep))
      else Some []
  end.

Definition sleeps_of (trace : list Event) : list Z :=
  omap (λ e, match e with EvSleep ms => Some ms | _ => None end) trace.

Definition send_timeouts_of (trace : list Event) : list Z :=
  omap (λ e, match e with EvSendMessageTimeout _ t => Some t | _ => None end) trace.

Definition sum_list (l : list Z) : Z := fold_right Z.add 0 l.

(** The schedule from 50 ms: the next value, 14518, is no longer below 10000. *)
Definition schedule_50 : list Z :=
  [50; 75; 112; 168; 252; 378; 567; 850; 1275; 1912; 2868; 4302; 6453; 9679].

End SingleInstance.

(** ** The emperor's state *)

Module Emperor.

Record CommandlineArgs : Type := {
  Commandline : list wstring;
  CurrentDirectory : wstring;
  ShowWindowCommand : Z;
  CurrentEnvironment : wstring
}.

(** A [WindowThread] object. [thread_no] tells the objects (and the
    [std::thread] each one runs on) apart; a reheated object keeps it. *)
Record WindowThread : Type := {
  thread_no : nat;
  PeasantID : Z;
  request : CommandlineArgs;
  IsQuakeWindow : bool
}.

Record KeyChord : Type := { Modifiers : Z; Vkey : Z }.

Inductive DesktopBehavior : Type := DesktopAny | DesktopToCurrent | DesktopOnCurrent.
Inductive MonitorBehavior : Type := MonitorAny | MonitorToCurrent | MonitorToMouse.
Inductive TerminalAppMonitorBehavior : Type := InPlace | ToCurrent | ToMouse.

Record GlobalSummonArgs : Type := {
  Name : wstring;
  Desktop : DesktopBehavior;
  Monitor : MonitorBehavior;
  ToggleVisibility : bool;
  DropdownDuration : Z
}.

(** A global-hotkey command; [try_as_GlobalSummonArgs] is what
    [cmd.ActionAndArgs().Args().try_as<GlobalSummonArgs>()] yields. *)
Record Command : Type := { try_as_GlobalSummonArgs : option GlobalSummonArgs }.

(** What [_app.Logic()] answers. *)
Record AppLogic : Type := {
  AllowHeadless : bool;
  RequestsTrayIcon : bool;
  GlobalHotkeys : list (KeyChord * Command)
}.

Inductive NotifyIconMessage : Type := NIM_ADD | NIM_SETVERSION | NIM_DELETE.

(** Calls that leave the process, in the order they are made. *)
Inductive OsCall : Type :=
| PostQuitMessage (nExitCode : Z)
| CallRegisterHotKey (id : Z) (fsModifiers : Z) (vk : Z)
| CallUnregisterHotKey (id : Z)
| Shell_NotifyIconW (dwMessage : NotifyIconMessage)
| StartThread (no : nat).

Record WindowEmperor : Type := {
  _window : bool;                       (* the message window exists *)
  _app : AppLogic;
  _windows : list WindowThread;
  _oldWindows : list WindowThread;
  _windowThreadInstances : Z;
  _hotkeys : list GlobalSummonArgs;
  _notificationIconShown : bool;
  _quitting : bool;
  os : list OsCall
}.

Definition with_windows (f : list WindowThread → list WindowThread) (e : WindowEmperor) :=
  {| _window := _window e; _app := _app e; _windows := f (_windows e);
     _oldWindows := _oldWindows e; _windowThreadInstances := _windowThreadInstances e;
     _hotkeys := _hotkeys e; _notificationIconShown := _notificationIconShown e;
     _quitting := _quitting e; os := os e |}.

Definition with_oldWindows (f : list WindowThread → list WindowThread) (e : WindowEmperor) :=
  {| _window := _window e; _app := _app e; _windows := _windows e;
     _oldWindows := f (_oldWindows e); _windowThreadInstances := _windowThreadInstances e;
     _hotkeys := _hotkeys e; _notificationIconShown := _notificationIconShown e;
     _quitting := _quitting e; os := os e |}.

Definition with_windowThreadInstances (v : Z) (e : WindowEmperor) :=
  {| _window := _window e; _app := _app e; _windows := _windows e;
     _oldWindows := _oldWindows e; _windowThreadInstances := v;
     _hotkeys := _hotkeys e; _notificationIconShown := _notificationIconShown e;
     _quitting := _quitting e; os := os e |}.

Definition with_hotkeys (f : list GlobalSummonArgs → list GlobalSummonArgs) (e : WindowEmperor) :=
  {| _window := _window e; _app := _app e; _windows := _windows e;
     _oldWindows := _oldWindows e; _windowThreadInstances := _windowThreadInstances e;
     _hotkeys := f (_hotkeys e); _notificationIconShown := _notificationIconShown e;
     _quitting := _quitting e; os := os e |}.

Definition with_notificationIconShown (b : bool) (e : WindowEmperor) :=
  {| _window := _window e; _app := _app e; _windows := _windows e;
     _oldWindows := _oldWindows e; _windowThreadInstances := _windowThreadInstances e;
     _hotkeys := _hotkeys e; _notificationIconShown := b;
     _quitting := _quitting e; os := os e |}.

Definition call (c : OsCall) (e : WindowEmperor) :=
  {| _window := _window e; _app := _app e; _windows := _windows e;
     _oldWindows := _oldWindows e; _windowThreadInstances := _windowThreadInstances e;
     _hotkeys := _hotkeys e; _notificationIconShown := _notificationIconShown e;
     _quitting := _quitting e; os := os e ++ [c] |}.

(** *** ShutdownCoordinator *)

(** [_close]: back on the main thread, [PostQuitMessage(0)]. *)
Definition _close (e : WindowEmperor) : WindowEmperor := call (PostQuitMessage 0) e.

Definition _decrementWindowCount (e : WindowEmperor) : WindowEmperor :=
  let quitWhenLastWindowExits := negb (AllowHeadless (_app e)) in
  let previous := _windowThreadInstances e in            (* fetch_sub returns it *)
  let e := with_windowThreadInstances (to_uint32 (previous - 1)) e in
  let noMoreWindows := previous =? 1 in
  if noMoreWindows && (_quitting e || quitWhenLastWindowExits) then _close e else e.

Definition is_PostQuitMessage (c : OsCall) : bool :=
  match c with PostQuitMessage _ => true | _ => false end.

Definition quit_signals (e : WindowEmperor) : nat :=
  length (List.filter is_PostQuitMessage (os e)).

(** *** WindowPool *)

Definition _removeWindow (senderID : Z) (e : WindowEmperor) : WindowEmperor :=
  with_windows (filter (λ w, PeasantID w ≠ senderID)) e.

(** [wil::scope_exit]: the callback runs once, either when [reset()] triggers
    it by hand or when the guard goes out of scope. *)
Record scope_exit : Type := { armed : bool; callback : WindowEmperor → WindowEmperor }.

Definition make_scope_exit (f : WindowEmperor → WindowEmperor) : scope_exit :=
  {| armed := true; callback := f |}.

Definition scope_reset (g : scope_exit) (e : WindowEmperor) : scope_exit * WindowEmperor :=
  if armed g then ({| armed := false; callback := callback g |}, callback g e) else (g, e).

Definition scope_leave (g : scope_exit) (e : WindowEmperor) : WindowEmperor :=
  if armed g then callback g e else e.

Inductive PumpExit : Type := PumpReturned | PumpThrew.
Inductive LoopControl : Type := LoopAgain | LoopBreak | LoopUnwind.

(** The first half of one pass through [while (window->KeepWarm())]: the
    window is published; [self] says whether [weakThis.lock()] succeeds. *)
Definition warm_cycle_enter (self : bool) (window : WindowThread) (e : WindowEmperor)
  : WindowEmperor :=
  if self then with_windows (λ ws, ws ++ [window]) e else e.

(** The second half, from the moment [RunMessagePump] is left. *)
Definition warm_cycle_leave (self : bool) (IsWindows11 : bool) (pump : PumpExit)
    (window : WindowThread) (e : WindowEmperor) : WindowEmperor * LoopControl :=
  let removeWindow :=
    make_scope_exit (λ e, if self then _removeWindow (PeasantID window) e else e) in
  let decrementWindowCount :=
    make_scope_exit (λ e, if self then _decrementWindowCount e else e) in
  match pump with
  | PumpThrew =>
      (* unwinding runs the guards, the later one first *)
      let e := scope_leave decrementWindowCount e in
      let e := scope_leave removeWindow e in
      (e, LoopUnwind)
  | PumpReturned =>
      let '(removeWindow, e) := scope_reset removeWindow e in
      if IsWindows11 then
        let '(decrementWindowCount, e) := scope_reset decrementWindowCount e in
        let e := scope_leave decrementWindowCount e in
        let e := scope_leave removeWindow e in
        (e, LoopBreak)
      else
        (* window->Refrigerate() *)
        let '(decrementWindowCount, e) := scope_reset decrementWindowCount e in
        let e := if self then with_oldWindows (λ fridge, fridge ++ [window]) e else e in
        let e := scope_leave decrementWindowCount e in
        let e := scope_leave removeWindow e in
        (e, LoopAgain)
  end.

Definition is_StartThread (c : OsCall) : bool :=
  match c with StartThread _ => true | _ => false end.

Definition threads_started (e : WindowEmperor) : nat :=
  length (List.filter is_StartThread (os e)).

Inductive RequestOutcome : Type :=
| Reheated (window : WindowThread)
| Spawned (window : WindowThread).

(** [Microwave]: the parked object gets the new request. *)
Definition Microwave (args : CommandlineArgs) (id : Z) (quake : bool) (w : WindowThread)
  : WindowThread :=
  {| thread_no := thread_no w; PeasantID := id; request := args; IsQuakeWindow := quake |}.

(** [_createNewWindowThread], as far as the call itself goes: the back of
    the idle pool is taken out and handed the request, or a thread is started
    for a new [WindowThread].  [id] and [quake] are what the application
    logic will report for the window that serves the request.  Nothing is
    published here: the window enters [_windows] later, on its own thread. *)
Definition _createNewWindowThread (args : CommandlineArgs) (id : Z) (quake : bool)
    (e : WindowEmperor) : WindowEmperor * RequestOutcome :=
  match last (_oldWindows e) with
  | Some back =>
      let e := with_oldWindows (λ fridge, take (length fridge - 1) fridge) e in
      let window := Microwave args id quake back in
      (e, Reheated window)
  | None =>
      let window := {| thread_no := threads_started e; PeasantID := id;
                       request := args; IsQuakeWindow := quake |} in
      let e := call (StartThread (thread_no window)) e in
      (e, Spawned window)
  end.

Definition outcome_window (o : RequestOutcome) : WindowThread :=
  match o with Reheated w | Spawned w => w end.

(** A request followed through to the publication of its window: the call,
    then the first half of the pass through the warm loop that the woken or
    new thread makes once [CreateHost] has gone through and [KeepWarm] has
    returned true.  The runs of the pool below take the two as one step. *)
Definition request_and_publish (self : bool) (args : CommandlineArgs) (id : Z) (quake : bool)
    (e : WindowEmperor) : WindowEmperor * RequestOutcome :=
  let '(e, o) := _createNewWindowThread args id quake e in
  (warm_cycle_enter self (outcome_window o) e, o).

(** Closing windows one after another, and serving requests one after another. *)
Definition close_window (IsWindows11 : bool) (window : WindowThread) (e : WindowEmperor)
  : WindowEmperor :=
  fst (warm_cycle_leave true IsWindows11 PumpReturned window e).

Definition close_windows (IsWindows11 : bool) (ws : list WindowThread) (e : WindowEmperor)
  : WindowEmperor :=
  fold_left (λ e w, close_window IsWindows11 w e) ws e.

Fixpoint request_windows (reqs : list (CommandlineArgs * Z * bool)) (e : WindowEmperor)
  : WindowEmperor * list RequestOutcome :=
  match reqs with
  | [] => (e, [])
  | (args, id, quake) :: reqs =>
      let '(e, o) := request_and_publish true args id quake e in
      let '(e, os) := request_windows reqs e in
      (e, o :: os)
  end.

(** Two windows open on a system that refrigerates. *)
Definition blank_request : CommandlineArgs :=
  {| Commandline := []; CurrentDirectory := []; ShowWindowCommand := 1;
     CurrentEnvironment := [] |}.

Definition window_1 : WindowThread :=
  {| thread_no := 0; PeasantID := 1; request := blank_request; IsQuakeWindow := false |}.

Definition window_2 : WindowThread :=
  {| thread_no := 1; PeasantID := 2; request := blank_request; IsQuakeWindow := false |}.

Definition two_windows_open : WindowEmperor :=
  {| _window := true;
     _app := {| AllowHeadless := false; RequestsTrayIcon := false; GlobalHotkeys := [] |};
     _windows := [window_1; window_2]; _oldWindows := []; _windowThreadInstances := 2;
     _hotkeys := []; _notificationIconShown := false; _quitting := false;
     os := [StartThread 0; StartThread 1] |}.

Definition is_reheat (o : RequestOutcome) : bool :=
  match o with Reheated _ => true | Spawned _ => false end.

Definition outcome_thread (o : RequestOutcome) : nat :=
  match o with Reheated w | Spawned w => thread_no w end.

(** *** HotkeyManager *)

Definition MOD_ALT : Z := 0x0001.
Definition MOD_CONTROL : Z := 0x0002.
Definition MOD_SHIFT : Z := 0x0004.
Definition MOD_WIN : Z := 0x0008.
Definition MOD_NOREPEAT : Z := 0x4000.

Definition VirtualKeyModifiers_Control : Z := 1.
Definition VirtualKeyModifiers_Menu : Z := 2.
Definition VirtualKeyModifiers_Shift : Z := 4.
Definition VirtualKeyModifiers_Windows : Z := 8.

Definition WI_IsFlagSet (val flag : Z) : bool := Z.land val flag =? flag.
Definition WI_SetFlagIf (val flag : Z) (condition : bool) : Z :=
  if condition then Z.lor val flag else val.

Definition hotkey_flags (hotkey : KeyChord) : Z :=
  let hotkeyFlags := MOD_NOREPEAT in
  let modifiers := Modifiers hotkey in
  let hotkeyFlags :=
    WI_SetFlagIf hotkeyFlags MOD_WIN (WI_IsFlagSet modifiers VirtualKeyModifiers_Windows) in
  let hotkeyFlags :=
    WI_SetFlagIf hotkeyFlags MOD_ALT (WI_IsFlagSet modifiers VirtualKeyModifiers_Menu) in
  let hotkeyFlags :=
    WI_SetFlagIf hotkeyFlags MOD_CONTROL (WI_IsFlagSet modifiers VirtualKeyModifiers_Control) in
  let hotkeyFlags :=
    WI_SetFlagIf hotkeyFlags MOD_SHIFT (WI_IsFlagSet modifiers VirtualKeyModifiers_Shift) in
  hotkeyFlags.

Definition _registerHotKey (index : Z) (hotkey : KeyChord) (e : WindowEmperor) : WindowEmperor :=
  let vkey := Vkey hotkey in
  let hotkeyFlags := hotkey_flags hotkey in
  call (CallRegisterHotKey index hotkeyFlags vkey) e.

Definition _unregisterHotKey (index : Z) (e : WindowEmperor) : WindowEmperor :=
  call (CallUnregisterHotKey index) e.

(** One turn of the re-registration loop. *)
Definition register_entry (e : WindowEmperor) (entry : KeyChord * Command) : WindowEmperor :=
  let '(keyChord, cmd) := entry in
  match try_as_GlobalSummonArgs cmd with
  | Some summonArgs =>
      let index := narrow_cast_int (Z.of_nat (length (_hotkeys e))) in
      let e := _registerHotKey index keyChord e in
      with_hotkeys (λ hotkeys, hotkeys ++ [summonArgs]) e
  | None => e
  end.

Definition _setupGlobalHotkeys (e : WindowEmperor) : WindowEmperor :=
  if negb (_window e) then e
  else
    let count := narrow_cast_int (Z.of_nat (length (_hotkeys e))) in
    let e := fold_left (λ e i, _unregisterHotKey (Z.of_nat i) e) (seq 0 (Z.to_nat count)) e in
    let e := with_hotkeys (λ _, []) e in
    fold_left register_entry (GlobalHotkeys (_app e)) e.

(** The hotkeys the message window holds after a run of calls, when the
    operating system grants every registration: [(id, (fsModifiers, vk))]. *)
Definition hold (held : list (Z * (Z * Z))) (c : OsCall) : list (Z * (Z * Z)) :=
  match c with
  | CallRegisterHotKey id m vk => held ++ [(id, (m, vk))]
  | CallUnregisterHotKey id => List.filter (λ h, negb (fst h =? id)) held
  | _ => held
  end.

Definition held_hotkeys (calls : list OsCall) : list (Z * (Z * Z)) :=
  fold_left hold calls [].

(** The entries of [GlobalHotkeys] that carry summon arguments. *)
Definition summon_entries (entries : list (KeyChord * Command)) : list (KeyChord * GlobalSummonArgs) :=
  omap (λ entry, match try_as_GlobalSummonArgs (snd entry) with
                 | Some summonArgs => Some (fst entry, summonArgs)
                 | None => None
                 end) entries.

Definition unregister_calls_from (first count : nat) : list OsCall :=
  map (λ i : nat, CallUnregisterHotKey (Z.of_nat i)) (seq first count).

Definition unregister_calls (count : nat) : list OsCall := unregister_calls_from 0 count.

Definition register_calls (first : nat) (bindings : list (KeyChord * GlobalSummonArgs)) : list OsCall :=
  imap (λ i binding, CallRegisterHotKey (Z.of_nat (first + i)) (hotkey_flags (fst binding))
                                        (Vkey (fst binding))) bindings.

(** Three bindings: Win+`, Ctrl+Alt+T, Ctrl+Shift+Q. *)
Definition summon_named (name : wstring) : GlobalSummonArgs :=
  {| Name := name; Desktop := DesktopToCurrent; Monitor := MonitorAny;
     ToggleVisibility := true; DropdownDuration := 0 |}.

Definition binding_A : KeyChord * Command :=
  ({| Modifiers := 8; Vkey := 192 |}, {| try_as_GlobalSummonArgs := Some (summon_named [65]) |}).
Definition binding_B : KeyChord * Command :=
  ({| Modifiers := 3; Vkey := 84 |}, {| try_as_GlobalSummonArgs := Some (summon_named [66]) |}).
Definition binding_C : KeyChord * Command :=
  ({| Modifiers := 5; Vkey := 81 |}, {| try_as_GlobalSummonArgs := Some (summon_named [67]) |}).

Definition emperor_with (bindings : list (KeyChord * Command)) (hotkeys : list GlobalSummonArgs)
    (calls : list OsCall) : WindowEmperor :=
  {| _window := true;
     _app := {| AllowHeadless := false; RequestsTrayIcon := false; GlobalHotkeys := bindings |};
     _windows := []; _oldWindows := []; _windowThreadInstances := 0;
     _hotkeys := hotkeys; _notificationIconShown := false; _quitting := false;
     os := calls |}.

(** The settings held [{A}] when the hotkeys were last set up; they now hold [{B, C}]. *)
Definition registered_A : WindowEmperor :=
  let e := _setupGlobalHotkeys (emperor_with [binding_A] [] []) in
  emperor_with [binding_B; binding_C] (_hotkeys e) (os e).

(** [_hotkeyPressed]: the positions of [_hotkeys] handed to [til::at], and
    how the call ends ([Fault] when [til::at] is given a position outside the
    vector).  The summon arguments it assembles are dropped by the
    unconditional [return] that follows them. *)
Definition til_at {A : Type} (v : list A) (i : Z) : outcome A :=
  match (if decide (0 <= i) then v !! Z.to_nat i else None) with
  | Some x => Ret x
  | None => Fault
  end.

Definition monitor_of (m : MonitorBehavior) : TerminalAppMonitorBehavior :=
  match m with
  | MonitorAny => InPlace
  | MonitorToCurrent => ToCurrent
  | MonitorToMouse => ToMouse
  end.

Definition _hotkeyPressed (hotkeyIndex : Z) (e : WindowEmperor)
  : list Z * outcome WindowEmperor :=
  if (hotkeyIndex <? 0) || (Z.of_nat (length (_hotkeys e)) <? to_size_t hotkeyIndex)
  then ([], Ret e)
  else
    ([hotkeyIndex],
     match til_at (_hotkeys e) hotkeyIndex with
     | Ret summonArgs =>
         let args_ToMonitor := monitor_of (Monitor summonArgs) in
         Ret e
     | Throw x => Throw x
     | Fault => Fault
     end).

(** *** NotificationIconArbiter *)

Definition _checkWindowsForNotificationIcon (e : WindowEmperor) : WindowEmperor :=
  let needsIcon :=
    fold_left (λ needsIcon _windowThread, needsIcon || IsQuakeWindow _windowThread)
              (_windows e) (RequestsTrayIcon (_app e)) in
  if Bool.eqb (_notificationIconShown e) needsIcon then e
  else
    let e :=
      if needsIcon
      then call (Shell_NotifyIconW NIM_SETVERSION) (call (Shell_NotifyIconW NIM_ADD) e)
      else call (Shell_NotifyIconW NIM_DELETE) e in
    with_notificationIconShown needsIcon e.

(** The second variant of the file skips the scan when the setting already
    asks for the icon. *)
Definition _checkWindowsForNotificationIcon' (e : WindowEmperor) : WindowEmperor :=
  let needsIcon := RequestsTrayIcon (_app e) in
  let needsIcon :=
    if negb needsIcon
    then fold_left (λ needsIcon host, needsIcon || IsQuakeWindow host) (_windows e) needsIcon
    else needsIcon in
  if Bool.eqb (_notificationIconShown e) needsIcon then e
  else
    let e :=
      if needsIcon
      then call (Shell_NotifyIconW NIM_SETVERSION) (call (Shell_NotifyIconW NIM_ADD) e)
      else call (Shell_NotifyIconW NIM_DELETE) e in
    with_notificationIconShown needsIcon e.

Definition shell_calls (e : WindowEmperor) : list NotifyIconMessage :=
  omap (λ c, match c with Shell_NotifyIconW m => Some m | _ => None end) (os e).

End Emperor.

(** ** The session-buffer sweep of [_finalizeSessionPersistence] *)

Module Persistence.

Definition guid := Z.

Inductive ContentArgs : Type :=
| NewTerminalArgs (SessionId : guid)
| OtherContentArgs.

Inductive ActionArgs : Type :=
| NewTabArgs (content : ContentArgs)
| SplitPaneArgs (content : ContentArgs)
| OtherActionArgs.

(** A window layout, reduced to the arguments of its [TabLayout] actions. *)
Definition WindowLayout := list ActionArgs.

Definition terminalArgs_of (args : ActionArgs) : option guid :=
  match args with
  | NewTabArgs (NewTerminalArgs id) => Some id
  | SplitPaneArgs (NewTerminalArgs id) => Some id
  | _ => None
  end.

Definition collect_sessionIds (layouts : option (list WindowLayout)) : gset Z :=
  match layouts with
  | Some layouts =>
      fold_left
        (λ sessionIds windowLayout,
           fold_left
             (λ sessionIds actionAndArgs,
                match terminalArgs_of actionAndArgs with
                | Some id => sessionIds ∪ {[id]}
                | None => sessionIds
                end)
             windowLayout sessionIds)
        layouts ∅
  | None => ∅
  end.

(** ["{" + name[7 .. 7+36) + "}"], the text handed to [Utils::GuidFromString]. *)
Definition guidStr_of (name : list Z) : list Z :=
  [123] ++ take 36 (drop 7 name) ++ [125].

Section Sweep.
(** [Utils::GuidFromString] lives outside this file; it either yields a
    GUID or raises. *)
Variable GuidFromString : list Z → outcome guid.
Variable sessionIds : gset Z.

(** [listing] is what [FindFirstFileExW]/[FindNextFileW] enumerate for
    [buffer_*]; [dir] is the set of names present in the settings directory.
    The result is how the loop ended and the directory as it is then: when
    [GuidFromString] raises, nothing catches it, and what
    [std::filesystem::remove] took away before stays away. *)
Fixpoint sweep (listing : list (list Z)) (dir : gset (list Z))
  : outcome unit * gset (list Z) :=
  match listing with
  | [] => (Ret tt, dir)
  | name :: rest =>
      let nameLen := length name in
      if decide (nameLen ≠ 47%nat) then sweep rest dir
      else
        match GuidFromString (guidStr_of name) with
        | Ret id =>
            if decide (id ∈ sessionIds)
            then sweep rest dir
            else sweep rest (dir ∖ {[name]})
        | Throw x => (Throw x, dir)
        | Fault => (Fault, dir)
        end
  end.

(** The part of a listing the loop gets through: the names before the first
    one of 47 characters on which [GuidFromString] does not return. *)
Fixpoint reached (listing : list (list Z)) : list (list Z) :=
  match listing with
  | [] => []
  | name :: rest =>
      if decide (length name ≠ 47%nat) then name :: reached rest
      else
        match GuidFromString (guidStr_of name) with
        | Ret _ => name :: reached rest
        | _ => []
        end
  end.

(** The names a sweep over [listing] removes. *)
Definition doomed (listing : list (list Z)) : list (list Z) :=
  List.filter
    (λ name,
       bool_decide (length name = 47%nat) &&
       match GuidFromString (guidStr_of name) with
       | Ret id => negb (bool_decide (id ∈ sessionIds))
       | _ => false
       end)
    listing.
End Sweep.

(** A settings directory at shutdown: one buffer of a persisted session, one
    stale buffer, and a file whose name merely starts like a buffer's. *)
Definition buffer_name (digit : Z) : list Z :=
  [98; 117; 102; 102; 101; 114; 95] ++ replicate 36 digit ++ [46; 116; 120; 116].

Definition kept_buffer : list Z := buffer_name 49.
Definition stale_buffer : list Z := buffer_name 50.
Definition other_file : list Z := [98; 117; 102; 102; 101; 114; 95; 110; 111; 116; 101; 115].

(** A stand-in parser for the scenario: the GUID is read off the first digit. *)
Definition first_digit_guid (guidStr : list Z) : outcome guid :=
  match guidStr with
  | _ :: digit :: _ => Ret digit
  | _ => Throw (out_of_range "guid")
  end.

Definition scenario_layouts : option (list WindowLayout) :=
  Some [[NewTabArgs (NewTerminalArgs 49); SplitPaneArgs OtherContentArgs; OtherActionArgs]].



Definition _finalizeSessionPersistence (GuidFromString : list Z → outcome guid)
    (_requiresPersistenceCleanupOnExit : bool) (layouts : option (list WindowLayout))
    (listing : list (list Z)) (dir : gset (list Z)) : outcome unit * gset (list Z) :=
  if negb _requiresPersistenceCleanupOnExit then (Ret tt, dir)
  else sweep GuidFromString (collect_sessionIds layouts) listing dir.

End Persistence.


(** ** The layout a successful parse follows *)

Module HandoffLayout.
Import Codec.

(** The three length prefixes as they stand in a buffer, and the number of
    bytes a parse that obeys them consumes. *)
Definition len_args (mem : list byte) : Z := uint32_at mem 0.
Definition len_env (mem : list byte) : Z := uint32_at mem (4 + 2 * len_args mem).
Definition len_cwd (mem : list byte) : Z :=
  uint32_at mem (8 + 2 * len_args mem + 2 * len_env mem).
Definition consumed (mem : list byte) : Z :=
  16 + 2 * (len_args mem + len_env mem + len_cwd mem).

Definition parsed_views (mem : list byte) : Handoff :=
  {| args := {| data := 4; size := len_args mem |};
     env := {| data := 8 + 2 * len_args mem; size := len_env mem |};
     cwd := {| data := 12 + 2 * len_args mem + 2 * len_env mem; size := len_cwd mem |};
     show := uint32_at mem (12 + 2 * len_args mem + 2 * len_env mem + 2 * len_cwd mem) |}.

(** The code units a view spans. *)
Definition view_wchars (mem : list byte) (v : wstring_view) : wstring :=
  wchars_of_bytes (take (Z.to_nat (sizeof_wchar_t * size v)) (drop (Z.to_nat (data v)) mem)).

Definition parsed_payload (mem : list byte) : HandoffPayload :=
  {| commandLine := view_wchars mem (args (parsed_views mem));
     environmentBlock := view_wchars mem (env (parsed_views mem));
     workingDirectory := view_wchars mem (cwd (parsed_views mem));
     showCommand := show (parsed_views mem) |}.

End HandoffLayout.


(** ** The environment block: [stringFromDoubleNullTerminated] *)

Module EnvironmentBlock.

(** Memory from [beg] on is a list of code units and pointers are offsets
    into it; a load outside the list is a [Fault].  [wcsnlen] gets the memory
    from its argument on ([SIZE_T_MAX] never cuts the count short). *)
Fixpoint wcsnlen (s : list Z) : option nat :=
  match s with
  | [] => None
  | c :: s' => if c =? 0 then Some 0%nat else S <$> wcsnlen s'
  end.

(** The [for] loop: where [end] stops. *)
Fixpoint scan (fuel : nat) (mem : list Z) (end_ : nat) : option (outcome nat) :=
  match fuel with
  | O => None
  | S fuel =>
      match mem !! end_ with
      | None => Some Fault
      | Some c =>
          if c =? 0 then Some (Ret end_)
          else
            match wcsnlen (drop end_ mem) with
            | None => Some Fault
            | Some n => scan fuel mem (end_ + n + 1)
            end
      end
  end.

(** The view [{ beg, end }], copied out. *)
Definition stringFromDoubleNullTerminated (fuel : nat) (mem : list Z) : option (outcome (list Z)) :=
  match scan fuel mem 0 with
  | Some (Ret end_) => Some (Ret (take end_ mem))
  | Some (Throw x) => Some (Throw x)
  | Some Fault => Some Fault
  | None => None
  end.

(** A block of NUL-terminated strings, without the NUL that ends the block. *)
Definition terminated_strings (strs : list (list Z)) : list Z :=
  concat (map (λ s, s ++ [0]) strs).

Definition env_string (s : list Z) : Prop := s ≠ [] ∧ Forall (λ c, c ≠ 0) s.

(** ["A=1"] and ["B=2"]. *)
Definition two_variables : list (list Z) := [[65; 61; 49]; [66; 61; 50]].

End EnvironmentBlock.


(** ** Reading the retry loop's outcome off the operating system's answers *)

Module HandoffAttempts.
Import SingleInstance.

(** The mutex is the caller's: a handle came back and it was not there before. *)
Definition fresh_mutex (a : Attempt) : bool :=
  CreateMutexW_handle a && negb (lastError_ALREADY_EXISTS a).

(** The primary's window was found and took the message in time. *)
Definition delivered (a : Attempt) : bool :=
  FindWindowW_found a && SendMessageTimeoutW_ok a.

(** A pass that ends the loop. *)
Definition decisive (a : Attempt) : bool := fresh_mutex a || delivered a.

(** Every pass finds a hung primary: no mutex, a window, no answer in time. *)
Definition hung_primary : Attempt :=
  {| CreateMutexW_handle := true; lastError_ALREADY_EXISTS := true;
     FindWindowW_found := true; SendMessageTimeoutW_ok := false |}.

(** The primary has its mutex but not yet its window. *)
Definition primary_starting : Attempt :=
  {| CreateMutexW_handle := true; lastError_ALREADY_EXISTS := true;
     FindWindowW_found := false; SendMessageTimeoutW_ok := false |}.

Definition primary_ready : Attempt :=
  {| CreateMutexW_handle := true; lastError_ALREADY_EXISTS := true;
     FindWindowW_found := true; SendMessageTimeoutW_ok := true |}.

(** The primary's window appears at the third pass. *)
Definition ready_at_third_pass (k : nat) : Attempt :=
  if (k <? 2)%nat then primary_starting else primary_ready.

End HandoffAttempts.


(** ** Runs of the window pool *)

Module PoolRuns.
Import Emperor.

(** [k] windows go, one after the other. *)
Fixpoint decrements (k : nat) (e : WindowEmperor) : WindowEmperor :=
  match k with
  | O => e
  | S k => _decrementWindowCount (decrements k e)
  end.

(** One thing happening to the pool: the main thread serves a request and
    the window is published; it serves a request whose window never gets as
    far as the active list ([CreateHost] throws on its thread); or the
    message pump of one of the active windows is left. *)
Inductive pool_step (IsWindows11 : bool) : WindowEmperor → WindowEmperor → Prop :=
| step_request (args : CommandlineArgs) (id : Z) (quake : bool) (e : WindowEmperor) :
    pool_step IsWindows11 e (fst (request_and_publish true args id quake e))
| step_call (args : CommandlineArgs) (id : Z) (quake : bool) (e : WindowEmperor) :
    pool_step IsWindows11 e (fst (_createNewWindowThread args id quake e))
| step_close (window : WindowThread) (pump : PumpExit) (e : WindowEmperor) :
    window ∈ _windows e →
    pool_step IsWindows11 e (fst (warm_cycle_leave true IsWindows11 pump window e)).



(** The notification area, as the shell keeps it: whether the icon is there
    after a run of calls, and whether each call of the run was in order (the
    icon added while absent, versioned or deleted while present). *)
Definition tray_after (present : bool) (calls : list NotifyIconMessage) : bool :=
  fold_left (λ present m,
               match m with
               | NIM_ADD => true
               | NIM_DELETE => false
               | NIM_SETVERSION => present
               end) calls present.

Definition icon_in_tray (calls : list NotifyIconMessage) : bool := tray_after false calls.

Fixpoint tray_protocol (present : bool) (calls : list NotifyIconMessage) : bool :=
  match calls with
  | [] => true
  | NIM_ADD :: calls => negb present && tray_protocol true calls
  | NIM_SETVERSION :: calls => present && tray_protocol present calls
  | NIM_DELETE :: calls => present && tray_protocol false calls
  end.

(** The emperor's flag tells the truth about the notification area. *)
Definition tray_ok (e : WindowEmperor) : Prop :=
  tray_protocol false (shell_calls e) = true ∧
  _notificationIconShown e = icon_in_tray (shell_calls e).

(** One thing happening on the emperor's side: a step of the pool, a setup
    of the hotkeys, a check of the icon, or a change that makes no call and
    leaves the flag alone (the settings are reloaded, a window enters or
    leaves quake mode). *)
Inductive emperor_step (IsWindows11 : bool) : WindowEmperor → WindowEmperor → Prop :=
| step_pool (e e' : WindowEmperor) :
    pool_step IsWindows11 e e' → emperor_step IsWindows11 e e'
| step_hotkeys (e : WindowEmperor) :
    emperor_step IsWindows11 e (_setupGlobalHotkeys e)
| step_icon (e : WindowEmperor) :
    emperor_step IsWindows11 e (_checkWindowsForNotificationIcon e)
| step_silent (e e' : WindowEmperor) :
    os e' = os e → _notificationIconShown e' = _notificationIconShown e →
    emperor_step IsWindows11 e e'.

(** A fresh emperor: nothing registered, nothing shown, no window yet. *)
Definition fresh_emperor (app : AppLogic) : WindowEmperor :=
  {| _window := true; _app := app; _windows := []; _oldWindows := [];
     _windowThreadInstances := 0; _hotkeys := []; _notificationIconShown := false;
     _quitting := false; os := [] |}.

Definition plain_app : AppLogic :=
  {| AllowHeadless := false; RequestsTrayIcon := false; GlobalHotkeys := [] |}.

(** Three windows are counted and none is gone yet. *)
Definition three_windows_counted : WindowEmperor :=
  {| _window := true; _app := plain_app; _windows := []; _oldWindows := [];
     _windowThreadInstances := 3; _hotkeys := []; _notificationIconShown := false;
     _quitting := false; os := [] |}.

(** A step that makes no shell call and leaves the flag alone. *)
Definition quiet (e e' : WindowEmperor) : Prop :=
  shell_calls e' = shell_calls e ∧ _notificationIconShown e' = _notificationIconShown e.


End PoolRuns.

(** ** The message window: [WM_COPYDATA] *)

Module Messages.
Import Codec Emperor.

Definition TERMINAL_HANDOFF_MAGIC : Z := 0x5445524d494e414c.

(** [hstring::c_str()] as a callee reads it: the code units before the first NUL. *)
Fixpoint c_str (s : list Z) : list Z :=
  match s with
  | [] => []
  | c :: s => if c =? 0 then [] else c :: c_str s
  end.

Section Handler.
(** [CommandLineToArgvW] belongs to the shell; what matters here is the
    [argc] strings it hands back for a command line. *)
Variable CommandLineToArgvW : list Z → list (list Z).

(** [buildArgsFromCommandline]: the [argc] strings, copied in order. *)
Definition buildArgsFromCommandline (commandLine : list Z) : list (list Z) :=
  let argv := CommandLineToArgvW commandLine in
  fold_left (λ args arg, args ++ [arg]) argv [].

(** The [WM_COPYDATA] case of [_messageHandler]. [dwData] and [lpData] (its
    [cbData] bytes) are the fields of the [COPYDATASTRUCT]; [id] and [quake]
    are what the window that serves the request will report.  [CATCH_LOG]
    swallows what the decoder throws.  Beside the emperor the result tells
    whether [_createNewWindowThread] was called and how that call went. *)
Definition on_WM_COPYDATA (dwData : Z) (lpData : list byte) (id : Z) (quake : bool)
    (e : WindowEmperor) : outcome (WindowEmperor * option RequestOutcome) :=
  if dwData =? TERMINAL_HANDOFF_MAGIC then
    match fst (decodeHandoff lpData) with
    | Ret handoff =>
        let argv := buildArgsFromCommandline (c_str (commandLine handoff)) in
        let eventArgs :=
          {| Commandline := argv; CurrentDirectory := workingDirectory handoff;
             ShowWindowCommand := to_uint32 (showCommand handoff);
             CurrentEnvironment := environmentBlock handoff |} in
        let '(e, o) := _createNewWindowThread eventArgs id quake e in
        Ret (e, Some o)
    | Throw _ => Ret (e, None)
    | Fault => Fault
    end
  else Ret (e, None).
End Handler.

(** A stand-in for the shell's splitter in the scenario: one argument, the
    whole command line. *)
Definition whole_line (commandLine : list Z) : list (list Z) := [commandLine].

End Messages.

(** ** Startup: the windows [HandleCommandlineArgs] asks for *)

Module Startup.
Import Emperor.

Section Requests.
(** [winrt::to_hstring(uint32_t)] belongs to the language projection. *)
Variable to_hstring : Z → list Z.
(** What [stringFromDoubleNullTerminated(GetEnvironmentStringsW())] and
    [GetCurrentDirectoryW] give during startup, and [nCmdShow]. *)
Variables (env cwd : list Z) (nCmdShow : Z).

(** [{ L"wt", L"-w", L"new", L"-s", to_hstring(startIdx) }] *)
Definition restore_argv (startIdx : Z) : list (list Z) :=
  [[119; 116]; [45; 119]; [110; 101; 119]; [45; 115]; to_hstring startIdx].

Definition eventArgs_of (argv : list (list Z)) : CommandlineArgs :=
  {| Commandline := argv; CurrentDirectory := cwd;
     ShowWindowCommand := to_uint32 nCmdShow; CurrentEnvironment := env |}.

(** [for (const auto layout : layouts)], with the [uint32_t] counter
    [startIdx]: the requests handed to [_createNewWindowThread], in order. *)
Fixpoint restore_requests {Layout : Type} (layouts : list Layout) (startIdx : Z)
  : list CommandlineArgs :=
  match layouts with
  | [] => []
  | layout :: layouts =>
      eventArgs_of (restore_argv startIdx) :: restore_requests layouts (to_uint32 (startIdx + 1))
  end.

(** The window requests of [HandleCommandlineArgs] in the variant that
    restores persisted layouts, with the flag it leaves in
    [_requiresPersistenceCleanupOnExit].  [IsolatedMode] is the setting;
    [mutex] says whether [acquireMutexOrAttemptHandoff], called unless the
    mode is isolated, handed a mutex back; [args] is what
    [buildArgsFromCommandline(GetCommandLineW())] gave.  [None] is the early
    return: the process is not the one that keeps the windows. *)
Definition HandleCommandlineArgs_requests {Layout : Type} (IsolatedMode mutex : bool)
    (layouts : option (list Layout)) (args : list (list Z))
  : option (bool * list CommandlineArgs) :=
  if negb IsolatedMode && negb mutex then None
  else
    let _requiresPersistenceCleanupOnExit :=
      match layouts with
      | Some layouts => 0 <? Z.of_nat (length layouts)
      | None => false
      end in
    let restored :=
      if _requiresPersistenceCleanupOnExit
      then restore_requests (default [] layouts) 0
      else [] in
    let own :=
      if negb (Z.of_nat (length args) =? 1) || negb _requiresPersistenceCleanupOnExit
      then [eventArgs_of args]
      else [] in
    Some (_requiresPersistenceCleanupOnExit, restored ++ own).
End Requests.

End Startup.

(** * Proofs *)

(** ** Bytes and little-endian words *)

Lemma Z_of_byte_range (b : byte) : 0 <= Z_of_byte b < 256.
Proof.
  unfold Z_of_byte. pose proof (Byte.to_N_bounded b) as H.
  split; [apply N2Z.is_nonneg|]. apply (N2Z.inj_le _ 255) in H. lia.
Qed.

Lemma Z_of_byte_of_Z (z : Z) : Z_of_byte (byte_of_Z z) = z mod 256.
Proof.
  unfold Z_of_byte, byte_of_Z.
  assert (Hr : 0 <= z mod 256 < 256) by (apply Z.mod_pos_bound; lia).
  destruct (Byte.of_N (Z.to_N (z mod 256))) as [b|] eqn:E.
  - apply Byte.to_of_N in E. simpl. rewrite E. lia.
  - apply Byte.of_N_None_iff in E. lia.
Qed.

Lemma uint32_of_bytes_range (b0 b1 b2 b3 : byte) :
  0 <= uint32_of_bytes b0 b1 b2 b3 < UINT32_MOD.
Proof.
  unfold uint32_of_bytes, UINT32_MOD.
  pose proof (Z_of_byte_range b0). pose proof (Z_of_byte_range b1).
  pose proof (Z_of_byte_range b2). pose proof (Z_of_byte_range b3).
  change (2 ^ 8) with 256. change (2 ^ 16) with 65536.
  change (2 ^ 24) with 16777216. change (2 ^ 32) with 4294967296. lia.
Qed.

Lemma uint32_bytes_inv (v : Z) :
  0 <= v < UINT32_MOD →
  uint32_of_bytes (byte_of_Z v) (byte_of_Z (v / 2 ^ 8))
                  (byte_of_Z (v / 2 ^ 16)) (byte_of_Z (v / 2 ^ 24)) = v.
Proof.
  unfold uint32_of_bytes, UINT32_MOD. intros Hv.
  rewrite !Z_of_byte_of_Z.
  change (2 ^ 8) with 256. change (2 ^ 16) with 65536.
  change (2 ^ 24) with 16777216. change (2 ^ 32) with 4294967296 in Hv.
  Z.div_mod_to_equations. lia.
Qed.

Lemma wstring_bytes_length (s : wstring) :
  length (wstring_bytes s) = (2 * length s)%nat.
Proof.
  unfold wstring_bytes. induction s as [|c s IH]; simpl; [reflexivity|].
  rewrite IH. lia.
Qed.

Lemma wchars_of_wstring_bytes (s : wstring) :
  wf_wstring s → wchars_of_bytes (wstring_bytes s) = s.
Proof.
  unfold wf_wstring, wstring_bytes. induction 1 as [|c s Hc _ IH]; simpl; [reflexivity|].
  f_equal; [|exact IH].
  rewrite !Z_of_byte_of_Z. unfold wf_wchar in Hc.
  change (2 ^ 8) with 256. change (2 ^ 16) with 65536 in Hc.
  Z.div_mod_to_equations. lia.
Qed.

(** ** The decoder, step by step *)

Section DecoderSteps.
Import Codec.
Variable mem : list byte.
Variable end_ : Z.
Hypothesis Hend : end_ = Z.of_nat (length mem).
Hypothesis Hsize : end_ < SIZE_T_MOD.

Lemma to_size_t_small (z : Z) : 0 <= z < SIZE_T_MOD → to_size_t z = z.
Proof. intros. unfold to_size_t. apply Z.mod_small. assumption. Qed.

Lemma load8_in (p : Z) (log : list Z) :
  0 <= p < end_ → load8 p mem log = (Ret (byte_at mem p), log ++ [p]).
Proof.
  intros Hp. unfold load8, byte_at.
  destruct (decide (0 <= p)) as [_|]; [|lia].
  destruct (lookup_lt_is_Some_2 mem (Z.to_nat p)) as [b Hb]; [lia|].
  rewrite Hb. reflexivity.
Qed.

Lemma load_uint32_in (p : Z) (log : list Z) :
  0 <= p → p + 4 <= end_ →
  load_uint32 p mem log = (Ret (uint32_at mem p), log ++ [p; p + 1; p + 2; p + 3]).
Proof.
  intros H0 H4. unfold load_uint32, bind.
  rewrite !load8_in by lia. unfold ret, uint32_at.
  rewrite <- !app_assoc. reflexivity.
Qed.

Lemma deserializeUint32_eq (it : Z) (log : list Z) :
  0 <= it <= end_ →
  deserializeUint32 it end_ mem log =
    if end_ - it <? 4
    then (Throw (out_of_range "Not enough data for uint32_t"), log)
    else (Ret (it + 4, uint32_at mem it), log ++ [it; it + 1; it + 2; it + 3]).
Proof.
  intros Hit. unfold deserializeUint32, sizeof_uint32_t.
  rewrite to_size_t_small by lia.
  destruct (Z.ltb_spec (end_ - it) 4); [reflexivity|].
  unfold bind. rewrite load_uint32_in by lia. reflexivity.
Qed.

Lemma uint32_at_range (p : Z) : 0 <= uint32_at mem p < UINT32_MOD.
Proof. apply uint32_of_bytes_range. Qed.

Lemma deserializeString_eq (it : Z) (log : list Z) :
  0 <= it <= end_ →
  deserializeString it end_ mem log =
    if end_ - it <? 4
    then (Throw (out_of_range "Not enough data for uint32_t"), log)
    else
      let len := uint32_at mem it in
      if end_ - (it + 4) <? 2 * len
      then (Throw (out_of_range "Not enough data for string content"),
            log ++ [it; it + 1; it + 2; it + 3])
      else (Ret (it + 4 + 2 * len, {| data := it + 4; size := len |}),
            log ++ [it; it + 1; it + 2; it + 3]).
Proof.
  intros Hit. unfold deserializeString, bind.
  rewrite deserializeUint32_eq by assumption.
  destruct (Z.ltb_spec (end_ - it) 4); [reflexivity|].
  pose proof (uint32_at_range it) as Hr. unfold UINT32_MOD in Hr.
  change (2 ^ 32) with 4294967296 in Hr.
  assert (HS : SIZE_T_MOD = 18446744073709551616) by reflexivity.
  cbv zeta. unfold sizeof_wchar_t.
  rewrite !to_size_t_small by lia.
  replace (uint32_at mem it * 2) with (2 * uint32_at mem it) by lia.
  destruct (Z.ltb_spec (end_ - (it + 4)) (2 * uint32_at mem it)); reflexivity.
Qed.
End DecoderSteps.

(** ** What the encoder writes *)

Section EncoderShape.
Import Codec.

Lemma string_record_length (s : wstring) :
  Z.of_nat (length (string_record s)) = 4 + 2 * Z.of_nat (length s).
Proof.
  unfold string_record. rewrite length_app, wstring_bytes_length. simpl. lia.
Qed.

Lemma serializeString_ok (out : list byte) (s : wstring) :
  Z.of_nat (length s) < UINT32_MOD →
  serializeString out s = Ret (out ++ string_record s).
Proof.
  intros Hlen. unfold serializeString, narrow_uint32, to_uint32.
  rewrite Z.mod_small by lia.
  destruct (decide _) as [_|]; [|congruence].
  unfold serializeUint32, string_record, sizeof_wchar_t.
  rewrite to_size_t_small
    by (unfold UINT32_MOD in Hlen; change (2 ^ 32) with 4294967296 in Hlen;
        change SIZE_T_MOD with 18446744073709551616; lia).
  rewrite take_ge by (rewrite wstring_bytes_length; lia).
  rewrite <- app_assoc. reflexivity.
Qed.

Lemma encodeHandoff_ok (p : HandoffPayload) :
  valid_payload p → encodeHandoff p = Ret (payload_bytes p).
Proof.
  intros (_ & _ & _ & H1 & H2 & H3 & Hs).
  unfold encodeHandoff, serializeHandoffPayload.
  rewrite !serializeString_ok by assumption.
  unfold serializeUint32, payload_bytes, to_uint32.
  rewrite Z.mod_small by assumption.
  rewrite <- !app_assoc. reflexivity.
Qed.

Lemma payload_bytes_length (p : HandoffPayload) :
  Z.of_nat (length (payload_bytes p)) =
    16 + 2 * (Z.of_nat (length (commandLine p)) + Z.of_nat (length (environmentBlock p))
              + Z.of_nat (length (workingDirectory p))).
Proof.
  unfold payload_bytes. rewrite !length_app, !Nat2Z.inj_add, !string_record_length.
  simpl. lia.
Qed.
End EncoderShape.

(** ** Reading back what was written *)

Section ReadBack.
Import Codec.

Lemma byte_at_app_r (pre post : list byte) (k : Z) :
  0 <= k → byte_at (pre ++ post) (Z.of_nat (length pre) + k) = byte_at post k.
Proof.
  intros Hk. unfold byte_at. rewrite lookup_app_r by lia.
  do 2 f_equal. lia.
Qed.

Lemma uint32_at_app (pre post : list byte) (v : Z) :
  0 <= v < UINT32_MOD →
  uint32_at (pre ++ uint32_bytes v ++ post) (Z.of_nat (length pre)) = v.
Proof.
  intros Hv. unfold uint32_at.
  rewrite <- (Z.add_0_r (Z.of_nat (length pre))) at 1.
  rewrite !byte_at_app_r by lia.
  simpl. apply uint32_bytes_inv. assumption.
Qed.

Lemma byte_at_take (n : nat) (mem : list byte) (p : Z) :
  0 <= p < Z.of_nat n → byte_at (take n mem) p = byte_at mem p.
Proof. intros Hp. unfold byte_at. rewrite lookup_take_lt by lia. reflexivity. Qed.

Lemma uint32_at_take (n : nat) (mem : list byte) (p : Z) :
  0 <= p → p + 4 <= Z.of_nat n → uint32_at (take n mem) p = uint32_at mem p.
Proof. intros H0 H4. unfold uint32_at. rewrite !byte_at_take by lia. reflexivity. Qed.

Lemma hstring_of_view_app (pre post : list byte) (s : wstring) (log : list Z) :
  wf_wstring s →
  ∃ log',
    hstring_of_view {| data := Z.of_nat (length pre); size := Z.of_nat (length s) |}
      (pre ++ wstring_bytes s ++ post) log = (Ret s, log').
Proof.
  intros Hs. unfold hstring_of_view. cbn [data size]. eexists.
  destruct (decide _) as [_|Hn].
  - f_equal. f_equal. rewrite Nat2Z.id, drop_app_length.
    replace (Z.to_nat (sizeof_wchar_t * Z.of_nat (length s))) with (length (wstring_bytes s))
      by (rewrite wstring_bytes_length; unfold sizeof_wchar_t; lia).
    rewrite take_app_length. apply wchars_of_wstring_bytes. assumption.
  - exfalso. apply Hn. rewrite !length_app, wstring_bytes_length.
    unfold sizeof_wchar_t. lia.
Qed.
End ReadBack.

(** ** Where the fields sit in an encoded payload *)

Section PayloadLayout.
Import Codec.
Variable p : HandoffPayload.
Hypothesis Hvalid : valid_payload p.

Let l1 := Z.of_nat (length (commandLine p)).
Let l2 := Z.of_nat (length (environmentBlock p)).
Let l3 := Z.of_nat (length (workingDirectory p)).

Lemma payload_len1 : uint32_at (payload_bytes p) 0 = l1.
Proof using Hvalid.
  destruct Hvalid as (_ & _ & _ & H1 & _).
  unfold payload_bytes, string_record. rewrite <- !app_assoc.
  apply (uint32_at_app []). subst l1. lia.
Qed.

Lemma payload_len2 : uint32_at (payload_bytes p) (4 + 2 * l1) = l2.
Proof using Hvalid.
  destruct Hvalid as (_ & _ & _ & _ & H2 & _).
  unfold payload_bytes.
  replace (4 + 2 * l1) with (Z.of_nat (length (string_record (commandLine p))))
    by (rewrite string_record_length; subst l1; lia).
  unfold string_record at 3. rewrite <- (app_assoc (uint32_bytes _)).
  apply uint32_at_app. subst l2. lia.
Qed.

Lemma payload_len3 : uint32_at (payload_bytes p) (8 + 2 * l1 + 2 * l2) = l3.
Proof using Hvalid.
  destruct Hvalid as (_ & _ & _ & _ & _ & H3 & _).
  unfold payload_bytes.
  replace (8 + 2 * l1 + 2 * l2)
    with (Z.of_nat (length (string_record (commandLine p) ++ string_record (environmentBlock p))))
    by (rewrite length_app, Nat2Z.inj_add, !string_record_length; subst l1 l2; lia).
  rewrite (app_assoc (string_record (commandLine p))).
  unfold string_record at 3. rewrite <- (app_assoc (uint32_bytes _)).
  apply uint32_at_app. subst l3. lia.
Qed.

Lemma payload_show :
  uint32_at (payload_bytes p) (12 + 2 * l1 + 2 * l2 + 2 * l3) = showCommand p.
Proof using Hvalid.
  destruct Hvalid as (_ & _ & _ & _ & _ & _ & Hs).
  unfold payload_bytes.
  replace (12 + 2 * l1 + 2 * l2 + 2 * l3)
    with (Z.of_nat (length (string_record (commandLine p) ++ string_record (environmentBlock p)
                            ++ string_record (workingDirectory p))))
    by (rewrite !length_app, !Nat2Z.inj_add, !string_record_length; subst l1 l2 l3; lia).
  rewrite (app_assoc (string_record (environmentBlock p))).
  rewrite (app_assoc (string_record (commandLine p))).
  rewrite <- (app_nil_r (uint32_bytes (showCommand p))).
  apply uint32_at_app. assumption.
Qed.

Lemma payload_view1 (log : list Z) :
  ∃ log', hstring_of_view {| data := 4; size := l1 |} (payload_bytes p) log
          = (Ret (commandLine p), log').
Proof using Hvalid.
  destruct Hvalid as (Hw & _).
  unfold payload_bytes. unfold string_record at 1. rewrite <- !app_assoc.
  apply (hstring_of_view_app (uint32_bytes _)). assumption.
Qed.

Lemma payload_view2 (log : list Z) :
  ∃ log', hstring_of_view {| data := 4 + 2 * l1 + 4; size := l2 |} (payload_bytes p) log
          = (Ret (environmentBlock p), log').
Proof using Hvalid.
  destruct Hvalid as (_ & Hw & _).
  unfold payload_bytes. unfold string_record at 2.
  rewrite <- (app_assoc (uint32_bytes _)). rewrite (app_assoc (string_record _)).
  replace (4 + 2 * l1 + 4)
    with (Z.of_nat (length (string_record (commandLine p) ++ uint32_bytes l2)))
    by (rewrite length_app, Nat2Z.inj_add, string_record_length; subst l1; simpl; lia).
  apply hstring_of_view_app. assumption.
Qed.

Lemma payload_view3 (log : list Z) :
  ∃ log', hstring_of_view {| data := 4 + 2 * l1 + 4 + 2 * l2 + 4; size := l3 |}
            (payload_bytes p) log
          = (Ret (workingDirectory p), log').
Proof using Hvalid.
  destruct Hvalid as (_ & _ & Hw & _).
  unfold payload_bytes. unfold string_record at 3.
  rewrite <- (app_assoc (uint32_bytes _)).
  rewrite (app_assoc (string_record (environmentBlock p))).
  rewrite (app_assoc (string_record (commandLine p))).
  replace (4 + 2 * l1 + 4 + 2 * l2 + 4)
    with (Z.of_nat (length (string_record (commandLine p) ++
                            string_record (environmentBlock p) ++ uint32_bytes l3)))
    by (rewrite !length_app, !Nat2Z.inj_add, !string_record_length; subst l1 l2; simpl; lia).
  apply hstring_of_view_app. assumption.
Qed.
End PayloadLayout.

(** ** Round trip and truncation *)

Section CodecTheorems.
Import Codec.

Ltac payload_size Hvalid :=
  destruct Hvalid as (? & ? & ? & ? & ? & ? & ?);
  unfold UINT32_MOD in *; change (2 ^ 32) with 4294967296 in *;
  change SIZE_T_MOD with 18446744073709551616.

Ltac pass_check :=
  match goal with
  | |- context [if ?a <? ?b then _ else _] => destruct (Z.ltb_spec a b); [lia|]
  end.

Lemma payload_bytes_small (p : HandoffPayload) :
  valid_payload p → Z.of_nat (length (payload_bytes p)) < SIZE_T_MOD.
Proof. intros Hv. rewrite payload_bytes_length. payload_size Hv. lia. Qed.

Lemma deserialize_payload_bytes (p : HandoffPayload) (log : list Z) :
  valid_payload p →
  ∃ log',
    deserializeHandoffPayload 0 (Z.of_nat (length (payload_bytes p))) (payload_bytes p) log =
      (Ret {| args := {| data := 4; size := Z.of_nat (length (commandLine p)) |};
              env := {| data := 4 + 2 * Z.of_nat (length (commandLine p)) + 4;
                        size := Z.of_nat (length (environmentBlock p)) |};
              cwd := {| data := 4 + 2 * Z.of_nat (length (commandLine p)) + 4
                                + 2 * Z.of_nat (length (environmentBlock p)) + 4;
                        size := Z.of_nat (length (workingDirectory p)) |};
              show := showCommand p |}, log').
Proof.
  intros Hv.
  pose proof (payload_bytes_small p Hv) as Hsmall.
  pose proof (payload_bytes_length p) as Hlen.
  pose proof (payload_len1 p Hv) as E1. pose proof (payload_len2 p Hv) as E2.
  pose proof (payload_len3 p Hv) as E3. pose proof (payload_show p Hv) as E4.
  cbv zeta in E1, E2, E3, E4.
  set (mem := payload_bytes p) in *. set (end_ := Z.of_nat (length mem)) in *.
  assert (Hend : end_ = Z.of_nat (length mem)) by reflexivity.
  clearbody end_ mem.
  assert (E3' : uint32_at mem (4 + 2 * Z.of_nat (length (commandLine p)) + 4
                               + 2 * Z.of_nat (length (environmentBlock p)))
                = Z.of_nat (length (workingDirectory p)))
    by (rewrite <- E3; f_equal; lia).
  assert (E4' : uint32_at mem (4 + 2 * Z.of_nat (length (commandLine p)) + 4
                               + 2 * Z.of_nat (length (environmentBlock p)) + 4
                               + 2 * Z.of_nat (length (workingDirectory p)))
                = showCommand p)
    by (rewrite <- E4; f_equal; lia).
  unfold deserializeHandoffPayload, bind.
  rewrite (deserializeString_eq mem end_ Hend Hsmall) by lia.
  pass_check. cbv zeta. change (0 + 4) with 4. rewrite E1. pass_check.
  rewrite (deserializeString_eq mem end_ Hend Hsmall) by lia.
  pass_check. cbv zeta. rewrite E2. pass_check.
  rewrite (deserializeString_eq mem end_ Hend Hsmall) by lia.
  pass_check. cbv zeta. rewrite E3'. pass_check.
  rewrite (deserializeUint32_eq mem end_ Hend Hsmall) by lia.
  pass_check.
  rewrite E4'. unfold ret. eexists. reflexivity.
Qed.

(** C1: decoding the encoding of a valid payload gives the payload back,
    field for field: the three strings and the show command. *)
Theorem handoff_roundtrip (p : HandoffPayload) :
  valid_payload p →
  ∃ bytes log, encodeHandoff p = Ret bytes ∧ decodeHandoff bytes = (Ret p, log).
Proof.
  intros Hv. exists (payload_bytes p).
  destruct (deserialize_payload_bytes p [] Hv) as [log0 E0].
  destruct (payload_view1 p Hv log0) as [log1 V1].
  destruct (payload_view2 p Hv log1) as [log2 V2].
  destruct (payload_view3 p Hv log2) as [log3 V3].
  exists log3. split; [apply encodeHandoff_ok; assumption|].
  unfold decodeHandoff, bind. rewrite E0. cbn [args env cwd show].
  cbv zeta in V1, V2, V3. rewrite V1, V2, V3. unfold ret.
  destruct p; reflexivity.
Qed.

Ltac reads_ok :=
  unfold reads_within; cbn [app]; repeat (apply Forall_cons_2; [lia|]); apply Forall_nil_2.

Ltac fail_check :=
  match goal with
  | |- context [if ?a <? ?b then _ else _] =>
      destruct (Z.ltb_spec a b); [do 2 eexists; split; [reflexivity|reads_ok]|]
  end.

(** C2: every strict prefix of the encoding of a valid payload is rejected
    with [std::out_of_range], and every byte the decoder loads on the way
    lies inside the prefix it was given. *)
Theorem truncated_payload_rejected (p : HandoffPayload) (bytes : list byte) (n : nat) :
  valid_payload p →
  encodeHandoff p = Ret bytes →
  (n < length bytes)%nat →
  ∃ what log,
    deserializeHandoffPayload 0 (Z.of_nat n) (take n bytes) [] =
      (Throw (out_of_range what), log) ∧
    reads_within (Z.of_nat n) log.
Proof.
  intros Hv Henc Hn. rewrite (encodeHandoff_ok p Hv) in Henc.
  injection Henc as <-.
  pose proof (payload_bytes_small p Hv) as Hsmall.
  pose proof (payload_bytes_length p) as Hlen.
  pose proof (payload_len1 p Hv) as E1. pose proof (payload_len2 p Hv) as E2.
  pose proof (payload_len3 p Hv) as E3. cbv zeta in E1, E2, E3.
  assert (E3' : uint32_at (payload_bytes p)
                  (4 + 2 * Z.of_nat (length (commandLine p)) + 4
                   + 2 * Z.of_nat (length (environmentBlock p)))
                = Z.of_nat (length (workingDirectory p)))
    by (rewrite <- E3; f_equal; lia).
  set (full := payload_bytes p) in *.
  assert (Hend : Z.of_nat n = Z.of_nat (length (take n full)))
    by (rewrite length_take; lia).
  assert (Hsz : Z.of_nat n < SIZE_T_MOD) by lia.
  unfold deserializeHandoffPayload, bind.
  rewrite (deserializeString_eq _ _ Hend Hsz) by lia.
  fail_check. cbv zeta. change (0 + 4) with 4.
  rewrite uint32_at_take, E1 by lia. fail_check.
  rewrite (deserializeString_eq _ _ Hend Hsz) by lia.
  fail_check. cbv zeta. rewrite uint32_at_take, E2 by lia. fail_check.
  rewrite (deserializeString_eq _ _ Hend Hsz) by lia.
  fail_check. cbv zeta. rewrite uint32_at_take, E3' by lia. fail_check.
  rewrite (deserializeUint32_eq _ _ Hend Hsz) by lia.
  fail_check. lia.
Qed.

(** On any buffer whatsoever the decoder stays inside it: it either
    returns views that lie within the buffer or throws [std::out_of_range]. *)
Lemma deserializeHandoffPayload_in_bounds (mem : list byte) :
  Z.of_nat (length mem) < SIZE_T_MOD →
  ∃ log, reads_within (Z.of_nat (length mem)) log ∧
    ((∃ what, deserializeHandoffPayload 0 (Z.of_nat (length mem)) mem [] =
                (Throw (out_of_range what), log)) ∨
     (∃ h, deserializeHandoffPayload 0 (Z.of_nat (length mem)) mem [] = (Ret h, log) ∧
           0 <= data (args h) ∧ 0 <= size (args h) ∧
           data (args h) + 2 * size (args h) <= data (env h) ∧ 0 <= size (env h) ∧
           data (env h) + 2 * size (env h) <= data (cwd h) ∧ 0 <= size (cwd h) ∧
           data (cwd h) + 2 * size (cwd h) <= Z.of_nat (length mem))).
Proof.
  intros Hsz. set (end_ := Z.of_nat (length mem)) in *.
  assert (Hend : end_ = Z.of_nat (length mem)) by reflexivity. clearbody end_.
  pose proof (uint32_at_range mem) as Hr. unfold UINT32_MOD in Hr.
  unfold deserializeHandoffPayload, bind.
  rewrite (deserializeString_eq _ _ Hend Hsz) by lia.
  destruct (Z.ltb_spec (end_ - 0) 4);
    [eexists; split; [|left; eexists; reflexivity]; reads_ok|].
  cbv zeta. set (l1 := uint32_at mem 0). pose proof (Hr 0) as Hl1. fold l1 in Hl1.
  destruct (Z.ltb_spec (end_ - (0 + 4)) (2 * l1));
    [eexists; split; [|left; eexists; reflexivity]; reads_ok|].
  rewrite (deserializeString_eq _ _ Hend Hsz) by lia.
  destruct (Z.ltb_spec (end_ - (0 + 4 + 2 * l1)) 4);
    [eexists; split; [|left; eexists; reflexivity]; reads_ok|].
  cbv zeta. set (l2 := uint32_at mem (0 + 4 + 2 * l1)).
  pose proof (Hr (0 + 4 + 2 * l1)) as Hl2. fold l2 in Hl2.
  destruct (Z.ltb_spec (end_ - (0 + 4 + 2 * l1 + 4)) (2 * l2));
    [eexists; split; [|left; eexists; reflexivity]; reads_ok|].
  rewrite (deserializeString_eq _ _ Hend Hsz) by lia.
  destruct (Z.ltb_spec (end_ - (0 + 4 + 2 * l1 + 4 + 2 * l2)) 4);
    [eexists; split; [|left; eexists; reflexivity]; reads_ok|].
  cbv zeta. set (l3 := uint32_at mem (0 + 4 + 2 * l1 + 4 + 2 * l2)).
  pose proof (Hr (0 + 4 + 2 * l1 + 4 + 2 * l2)) as Hl3. fold l3 in Hl3.
  destruct (Z.ltb_spec (end_ - (0 + 4 + 2 * l1 + 4 + 2 * l2 + 4)) (2 * l3));
    [eexists; split; [|left; eexists; reflexivity]; reads_ok|].
  rewrite (deserializeUint32_eq _ _ Hend Hsz) by lia.
  destruct (Z.ltb_spec (end_ - (0 + 4 + 2 * l1 + 4 + 2 * l2 + 4 + 2 * l3)) 4);
    [eexists; split; [|left; eexists; reflexivity]; reads_ok|].
  eexists; split; [|right; eexists; split; [reflexivity|cbn [args env cwd data size]; lia]].
  reads_ok.
Qed.
End CodecTheorems.

(** ** The retry loop of [acquireMutexOrAttemptHandoff] *)

Section RetryLoop.
Import SingleInstance.

Lemma sleeps_of_app (t1 t2 : list Event) : sleeps_of (t1 ++ t2) = sleeps_of t1 ++ sleeps_of t2.
Proof. apply omap_app. Qed.

Lemma send_timeouts_of_app (t1 t2 : list Event) :
  send_timeouts_of (t1 ++ t2) = send_timeouts_of t1 ++ send_timeouts_of t2.
Proof. apply omap_app. Qed.

(** Whatever the operating system answers, a run that has enough fuel for
    the loop header has enough fuel for the loop; it sleeps along a prefix
    of the header's schedule and only ever sends with a 10000 ms timeout. *)
Lemma retry_loop_spec (payload : outcome (list byte)) (os : nat → Attempt) :
  ∀ (fuel : nat) (k : nat) (sleep : Z) (trace : list Event) (sched : list Z),
    backoff_schedule fuel sleep = Some sched →
    ∃ r tr,
      retry_loop fuel payload os k sleep trace = Some (r, trace ++ tr) ∧
      sleeps_of tr `prefix_of` sched ∧
      Forall (λ t, t = 10000) (send_timeouts_of tr).
Proof.
  induction fuel as [|fuel IH]; intros k sleep trace sched Hs; simpl in Hs; [discriminate|].
  simpl. destruct (sleep <? 10000).
  2:{ injection Hs as <-. exists (Ret false), []. rewrite app_nil_r.
      repeat split; [apply prefix_nil | constructor]. }
  destruct (backoff_schedule fuel (next_sleep sleep)) as [sched'|] eqn:Hs'; [|discriminate].
  injection Hs as <-.
  destruct (CreateMutexW_handle (os k) && negb (lastError_ALREADY_EXISTS (os k))).
  { exists (Ret true), [EvCreateMutex]. repeat split; [apply prefix_nil | constructor]. }
  destruct (FindWindowW_found (os k)).
  - destruct payload as [bytes|x|].
    + destruct (narrow_DWORD (Z.of_nat (length bytes))) as [cb|x|].
      * destruct (SendMessageTimeoutW_ok (os k)).
        -- exists (Ret false), [EvCreateMutex; EvFindWindow; EvSendMessageTimeout cb 10000].
           rewrite <- !app_assoc.
           repeat split; [apply prefix_nil | repeat constructor].
        -- destruct (IH (S k) (next_sleep sleep)
                       ((((trace ++ [EvCreateMutex]) ++ [EvFindWindow])
                         ++ [EvSendMessageTimeout cb 10000]) ++ [EvSleep sleep]) sched' Hs')
             as (r & tr & E & P & T).
           exists r, ([EvCreateMutex; EvFindWindow; EvSendMessageTimeout cb 10000;
                       EvSleep sleep] ++ tr).
           rewrite E, <- !app_assoc. repeat split.
           ++ rewrite sleeps_of_app. apply (prefix_app [sleep]). exact P.
           ++ rewrite send_timeouts_of_app. apply Forall_app. split; [repeat constructor|exact T].
      * exists (Throw x), [EvCreateMutex; EvFindWindow]. rewrite <- !app_assoc.
        repeat split; [apply prefix_nil | constructor].
      * exists Fault, [EvCreateMutex; EvFindWindow]. rewrite <- !app_assoc.
        repeat split; [apply prefix_nil | constructor].
    + exists (Throw x), [EvCreateMutex; EvFindWindow]. rewrite <- !app_assoc.
      repeat split; [apply prefix_nil | constructor].
    + exists Fault, [EvCreateMutex; EvFindWindow]. rewrite <- !app_assoc.
      repeat split; [apply prefix_nil | constructor].
  - destruct (IH (S k) (next_sleep sleep)
                (((trace ++ [EvCreateMutex]) ++ [EvFindWindow]) ++ [EvSleep sleep]) sched' Hs')
      as (r & tr & E & P & T).
    exists r, ([EvCreateMutex; EvFindWindow; EvSleep sleep] ++ tr).
    rewrite E, <- !app_assoc. repeat split.
    + rewrite sleeps_of_app. apply (prefix_app [sleep]). exact P.
    + rewrite send_timeouts_of_app. apply Forall_app. split; [constructor|exact T].
Qed.

Lemma retry_loop_more_fuel (payload : outcome (list byte)) (os : nat → Attempt) :
  ∀ (fuel fuel' : nat) (k : nat) (sleep : Z) (trace : list Event) r,
    retry_loop fuel payload os k sleep trace = Some r →
    (fuel <= fuel')%nat →
    retry_loop fuel' payload os k sleep trace = Some r.
Proof.
  induction fuel as [|fuel IH]; intros fuel' k sleep trace r E Hle; simpl in E; [discriminate|].
  destruct fuel' as [|fuel']; [lia|]. simpl.
  destruct (sleep <? 10000); [|exact E].
  destruct (CreateMutexW_handle (os k) && negb (lastError_ALREADY_EXISTS (os k))); [exact E|].
  destruct (FindWindowW_found (os k)).
  - destruct payload as [bytes|x|]; try exact E.
    destruct (narrow_DWORD (Z.of_nat (length bytes))) as [cb|x|]; try exact E.
    destruct (SendMessageTimeoutW_ok (os k)); [exact E|].
    apply IH; [exact E|lia].
  - apply IH; [exact E|lia].
Qed.

Lemma sum_list_prefix (l sched : list Z) :
  l `prefix_of` sched → Forall (λ z, 0 <= z) sched → sum_list l <= sum_list sched.
Proof.
  intros [rest ->] Hpos. apply Forall_app in Hpos as [_ Hrest].
  unfold sum_list. rewrite fold_right_app.
  assert (Hr : 0 <= fold_right Z.add 0 rest)
    by (induction Hrest; simpl; lia).
  revert Hr. generalize (fold_right Z.add 0 rest) as t. intros t Ht.
  induction l as [|a l IHl]; simpl; lia.
Qed.

(** C9: the retry loop always terminates, within fourteen passes: it
    sleeps 50 ms first, then 1.5 times the previous sleep in integer
    arithmetic, as long as that stays below 10000 ms, 28941 ms in all at
    most; every delivery attempt is made with a 10000 ms timeout. *)
Theorem acquire_terminates_with_bounded_backoff
    (args env cwd : wstring) (nCmdShow : Z) (os : nat → Attempt) :
  ∃ r trace,
    (∀ extra : nat,
       acquireMutexOrAttemptHandoff (15 + extra) args env cwd nCmdShow os = Some (r, trace)) ∧
    sleeps_of trace `prefix_of` schedule_50 ∧
    backoff_schedule 15 50 = Some schedule_50 ∧
    (length (sleeps_of trace) <= 14)%nat ∧
    Forall (λ s, s < 10000) (sleeps_of trace) ∧
    sum_list (sleeps_of trace) <= sum_list schedule_50 ∧
    sum_list schedule_50 = 28941 ∧ 28941 < 30000 ∧
    Forall (λ t, t = 10000) (send_timeouts_of trace).
Proof.
  set (payload := Codec.serializeHandoffPayload args env cwd nCmdShow).
  destruct (retry_loop_spec payload os 15 0 50 [] schedule_50 eq_refl)
    as (r & tr & E & P & T).
  exists r, tr. cbn [app] in E.
  split; [|split; [exact P|split; [reflexivity|split; [|split; [|split; [|split; [|split]]]]]]].
  - intros extra. unfold acquireMutexOrAttemptHandoff.
    apply (retry_loop_more_fuel payload os 15 (15 + extra)); [assumption|lia].
  - apply prefix_length in P. exact P.
  - destruct P as [rest HP].
    assert (HF : Forall (λ s, s < 10000) schedule_50) by (repeat constructor).
    rewrite HP in HF. apply Forall_app in HF as [HF _]. exact HF.
  - apply sum_list_prefix; [exact P|]. repeat constructor; lia.
  - reflexivity.
  - lia.
  - exact T.
Qed.
End RetryLoop.

(** ** The live-window counter and the quit signal *)

Section Shutdown.
Import Emperor.

(** C4: a decrement from 1 posts exactly one quit message when a quit was
    requested or headless operation is not allowed, and none when headless
    operation is allowed and no quit was requested; a decrement from any
    other value posts none. *)
Theorem decrement_quit_arbitration (e : WindowEmperor) :
  let e' := _decrementWindowCount e in
  _windowThreadInstances e' = to_uint32 (_windowThreadInstances e - 1) ∧
  match _windowThreadInstances e =? 1, _quitting e, AllowHeadless (_app e) with
  | true, true, _ | true, false, false =>
      os e' = os e ++ [PostQuitMessage 0] ∧
      quit_signals e' = S (quit_signals e) ∧
      _windowThreadInstances e' = 0
  | true, false, true =>
      os e' = os e ∧ quit_signals e' = quit_signals e ∧ _windowThreadInstances e' = 0
  | false, _, _ =>
      os e' = os e ∧ quit_signals e' = quit_signals e
  end.
Proof.
  unfold _decrementWindowCount, _close, quit_signals. cbn zeta.
  destruct (Z.eqb_spec (_windowThreadInstances e) 1) as [E|E];
    destruct (_quitting e) eqn:Q; destruct (AllowHeadless (_app e)) eqn:H;
    cbn [_quitting with_windowThreadInstances _app _windowThreadInstances os call
         andb orb negb];
    rewrite ?Q, ?H; cbn [_quitting with_windowThreadInstances _app _windowThreadInstances
                         os call andb orb negb];
    rewrite ?E, ?List.filter_app, ?length_app; cbn; repeat split; lia.
Qed.
End Shutdown.

(** ** The warm loop of a window thread *)

Section WarmLoop.
Import Emperor.

Lemma decrement_counter (e : WindowEmperor) :
  _windowThreadInstances (_decrementWindowCount e) = to_uint32 (_windowThreadInstances e - 1).
Proof. unfold _decrementWindowCount, _close. cbn zeta. destruct (_ && _); reflexivity. Qed.

Lemma decrement_keeps_lists (e : WindowEmperor) :
  _windows (_decrementWindowCount e) = _windows e ∧
  _oldWindows (_decrementWindowCount e) = _oldWindows e ∧
  threads_started (_decrementWindowCount e) = threads_started e.
Proof.
  unfold _decrementWindowCount, _close, threads_started. cbn zeta.
  destruct (_ && _); cbn; rewrite ?List.filter_app, ?length_app; cbn; repeat split; lia.
Qed.

Lemma leave_refrigerates (window : WindowThread) (e : WindowEmperor) :
  warm_cycle_leave true false PumpReturned window e =
    (with_oldWindows (λ fridge, fridge ++ [window])
       (_decrementWindowCount (_removeWindow (PeasantID window) e)), LoopAgain).
Proof. reflexivity. Qed.

Lemma leave_tears_down (window : WindowThread) (e : WindowEmperor) :
  warm_cycle_leave true true PumpReturned window e =
    (_decrementWindowCount (_removeWindow (PeasantID window) e), LoopBreak).
Proof. reflexivity. Qed.

Lemma leave_unwinds (IsWindows11 : bool) (window : WindowThread) (e : WindowEmperor) :
  warm_cycle_leave true IsWindows11 PumpThrew window e =
    (_removeWindow (PeasantID window) (_decrementWindowCount e), LoopUnwind).
Proof. reflexivity. Qed.

(** C3, as stated, fails: with two windows open, closing one under the
    refrigeration policy parks it in the idle pool and takes the counter
    from 2 to 1. *)
Lemma refrigeration_changes_counter :
  _windowThreadInstances two_windows_open = 2 ∧
  snd (warm_cycle_leave true false PumpReturned window_1 two_windows_open) = LoopAgain ∧
  _oldWindows (fst (warm_cycle_leave true false PumpReturned window_1 two_windows_open))
    = [window_1] ∧
  _windowThreadInstances (fst (warm_cycle_leave true false PumpReturned window_1 two_windows_open))
    = 1 ∧
  _windowThreadInstances (fst (warm_cycle_leave true false PumpReturned window_1 two_windows_open))
    ≠ _windowThreadInstances two_windows_open.
Proof. vm_compute. repeat split; discriminate. Qed.

(** C3, amended: every pass through the warm loop decrements the counter
    exactly once when the pump is left, on the refrigeration branch (which
    then parks the window and loops again) as on the teardown branch (which
    breaks out of the loop), and also when the pump throws. *)
Theorem warm_cycle_decrements_once
    (IsWindows11 : bool) (pump : PumpExit) (window : WindowThread) (e : WindowEmperor) :
  let r := warm_cycle_leave true IsWindows11 pump window e in
  _windowThreadInstances (fst r) = to_uint32 (_windowThreadInstances e - 1) ∧
  match pump, IsWindows11 with
  | PumpReturned, false =>
      snd r = LoopAgain ∧ _oldWindows (fst r) = _oldWindows e ++ [window]
  | PumpReturned, true =>
      snd r = LoopBreak ∧ _oldWindows (fst r) = _oldWindows e
  | PumpThrew, _ =>
      snd r = LoopUnwind ∧ _oldWindows (fst r) = _oldWindows e
  end.
Proof.
  destruct pump, IsWindows11; cbv zeta;
    rewrite ?leave_refrigerates, ?leave_tears_down, ?leave_unwinds; cbn [fst snd];
    pose proof (decrement_counter (_removeWindow (PeasantID window) e)) as D;
    pose proof (decrement_counter e) as D';
    pose proof (decrement_keeps_lists (_removeWindow (PeasantID window) e)) as (_ & K & _);
    pose proof (decrement_keeps_lists e) as (_ & K' & _);
    cbn [with_oldWindows _removeWindow with_windows _windowThreadInstances _oldWindows] in *;
    rewrite ?D, ?D', ?K, ?K'; repeat split; reflexivity.
Qed.
End WarmLoop.

(** ** The idle pool *)

Section Pool.
Import Emperor.

Lemma threads_started_call (c : OsCall) (e : WindowEmperor) :
  threads_started (call c e) =
    (threads_started e + if is_StartThread c then 1 else 0)%nat.
Proof.
  unfold threads_started, call. cbn [os]. rewrite List.filter_app, length_app.
  destruct c; reflexivity.
Qed.

Lemma request_reheats (args : CommandlineArgs) (id : Z) (quake : bool)
    (fridge : list WindowThread) (back : WindowThread) (e : WindowEmperor) :
  _oldWindows e = fridge ++ [back] →
  request_and_publish true args id quake e =
    (with_windows (λ ws, ws ++ [Microwave args id quake back])
       (with_oldWindows (λ _, fridge) e),
     Reheated (Microwave args id quake back)).
Proof.
  intros E. unfold request_and_publish, _createNewWindowThread. rewrite E, last_snoc.
  unfold warm_cycle_enter, with_oldWindows, with_windows. cbn.
  rewrite E, length_app. cbn [length].
  replace (length fridge + 1 - 1)%nat with (length fridge) by lia.
  rewrite take_app_length. reflexivity.
Qed.

Lemma request_spawns (args : CommandlineArgs) (id : Z) (quake : bool) (e : WindowEmperor) :
  _oldWindows e = [] →
  ∃ window,
    thread_no window = threads_started e ∧
    request_and_publish true args id quake e =
      (with_windows (λ ws, ws ++ [window]) (call (StartThread (threads_started e)) e),
       Spawned window).
Proof.
  intros E. unfold request_and_publish, _createNewWindowThread. rewrite E. cbn [last].
  eexists. split; [|reflexivity]. reflexivity.
Qed.

Lemma request_call (args : CommandlineArgs) (id : Z) (quake : bool) (e : WindowEmperor) :
  ∃ e' o,
    _createNewWindowThread args id quake e = (e', o) ∧
    _windows e' = _windows e ∧
    request (outcome_window o) = args ∧ PeasantID (outcome_window o) = id ∧
    IsQuakeWindow (outcome_window o) = quake ∧
    threads_started e' =
      (threads_started e + if decide (_oldWindows e = []) then 1 else 0)%nat ∧
    (∀ fridge back, _oldWindows e = fridge ++ [back] →
                    o = Reheated (Microwave args id quake back) ∧ _oldWindows e' = fridge) ∧
    (_oldWindows e = [] →
     o = Spawned {| thread_no := threads_started e; PeasantID := id; request := args;
                    IsQuakeWindow := quake |} ∧
     os e' = os e ++ [StartThread (threads_started e)] ∧ _oldWindows e' = []).
Proof.
  unfold _createNewWindowThread.
  destruct (_oldWindows e) as [|back fridge _] eqn:Hold using rev_ind.
  - cbn [last]. eexists _, _. split; [reflexivity|]. cbn [outcome_window].
    split; [reflexivity|]. split; [reflexivity|]. split; [reflexivity|].
    split; [reflexivity|]. split; [rewrite threads_started_call; reflexivity|]. split.
    + intros fr bk E. destruct fr; discriminate.
    + intros _. split; [reflexivity|]. split; [reflexivity|].
      cbn [call _oldWindows]. exact Hold.
  - rewrite last_snoc. eexists _, _. split; [reflexivity|]. cbn [outcome_window].
    split; [reflexivity|]. split; [reflexivity|]. split; [reflexivity|].
    split; [reflexivity|]. split; [|split].
    + destruct (decide (fridge ++ [back] = [])) as [E|_];
        [destruct fridge; discriminate|].
      rewrite Nat.add_0_r. reflexivity.
    + intros fr bk E. apply app_inj_tail in E as [<- <-]. split; [reflexivity|].
      cbn [with_oldWindows _oldWindows]. rewrite Hold, length_app. cbn [length].
      replace (length fridge + 1 - 1)%nat with (length fridge) by lia.
      apply take_app_length.
    + intros E. destruct fridge; discriminate.
Qed.

Lemma request_and_publish_call (self : bool) (args : CommandlineArgs) (id : Z) (quake : bool)
    (e : WindowEmperor) :
  snd (request_and_publish self args id quake e) = snd (_createNewWindowThread args id quake e) ∧
  _oldWindows (fst (request_and_publish self args id quake e)) =
    _oldWindows (fst (_createNewWindowThread args id quake e)) ∧
  threads_started (fst (request_and_publish self args id quake e)) =
    threads_started (fst (_createNewWindowThread args id quake e)).
Proof.
  unfold request_and_publish.
  destruct (_createNewWindowThread args id quake e) as [e' o]. cbn [fst snd].
  destruct self; repeat split.
Qed.

Lemma close_window_parks (window : WindowThread) (e : WindowEmperor) :
  _oldWindows (close_window false window e) = _oldWindows e ++ [window] ∧
  threads_started (close_window false window e) = threads_started e.
Proof.
  unfold close_window. rewrite leave_refrigerates. cbn [fst].
  destruct (decrement_keeps_lists (_removeWindow (PeasantID window) e)) as (_ & K & T).
  split.
  - cbn [with_oldWindows _oldWindows]. rewrite K. reflexivity.
  - unfold threads_started in *. cbn [with_oldWindows os]. rewrite T. reflexivity.
Qed.

Lemma close_windows_park (ws : list WindowThread) :
  ∀ e, _oldWindows (close_windows false ws e) = _oldWindows e ++ ws ∧
       threads_started (close_windows false ws e) = threads_started e.
Proof.
  induction ws as [|w ws IH]; intros e; cbn [close_windows fold_left].
  - rewrite app_nil_r. split; reflexivity.
  - destruct (IH (close_window false w e)) as [F T].
    destruct (close_window_parks w e) as [F' T'].
    unfold close_windows in F, T. rewrite F, T, F', T', <- app_assoc. split; reflexivity.
Qed.

Lemma request_windows_reheat (reqs : list (CommandlineArgs * Z * bool)) :
  ∀ (parked : list WindowThread) (base : list WindowThread) (e : WindowEmperor),
    length reqs = length parked →
    _oldWindows e = base ++ parked →
    _oldWindows (fst (request_windows reqs e)) = base ∧
    threads_started (fst (request_windows reqs e)) = threads_started e ∧
    map outcome_thread (snd (request_windows reqs e)) = rev (map thread_no parked) ∧
    forallb is_reheat (snd (request_windows reqs e)) = true.
Proof.
  induction reqs as [|[[args id] quake] reqs IH]; intros parked base e Hlen Hold.
  - destruct parked; [|discriminate]. rewrite app_nil_r in Hold.
    cbn. repeat split; assumption.
  - destruct parked as [|back parked _] using rev_ind; [discriminate|].
    rewrite length_app in Hlen. cbn in Hlen.
    rewrite app_assoc in Hold.
    cbn [request_windows]. rewrite (request_reheats args id quake _ back e Hold).
    set (e1 := with_windows _ _).
    destruct (IH parked base e1) as (F & T & O & R); [lia|reflexivity|].
    destruct (request_windows reqs e1) as [e2 outs]. cbn [fst snd] in *.
    repeat split.
    + exact F.
    + rewrite T. reflexivity.
    + cbn [map outcome_thread Microwave thread_no].
      rewrite O, map_app, rev_app_distr. reflexivity.
    + cbn. exact R.
Qed.

(** C7: a request pops the most recently parked record and starts no
    thread when the idle pool is not empty, and starts exactly one thread
    when it is; so after closing W windows, W requests reuse the W parked
    records, last parked first, and one more request starts one thread.
    The runs follow each request through to the publication of its window;
    outcome, idle pool and threads are those of the call itself. *)
Theorem pool_reuse (e : WindowEmperor) (closed : list WindowThread)
    (reqs : list (CommandlineArgs * Z * bool)) (args : CommandlineArgs) (id : Z)
    (quake : bool) :
  _oldWindows e = [] →
  length reqs = length closed →
  let e1 := close_windows false closed e in
  let served := request_windows reqs e1 in
  let extra := request_and_publish true args id quake (fst served) in
  _oldWindows e1 = closed ∧
  forallb is_reheat (snd served) = true ∧
  map outcome_thread (snd served) = rev (map thread_no closed) ∧
  threads_started (fst served) = threads_started e ∧
  _oldWindows (fst served) = [] ∧
  is_reheat (snd extra) = false ∧
  threads_started (fst extra) = S (threads_started e) ∧
  (∀ fridge back e0, _oldWindows e0 = fridge ++ [back] →
     snd (request_and_publish true args id quake e0) = Reheated (Microwave args id quake back) ∧
     _oldWindows (fst (request_and_publish true args id quake e0)) = fridge ∧
     threads_started (fst (request_and_publish true args id quake e0)) = threads_started e0) ∧
  (∀ e0,
     snd (request_and_publish true args id quake e0) =
       snd (_createNewWindowThread args id quake e0) ∧
     _oldWindows (fst (request_and_publish true args id quake e0)) =
       _oldWindows (fst (_createNewWindowThread args id quake e0)) ∧
     threads_started (fst (request_and_publish true args id quake e0)) =
       threads_started (fst (_createNewWindowThread args id quake e0))).
Proof.
  intros Hempty Hlen e1 served extra.
  assert (Hcall := request_and_publish_call true args id quake).
  revert Hcall. cut (
  _oldWindows e1 = closed ∧
  forallb is_reheat (snd served) = true ∧
  map outcome_thread (snd served) = rev (map thread_no closed) ∧
  threads_started (fst served) = threads_started e ∧
  _oldWindows (fst served) = [] ∧
  is_reheat (snd extra) = false ∧
  threads_started (fst extra) = S (threads_started e) ∧
  (∀ fridge back e0, _oldWindows e0 = fridge ++ [back] →
     snd (request_and_publish true args id quake e0) = Reheated (Microwave args id quake back) ∧
     _oldWindows (fst (request_and_publish true args id quake e0)) = fridge ∧
     threads_started (fst (request_and_publish true args id quake e0)) = threads_started e0));
    [intros (H1 & H2 & H3 & H4 & H5 & H6 & H7 & H8) Hcall; repeat (split; [assumption|]);
     exact Hcall|].
  destruct (close_windows_park closed e) as [F T]. fold e1 in F, T.
  rewrite Hempty in F. cbn [app] in F.
  destruct (request_windows_reheat reqs closed [] e1 Hlen F) as (F2 & T2 & O2 & R2).
  fold served in F2, T2, O2, R2.
  destruct (request_spawns args id quake (fst served) F2) as (w & Hw & E).
  fold extra in E.
  repeat split; try assumption.
  - rewrite T2, T. reflexivity.
  - rewrite E. reflexivity.
  - rewrite E. cbn [fst]. unfold threads_started in *. cbn [with_windows os call].
    rewrite List.filter_app, length_app. cbn. rewrite T2, T. lia.
  - rewrite (request_reheats args id quake fridge back e0 H). reflexivity.
  - rewrite (request_reheats args id quake fridge back e0 H). reflexivity.
  - rewrite (request_reheats args id quake fridge back e0 H). reflexivity.
Qed.
End Pool.

(** ** The notification icon *)

Section Icon.
Import Emperor.

Lemma fold_left_orb {A : Type} (f : A → bool) (l : list A) (b : bool) :
  fold_left (λ acc x, acc || f x) l b = b || existsb f l.
Proof.
  revert b. induction l as [|x l IH]; intros b; cbn [fold_left existsb].
  - rewrite orb_false_r. reflexivity.
  - rewrite IH, orb_assoc. reflexivity.
Qed.

Lemma icon_variants_agree (e : WindowEmperor) :
  _checkWindowsForNotificationIcon' e = _checkWindowsForNotificationIcon e.
Proof.
  unfold _checkWindowsForNotificationIcon', _checkWindowsForNotificationIcon.
  rewrite !fold_left_orb. destruct (RequestsTrayIcon (_app e)); reflexivity.
Qed.

Lemma icon_check_eq (e : WindowEmperor) :
  _checkWindowsForNotificationIcon e =
    let needsIcon := RequestsTrayIcon (_app e) || existsb IsQuakeWindow (_windows e) in
    if Bool.eqb (_notificationIconShown e) needsIcon then e
    else with_notificationIconShown needsIcon
           (if needsIcon
            then call (Shell_NotifyIconW NIM_SETVERSION) (call (Shell_NotifyIconW NIM_ADD) e)
            else call (Shell_NotifyIconW NIM_DELETE) e).
Proof. unfold _checkWindowsForNotificationIcon. rewrite fold_left_orb. reflexivity. Qed.

(** C6: a recompute decides [RequestsTrayIcon OR some window is a quake
    window], calls the shell only when that differs from the remembered
    state, and a second recompute on the same inputs calls nothing. *)
Theorem icon_recompute_idempotent (e : WindowEmperor) :
  let needsIcon := RequestsTrayIcon (_app e) || existsb IsQuakeWindow (_windows e) in
  let e' := _checkWindowsForNotificationIcon e in
  _notificationIconShown e' = needsIcon ∧
  _app e' = _app e ∧ _windows e' = _windows e ∧
  os e' = os e ++
          (if Bool.eqb (_notificationIconShown e) needsIcon then []
           else if needsIcon
                then [Shell_NotifyIconW NIM_ADD; Shell_NotifyIconW NIM_SETVERSION]
                else [Shell_NotifyIconW NIM_DELETE]) ∧
  _checkWindowsForNotificationIcon e' = e'.
Proof.
  cbv zeta. set (needsIcon := RequestsTrayIcon (_app e) || existsb IsQuakeWindow (_windows e)).
  pose proof (icon_check_eq e) as E. cbv zeta in E. fold needsIcon in E.
  destruct (Bool.eqb (_notificationIconShown e) needsIcon) eqn:S.
  - rewrite !E, app_nil_r. apply Bool.eqb_prop in S. repeat split; assumption.
  - rewrite !E.
    assert (R : ∀ x, _app x = _app e → _windows x = _windows e →
                     _notificationIconShown x = needsIcon →
                     _checkWindowsForNotificationIcon x = x).
    { intros x Ha Hw Hs. rewrite icon_check_eq. cbv zeta. rewrite Ha, Hw, Hs.
      fold needsIcon. rewrite Bool.eqb_reflx. reflexivity. }
    destruct needsIcon; cbn; rewrite <- ?app_assoc; repeat split; apply R; reflexivity.
Qed.
End Icon.

(** ** Global hotkeys *)

Section Hotkeys.
Import Emperor.

Lemma narrow_cast_int_small (n : nat) :
  Z.of_nat n < 2 ^ 31 → narrow_cast_int (Z.of_nat n) = Z.of_nat n.
Proof.
  intros H. unfold narrow_cast_int, UINT32_MOD.
  change (2 ^ 31) with 2147483648 in *. change (2 ^ 32) with 4294967296.
  rewrite Z.mod_small by lia.
  destruct (Z.ltb_spec (Z.of_nat n) 2147483648); [reflexivity|lia].
Qed.

Lemma unregister_loop (count : nat) :
  ∀ (first : nat) (e : WindowEmperor),
    fold_left (λ e i, _unregisterHotKey (Z.of_nat i) e) (seq first count) e =
      fold_left (λ e c, call c e)
        (map (λ i : nat, CallUnregisterHotKey (Z.of_nat i)) (seq first count)) e.
Proof.
  induction count as [|count IH]; intros first e; [reflexivity|].
  cbn [seq map fold_left]. rewrite IH. reflexivity.
Qed.

Lemma calls_append (cs : list OsCall) :
  ∀ e, os (fold_left (λ e c, call c e) cs e) = os e ++ cs ∧
       _hotkeys (fold_left (λ e c, call c e) cs e) = _hotkeys e ∧
       _app (fold_left (λ e c, call c e) cs e) = _app e ∧
       _window (fold_left (λ e c, call c e) cs e) = _window e.
Proof.
  induction cs as [|c cs IH]; intros e; cbn [fold_left].
  - rewrite app_nil_r. repeat split.
  - destruct (IH (call c e)) as (O & H & A & W). rewrite O, H, A, W.
    cbn [call os _hotkeys _app _window]. rewrite <- app_assoc. repeat split.
Qed.

Lemma summon_entries_cons (keyChord : KeyChord) (cmd : Command)
    (entries : list (KeyChord * Command)) :
  summon_entries ((keyChord, cmd) :: entries) =
    match try_as_GlobalSummonArgs cmd with
    | Some summonArgs => (keyChord, summonArgs) :: summon_entries entries
    | None => summon_entries entries
    end.
Proof. unfold summon_entries. cbn. destruct (try_as_GlobalSummonArgs cmd); reflexivity. Qed.

Lemma register_loop (entries : list (KeyChord * Command)) :
  ∀ e : WindowEmperor,
    Z.of_nat (length (_hotkeys e) + length (summon_entries entries)) < 2 ^ 31 →
    os (fold_left register_entry entries e) =
      os e ++ register_calls (length (_hotkeys e)) (summon_entries entries) ∧
    _hotkeys (fold_left register_entry entries e) =
      _hotkeys e ++ map snd (summon_entries entries).
Proof.
  induction entries as [|[keyChord cmd] entries IH]; intros e.
  - intros _. cbn. rewrite !app_nil_r. split; reflexivity.
  - cbn [fold_left]. rewrite summon_entries_cons.
    unfold register_entry at 2 4.
    destruct (try_as_GlobalSummonArgs cmd) as [summonArgs|] eqn:T; intros Hsmall.
    + cbn [length] in Hsmall.
      rewrite narrow_cast_int_small by lia.
      set (e1 := with_hotkeys _ _).
      assert (H1 : _hotkeys e1 = _hotkeys e ++ [summonArgs]) by reflexivity.
      assert (O1 : os e1 = os e ++ [CallRegisterHotKey (Z.of_nat (length (_hotkeys e)))
                                      (hotkey_flags keyChord) (Vkey keyChord)])
        by reflexivity.
      destruct (IH e1) as [O H].
      { rewrite H1, length_app. cbn [length]. lia. }
      rewrite O, H, H1, O1, length_app, <- !app_assoc. cbn [length].
      split; [|reflexivity].
      f_equal. unfold register_calls. cbn [imap app fst]. f_equal.
      * do 2 f_equal. lia.
      * apply imap_ext. intros i x _. cbn. do 2 f_equal. lia.
    + apply IH. exact Hsmall.
Qed.

Lemma held_after_unregister (count : nat) :
  ∀ (first : nat) (held : list (Z * (Z * Z))),
    Forall (λ h, Z.of_nat first <= fst h < Z.of_nat (first + count)) held →
    fold_left hold (unregister_calls_from first count) held = [].
Proof.
  induction count as [|count IH]; intros first held Hids.
  - destruct held as [|h held]; [reflexivity|].
    apply Forall_cons_1 in Hids as [Hh _]. lia.
  - unfold unregister_calls_from in *. cbn [seq map fold_left hold].
    apply IH. rewrite Forall_forall in *. intros h Hin.
    apply list_elem_of_In, List.filter_In in Hin as [Hin Hne].
    apply list_elem_of_In, Hids in Hin.
    destruct (Z.eqb_spec (fst h) (Z.of_nat first)); [discriminate|lia].
Qed.

Lemma held_after_register (bindings : list (KeyChord * GlobalSummonArgs)) :
  ∀ (first : nat) (held : list (Z * (Z * Z))),
    fold_left hold (register_calls first bindings) held =
      held ++ imap (λ i binding, (Z.of_nat (first + i),
                                  (hotkey_flags (fst binding), Vkey (fst binding)))) bindings.
Proof.
  induction bindings as [|b bindings IH]; intros first held.
  - cbn. rewrite app_nil_r. reflexivity.
  - unfold register_calls in *. cbn [imap fold_left hold].
    rewrite (imap_ext _ (λ i binding, CallRegisterHotKey (Z.of_nat (S first + i))
                                        (hotkey_flags (fst binding)) (Vkey (fst binding))))
      by (intros i x _; cbn; do 2 f_equal; lia).
    rewrite IH, <- app_assoc. cbn [app]. do 2 f_equal.
    apply imap_ext. intros i x _. cbn. do 2 f_equal. lia.
Qed.

(** C5: a resync unregisters the indices 0 .. N-1 of the previous table,
    clears the table, and registers the new bindings in order under the
    indices 0, 1, ...; from [{A}] to [{B, C}] that is one unregister (index
    0) and two registers (indices 0 and 1), after which exactly B and C
    are held, under the indices 0 and 1. *)
Theorem hotkey_resync (e : WindowEmperor) :
  _window e = true →
  Z.of_nat (length (_hotkeys e)) < 2 ^ 31 →
  Z.of_nat (length (summon_entries (GlobalHotkeys (_app e)))) < 2 ^ 31 →
  Forall (λ h, 0 <= fst h < Z.of_nat (length (_hotkeys e))) (held_hotkeys (os e)) →
  let e' := _setupGlobalHotkeys e in
  let bindings := summon_entries (GlobalHotkeys (_app e)) in
  os e' = os e ++ unregister_calls (length (_hotkeys e)) ++ register_calls 0 bindings ∧
  _hotkeys e' = map snd bindings ∧
  held_hotkeys (os e') =
    imap (λ i binding, (Z.of_nat i, (hotkey_flags (fst binding), Vkey (fst binding)))) bindings ∧
  _hotkeys registered_A = [summon_named [65]] ∧
  os (_setupGlobalHotkeys registered_A) =
    os registered_A ++ [CallUnregisterHotKey 0;
                        CallRegisterHotKey 0 (hotkey_flags (fst binding_B)) (Vkey (fst binding_B));
                        CallRegisterHotKey 1 (hotkey_flags (fst binding_C)) (Vkey (fst binding_C))] ∧
  _hotkeys (_setupGlobalHotkeys registered_A) = [summon_named [66]; summon_named [67]] ∧
  held_hotkeys (os (_setupGlobalHotkeys registered_A)) =
    [(0, (hotkey_flags (fst binding_B), Vkey (fst binding_B)));
     (1, (hotkey_flags (fst binding_C), Vkey (fst binding_C)))].
Proof.
  intros Hwindow Hold Hnew Hheld e' bindings.
  assert (Hos : os e' = os e ++ unregister_calls (length (_hotkeys e))
                        ++ register_calls 0 bindings ∧ _hotkeys e' = map snd bindings).
  { subst e' bindings. unfold _setupGlobalHotkeys. rewrite Hwindow. cbn [negb].
    rewrite narrow_cast_int_small, Nat2Z.id by assumption.
    rewrite unregister_loop.
    destruct (calls_append (map (λ i : nat, CallUnregisterHotKey (Z.of_nat i))
                                (seq 0 (length (_hotkeys e)))) e) as (O & _ & A & _).
    set (e1 := fold_left _ _ e) in *.
    set (e2 := with_hotkeys (λ _, []) e1).
    assert (A2 : _app e2 = _app e) by exact A.
    assert (O2 : os e2 = os e ++ unregister_calls (length (_hotkeys e))) by exact O.
    rewrite A2. destruct (register_loop (GlobalHotkeys (_app e)) e2) as [O3 H3].
    { cbn [e2 with_hotkeys _hotkeys length]. lia. }
    rewrite O3, H3, O2, <- app_assoc. split; reflexivity. }
  destruct Hos as [Hos Hkeys].
  split; [exact Hos|]. split; [exact Hkeys|]. split.
  - rewrite Hos. unfold held_hotkeys in *. rewrite !fold_left_app.
    unfold unregister_calls. rewrite held_after_unregister by exact Hheld.
    rewrite held_after_register. reflexivity.
  - vm_compute. repeat split; reflexivity.
Qed.

(** The handler's guard lets through every index from 0 up to and
    including the size of the table, and nothing else. *)
Lemma hotkeyPressed_guard (hotkeyIndex : Z) (e : WindowEmperor) :
  Z.of_nat (length (_hotkeys e)) < SIZE_T_MOD →
  hotkeyIndex < SIZE_T_MOD →
  fst (_hotkeyPressed hotkeyIndex e) =
    if decide (0 <= hotkeyIndex <= Z.of_nat (length (_hotkeys e)))
    then [hotkeyIndex] else [].
Proof.
  intros Hsize Hidx. unfold _hotkeyPressed.
  destruct (Z.ltb_spec hotkeyIndex 0); cbn [orb].
  - destruct (decide _); [lia|reflexivity].
  - rewrite to_size_t_small by lia.
    destruct (Z.ltb_spec (Z.of_nat (length (_hotkeys e))) hotkeyIndex);
      destruct (decide _); try lia; reflexivity.
Qed.

Lemma hotkeyPressed_in_range (hotkeyIndex : Z) (e : WindowEmperor) :
  0 <= hotkeyIndex < Z.of_nat (length (_hotkeys e)) →
  Z.of_nat (length (_hotkeys e)) < SIZE_T_MOD →
  _hotkeyPressed hotkeyIndex e = ([hotkeyIndex], Ret e).
Proof.
  intros Hi Hsize. unfold _hotkeyPressed, til_at.
  destruct (Z.ltb_spec hotkeyIndex 0); [lia|]. cbn [orb].
  rewrite to_size_t_small by lia.
  destruct (Z.ltb_spec (Z.of_nat (length (_hotkeys e))) hotkeyIndex); [lia|].
  destruct (decide (0 <= hotkeyIndex)); [|lia].
  destruct (lookup_lt_is_Some_2 (_hotkeys e) (Z.to_nat hotkeyIndex)) as [x Hx]; [lia|].
  rewrite Hx. reflexivity.
Qed.

Lemma hotkeyPressed_at_size (e : WindowEmperor) :
  Z.of_nat (length (_hotkeys e)) < SIZE_T_MOD →
  _hotkeyPressed (Z.of_nat (length (_hotkeys e))) e = ([Z.of_nat (length (_hotkeys e))], Fault).
Proof.
  intros Hsize. unfold _hotkeyPressed, til_at.
  destruct (Z.ltb_spec (Z.of_nat (length (_hotkeys e))) 0); [lia|]. cbn [orb].
  rewrite to_size_t_small by lia. rewrite Z.ltb_irrefl.
  destruct (decide _); [|lia].
  rewrite Nat2Z.id, lookup_ge_None_2 by lia. reflexivity.
Qed.

(** C10 fails on the code: an index equal to the size of the table passes
    the guard and is handed to [til::at], one past the last element.  With
    one hotkey registered, index 1 does it. *)
Lemma hotkeyPressed_reads_one_past_the_end :
  length (_hotkeys registered_A) = 1%nat ∧
  _hotkeyPressed 1 registered_A = ([1], Fault).
Proof. vm_compute. split; reflexivity. Qed.

End Hotkeys.

(** ** The session-buffer sweep *)

Section SweepProofs.
Import Persistence.
Variable GuidFromString : list Z → outcome guid.
Variable sessionIds : gset Z.


Lemma elem_of_doomed (listing : list (list Z)) (name : list Z) :
  name ∈ doomed GuidFromString sessionIds listing ↔
  name ∈ listing ∧ length name = 47%nat ∧
  ∃ id, GuidFromString (guidStr_of name) = Ret id ∧ id ∉ sessionIds.
Proof.
  unfold doomed. rewrite list_elem_of_In, List.filter_In, <- list_elem_of_In.
  rewrite andb_true_iff, bool_decide_eq_true.
  split.
  - intros (Hin & Hlen & Hid). repeat split; try assumption.
    destruct (GuidFromString (guidStr_of name)) as [id| |]; try discriminate.
    exists id. split; [reflexivity|].
    apply negb_true_iff, bool_decide_eq_false in Hid. exact Hid.
  - intros (Hin & Hlen & id & Hid & Hnot). repeat split; try assumption.
    rewrite Hid. apply negb_true_iff, bool_decide_eq_false. exact Hnot.
Qed.


Lemma sweep_leaves (listing : list (list Z)) :
  ∀ dir : gset (list Z),
    snd (sweep GuidFromString sessionIds listing dir) =
      dir ∖ list_to_set (doomed GuidFromString sessionIds (reached GuidFromString listing)).
Proof.
  induction listing as [|name rest IH]; intros dir.
  - cbn. rewrite difference_empty_L. reflexivity.
  - cbn [sweep reached]. destruct (decide (length name ≠ 47%nat)) as [Hne|Heq].
    + cbn [doomed List.filter]. rewrite bool_decide_eq_false_2 by exact Hne. cbn [andb].
      apply IH.
    + assert (Hlen : length name = 47%nat) by lia.
      destruct (GuidFromString (guidStr_of name)) as [id| |] eqn:Hid.
      * cbn [doomed List.filter]. rewrite (bool_decide_eq_true_2 _ Hlen), Hid. cbn [andb].
        destruct (decide (id ∈ sessionIds)) as [Hin|Hout].
        -- rewrite (bool_decide_eq_true_2 _ Hin). cbn [negb]. apply IH.
        -- rewrite (bool_decide_eq_false_2 _ Hout). cbn [negb].
           rewrite IH. fold (doomed GuidFromString sessionIds (reached GuidFromString rest)).
           rewrite list_to_set_cons, difference_difference_l_L. reflexivity.
      * cbn. rewrite difference_empty_L. reflexivity.
      * cbn. rewrite difference_empty_L. reflexivity.
Qed.

Lemma sweep_through (listing : list (list Z)) :
  ∀ dir : gset (list Z),
    (∀ name, name ∈ listing → length name = 47%nat →
             ∃ id, GuidFromString (guidStr_of name) = Ret id) →
    fst (sweep GuidFromString sessionIds listing dir) = Ret tt ∧
    reached GuidFromString listing = listing.
Proof.
  induction listing as [|name rest IH]; intros dir Hparse; [split; reflexivity|].
  assert (Hrest : ∀ n, n ∈ rest → length n = 47%nat →
                       ∃ id, GuidFromString (guidStr_of n) = Ret id)
    by (intros n Hn; apply Hparse; right; exact Hn).
  cbn [sweep reached]. destruct (decide (length name ≠ 47%nat)) as [Hne|Heq].
  - destruct (IH dir Hrest) as [-> ->]. split; reflexivity.
  - destruct (Hparse name) as [id Hid]; [left|lia|]. rewrite Hid.
    destruct (decide (id ∈ sessionIds)).
    + destruct (IH dir Hrest) as [-> ->]. split; reflexivity.
    + destruct (IH (dir ∖ {[name]}) Hrest) as [-> ->]. split; reflexivity.
Qed.


Lemma sweep_eq (listing : list (list Z)) (dir : gset (list Z)) :
  (∀ name, name ∈ listing → length name = 47%nat →
           ∃ id, GuidFromString (guidStr_of name) = Ret id) →
  sweep GuidFromString sessionIds listing dir =
    (Ret tt, dir ∖ list_to_set (doomed GuidFromString sessionIds listing)).
Proof.
  intros Hparse. destruct (sweep_through listing dir Hparse) as [Hfst Hall].
  pose proof (sweep_leaves listing dir) as Hsnd. rewrite Hall in Hsnd.
  destruct (sweep GuidFromString sessionIds listing dir) as [ended dir'].
  cbn [fst snd] in *. congruence.
Qed.
End SweepProofs.

Section SweepTheorem.
Import Persistence.


End SweepTheorem.

(** ** The theorems at work on concrete inputs *)

Section Witnesses.
Import Codec Emperor Persistence.

Lemma scenario_payload_valid : valid_payload scenario_payload.
Proof.
  unfold valid_payload, wf_wstring, wf_wchar, UINT32_MOD. cbn.
  repeat split; try lia; repeat (apply Forall_cons_2; [lia|]); apply Forall_nil_2.
Defined.

Lemma handoff_roundtrip_scenario :
  valid_payload scenario_payload ∧
  ∃ bytes log,
    encodeHandoff scenario_payload = Ret bytes ∧ decodeHandoff bytes = (Ret scenario_payload, log).
Proof.
  split; [exact scenario_payload_valid|].
  apply (handoff_roundtrip scenario_payload). exact scenario_payload_valid.
Defined.

Lemma truncated_payload_scenario :
  (20 < length (payload_bytes scenario_payload))%nat ∧
  ∃ what log,
    deserializeHandoffPayload 0 20 (take 20 (payload_bytes scenario_payload)) [] =
      (Throw (out_of_range what), log) ∧
    reads_within 20 log.
Proof.
  assert (H : (20 < length (payload_bytes scenario_payload))%nat) by (vm_compute; lia).
  split; [exact H|].
  apply (truncated_payload_rejected scenario_payload (payload_bytes scenario_payload) 20).
  - exact scenario_payload_valid.
  - vm_compute. reflexivity.
  - exact H.
Defined.

Lemma hotkey_resync_from_A :
  _window registered_A = true ∧
  os (_setupGlobalHotkeys registered_A) =
    os registered_A ++ unregister_calls 1 ++
    register_calls 0 (summon_entries [binding_B; binding_C]) ∧
  _hotkeys (_setupGlobalHotkeys registered_A) = [summon_named [66]; summon_named [67]].
Proof.
  split; [reflexivity|].
  destruct (hotkey_resync registered_A) as (O & H & _).
  - reflexivity.
  - vm_compute. reflexivity.
  - vm_compute. reflexivity.
  - vm_compute. apply Forall_cons_2; [split; [discriminate|reflexivity]|apply Forall_nil_2].
  - split; [exact O|exact H].
Defined.

Lemma pool_reuse_two_windows :
  _oldWindows two_windows_open = [] ∧
  forallb is_reheat
    (snd (request_windows [(blank_request, 3, false); (blank_request, 4, false)]
            (close_windows false [window_1; window_2] two_windows_open))) = true ∧
  map outcome_thread
    (snd (request_windows [(blank_request, 3, false); (blank_request, 4, false)]
            (close_windows false [window_1; window_2] two_windows_open))) = [1%nat; 0%nat] ∧
  threads_started
    (fst (request_and_publish true blank_request 5 false
            (fst (request_windows [(blank_request, 3, false); (blank_request, 4, false)]
                    (close_windows false [window_1; window_2] two_windows_open))))) = 3%nat.
Proof.
  split; [reflexivity|].
  destruct (pool_reuse two_windows_open [window_1; window_2]
              [(blank_request, 3, false); (blank_request, 4, false)] blank_request 5 false)
    as (_ & R & O & _ & _ & _ & T & _).
  - reflexivity.
  - reflexivity.
  - split; [exact R|]. split; [exact O|exact T].
Defined.

End Witnesses.

(** ** The decoder on arbitrary buffers *)

Section DecoderOnAnyBuffer.
Import Codec HandoffLayout.

Lemma reads_within_app (n : Z) (l1 l2 : list Z) :
  reads_within n l1 → reads_within n l2 → reads_within n (l1 ++ l2).
Proof. unfold reads_within. intros H1 H2. apply Forall_app. split; assumption. Qed.

Lemma reads_within_mono (n m : Z) (log : list Z) :
  n <= m → reads_within n log → reads_within m log.
Proof.
  unfold reads_within. intros Hnm Hlog. eapply Forall_impl; [exact Hlog|].
  intros a Ha. cbn in Ha. lia.
Qed.

Lemma reads_within_four (n p : Z) :
  0 <= p → p + 4 <= n → reads_within n [p; p + 1; p + 2; p + 3].
Proof.
  intros H0 H4. unfold reads_within.
  repeat (apply Forall_cons_2; [lia|]). apply Forall_nil_2.
Qed.

Lemma reads_within_span (n first : Z) (count : nat) :
  0 <= first → first + Z.of_nat count <= n →
  reads_within n (map (λ i : nat, first + Z.of_nat i) (seq 0 count)).
Proof.
  intros H0 Hn. unfold reads_within. rewrite Forall_forall. intros a Ha.
  apply list_elem_of_In, in_map_iff in Ha as (i & <- & Hi). apply in_seq in Hi. lia.
Qed.

Ltac reads_tac tac :=
  first [ apply Forall_nil_2
        | apply (reads_within_four _ 0); tac
        | apply reads_within_four; tac
        | apply reads_within_app; reads_tac tac ].

Ltac lia_ := repeat match goal with E : _ = uint32_at _ _ |- _ => clear E end; lia.

(** Whether the parse succeeds is decided by the three length prefixes
    alone; on the way every load stays inside the buffer. *)
Lemma deserialize_criterion (mem : list byte) :
  Z.of_nat (length mem) < SIZE_T_MOD →
  ∃ log,
    (consumed mem <= Z.of_nat (length mem) ∧
     reads_within (consumed mem) log ∧
     deserializeHandoffPayload 0 (Z.of_nat (length mem)) mem [] = (Ret (parsed_views mem), log)) ∨
    (Z.of_nat (length mem) < consumed mem ∧
     reads_within (Z.of_nat (length mem)) log ∧
     ∃ what, deserializeHandoffPayload 0 (Z.of_nat (length mem)) mem [] =
               (Throw (out_of_range what), log)).
Proof.
  intros Hsz. unfold consumed, parsed_views, len_cwd, len_env, len_args.
  set (end_ := Z.of_nat (length mem)) in *.
  assert (Hend : end_ = Z.of_nat (length mem)) by reflexivity. clearbody end_.
  pose proof (uint32_at_range mem) as Hr. unfold UINT32_MOD in Hr.
  pose proof (Hr 0) as Hl1. remember (uint32_at mem 0) as l1 eqn:E1.
  pose proof (Hr (4 + 2 * l1)) as Hl2. remember (uint32_at mem (4 + 2 * l1)) as l2 eqn:E2.
  pose proof (Hr (8 + 2 * l1 + 2 * l2)) as Hl3.
  remember (uint32_at mem (8 + 2 * l1 + 2 * l2)) as l3 eqn:E3. clear Hr.
  unfold deserializeHandoffPayload, bind.
  rewrite (deserializeString_eq _ _ Hend Hsz) by lia_.
  change (0 + 4) with 4. rewrite <- E1. cbv zeta.
  destruct (Z.ltb_spec (end_ - 0) 4).
  { eexists. right. split; [lia_|]. split; [|eexists; reflexivity]. reads_tac lia_. }
  destruct (Z.ltb_spec (end_ - 4) (2 * l1)).
  { eexists. right. split; [lia_|]. split; [|eexists; reflexivity]. reads_tac lia_. }
  rewrite (deserializeString_eq _ _ Hend Hsz) by lia_. rewrite <- E2. cbv zeta.
  destruct (Z.ltb_spec (end_ - (4 + 2 * l1)) 4).
  { eexists. right. split; [lia_|]. split; [|eexists; reflexivity]. reads_tac lia_. }
  destruct (Z.ltb_spec (end_ - (4 + 2 * l1 + 4)) (2 * l2)).
  { eexists. right. split; [lia_|]. split; [|eexists; reflexivity]. reads_tac lia_. }
  rewrite (deserializeString_eq _ _ Hend Hsz) by lia_.
  replace (4 + 2 * l1 + 4 + 2 * l2) with (8 + 2 * l1 + 2 * l2) by lia_. rewrite <- E3. cbv zeta.
  destruct (Z.ltb_spec (end_ - (8 + 2 * l1 + 2 * l2)) 4).
  { eexists. right. split; [lia_|]. split; [|eexists; reflexivity]. reads_tac lia_. }
  destruct (Z.ltb_spec (end_ - (8 + 2 * l1 + 2 * l2 + 4)) (2 * l3)).
  { eexists. right. split; [lia_|]. split; [|eexists; reflexivity]. reads_tac lia_. }
  rewrite (deserializeUint32_eq _ _ Hend Hsz) by lia_.
  replace (8 + 2 * l1 + 2 * l2 + 4 + 2 * l3) with (12 + 2 * l1 + 2 * l2 + 2 * l3) by lia_.
  destruct (Z.ltb_spec (end_ - (12 + 2 * l1 + 2 * l2 + 2 * l3)) 4).
  { eexists. right. split; [lia_|]. split; [|eexists; reflexivity]. reads_tac lia_. }
  eexists. left. split; [lia_|]. split.
  2:{ unfold ret. replace (4 + 2 * l1 + 4) with (8 + 2 * l1) by lia_.
      replace (8 + 2 * l1 + 2 * l2 + 4) with (12 + 2 * l1 + 2 * l2) by lia_. reflexivity. }
  reads_tac lia_.
Qed.
End DecoderOnAnyBuffer.

Section DecodedPayloads.
Import Codec HandoffLayout.

Lemma hstring_of_view_in (mem : list byte) (v : wstring_view) (log : list Z) :
  0 <= data v → 0 <= size v →
  data v + 2 * size v <= Z.of_nat (length mem) →
  hstring_of_view v mem log =
    (Ret (view_wchars mem v),
     log ++ map (λ i : nat, data v + Z.of_nat i) (seq 0 (Z.to_nat (sizeof_wchar_t * size v)))).
Proof.
  intros Hd Hs Hin. unfold hstring_of_view, view_wchars, sizeof_wchar_t.
  destruct (decide _) as [_|Hn]; [reflexivity|]. exfalso. apply Hn. lia.
Qed.

(** The whole receive path, [deserializeHandoffPayload] and the three
    copies, on an arbitrary buffer. *)
Lemma decodeHandoff_criterion (mem : list byte) :
  Z.of_nat (length mem) < SIZE_T_MOD →
  ∃ log,
    (consumed mem <= Z.of_nat (length mem) ∧
     reads_within (consumed mem) log ∧
     decodeHandoff mem = (Ret (parsed_payload mem), log)) ∨
    (Z.of_nat (length mem) < consumed mem ∧
     reads_within (Z.of_nat (length mem)) log ∧
     ∃ what, decodeHandoff mem = (Throw (out_of_range what), log)).
Proof.
  intros Hsz.
  destruct (deserialize_criterion mem Hsz) as (log & [(Hc & Hlog & E)|(Hc & Hlog & what & E)]).
  - pose proof (uint32_at_range mem) as Hr. unfold UINT32_MOD in Hr.
    assert (H1 := Hr 0). assert (H2 := Hr (4 + 2 * len_args mem)).
    assert (H3 := Hr (8 + 2 * len_args mem + 2 * len_env mem)).
    fold (len_args mem) in H1. fold (len_env mem) in H2. fold (len_cwd mem) in H3.
    clear Hr. eexists. left. split; [exact Hc|]. split.
    2:{ unfold decodeHandoff, bind. rewrite E. unfold consumed in Hc.
        rewrite !hstring_of_view_in by (cbn [parsed_views args env cwd data size]; lia).
        unfold ret, parsed_payload. reflexivity. }
    unfold sizeof_wchar_t. cbn [parsed_views args env cwd data size].
    repeat apply reads_within_app; try exact Hlog; apply reads_within_span;
      unfold consumed; lia.
  - exists log. right. split; [exact Hc|]. split; [exact Hlog|]. exists what.
    unfold decodeHandoff, bind. rewrite E. reflexivity.
Qed.

Lemma wchars_of_bytes_wf (bs : list byte) : wf_wstring (wchars_of_bytes bs).
Proof.
  unfold wf_wstring.
  assert (H : Forall wf_wchar (wchars_of_bytes bs) ∧
              ∀ b, Forall wf_wchar (wchars_of_bytes (b :: bs))).
  { induction bs as [|b0 bs [IH1 IH2]].
    - split; [apply Forall_nil_2|]. intros b. apply Forall_nil_2.
    - split; [apply IH2|]. intros b. cbn [wchars_of_bytes].
      apply Forall_cons_2; [|exact IH1]. unfold wf_wchar.
      pose proof (Z_of_byte_range b). pose proof (Z_of_byte_range b0).
      change (2 ^ 8) with 256. change (2 ^ 16) with 65536. lia. }
  apply H.
Qed.

Lemma wchars_of_bytes_length (k : nat) :
  ∀ bs : list byte, length bs = (2 * k)%nat → length (wchars_of_bytes bs) = k.
Proof.
  induction k as [|k IH]; intros bs Hlen.
  - destruct bs; [reflexivity|discriminate].
  - destruct bs as [|b0 [|b1 bs]]; cbn in Hlen; try lia.
    cbn [wchars_of_bytes length]. f_equal. apply IH. lia.
Qed.

Lemma byte_of_Z_of_byte (b : byte) : byte_of_Z (Z_of_byte b) = b.
Proof.
  unfold byte_of_Z. pose proof (Z_of_byte_range b) as Hr.
  rewrite Z.mod_small by lia. unfold Z_of_byte. rewrite N2Z.id, Byte.of_to_N. reflexivity.
Qed.

Lemma byte_of_Z_low (lo hi : Z) : 0 <= lo < 256 → byte_of_Z (lo + 256 * hi) = byte_of_Z lo.
Proof.
  intros Hlo. unfold byte_of_Z. f_equal. f_equal. f_equal.
  rewrite (Z.mod_small lo) by lia. Z.div_mod_to_equations. lia.
Qed.

Lemma wstring_bytes_of_wchars (k : nat) :
  ∀ bs : list byte, length bs = (2 * k)%nat → wstring_bytes (wchars_of_bytes bs) = bs.
Proof.
  induction k as [|k IH]; intros bs Hlen.
  - destruct bs; [reflexivity|discriminate].
  - destruct bs as [|b0 [|b1 bs]]; cbn in Hlen; try lia.
    cbn [wchars_of_bytes]. unfold wstring_bytes in *. cbn [map concat wchar_bytes app].
    pose proof (Z_of_byte_range b0) as H0. pose proof (Z_of_byte_range b1) as H1.
    change (2 ^ 8) with 256.
    rewrite byte_of_Z_low, byte_of_Z_of_byte by lia.
    replace ((Z_of_byte b0 + 256 * Z_of_byte b1) / 256) with (Z_of_byte b1)
      by (Z.div_mod_to_equations; lia).
    rewrite byte_of_Z_of_byte. do 2 f_equal. apply IH. lia.
Qed.

Lemma uint32_bytes_of_bytes (b0 b1 b2 b3 : byte) :
  uint32_bytes (uint32_of_bytes b0 b1 b2 b3) = [b0; b1; b2; b3].
Proof.
  unfold uint32_bytes, uint32_of_bytes.
  pose proof (Z_of_byte_range b0). pose proof (Z_of_byte_range b1).
  pose proof (Z_of_byte_range b2). pose proof (Z_of_byte_range b3).
  change (2 ^ 8) with 256. change (2 ^ 16) with 65536. change (2 ^ 24) with 16777216.
  replace (Z_of_byte b0 + 256 * Z_of_byte b1 + 65536 * Z_of_byte b2 + 16777216 * Z_of_byte b3)
    with (Z_of_byte b0 + 256 * (Z_of_byte b1 + 256 * (Z_of_byte b2 + 256 * Z_of_byte b3)))
    by lia.
  set (v := Z_of_byte b0 + 256 * (Z_of_byte b1 + 256 * (Z_of_byte b2 + 256 * Z_of_byte b3))).
  replace (v / 256) with (Z_of_byte b1 + 256 * (Z_of_byte b2 + 256 * Z_of_byte b3))
    by (subst v; Z.div_mod_to_equations; lia).
  replace (v / 65536) with (Z_of_byte b2 + 256 * Z_of_byte b3)
    by (subst v; Z.div_mod_to_equations; lia).
  replace (v / 16777216) with (Z_of_byte b3 + 256 * 0)
    by (subst v; Z.div_mod_to_equations; lia).
  subst v. rewrite !byte_of_Z_low, !byte_of_Z_of_byte by lia. reflexivity.
Qed.

Lemma byte_at_drop (mem : list byte) (p : Z) (i : nat) :
  0 <= p → byte_at mem (p + Z.of_nat i) = default Byte.x00 (drop (Z.to_nat p) mem !! i).
Proof.
  intros Hp. unfold byte_at. rewrite lookup_drop. do 2 f_equal. lia.
Qed.

Lemma uint32_bytes_at (mem : list byte) (p : Z) :
  0 <= p → p + 4 <= Z.of_nat (length mem) →
  uint32_bytes (uint32_at mem p) = take 4 (drop (Z.to_nat p) mem).
Proof.
  intros H0 H4. unfold uint32_at.
  rewrite <- (Z.add_0_r p) at 1.
  change (p + 0) with (p + Z.of_nat 0). change (p + 1) with (p + Z.of_nat 1).
  change (p + 2) with (p + Z.of_nat 2). change (p + 3) with (p + Z.of_nat 3).
  rewrite !byte_at_drop by lia.
  assert (Hlen : (4 <= length (drop (Z.to_nat p) mem))%nat) by (rewrite length_drop; lia).
  destruct (drop (Z.to_nat p) mem) as [|b0 [|b1 [|b2 [|b3 rest]]]]; cbn in Hlen; try lia.
  cbn. apply uint32_bytes_of_bytes.
Qed.

Lemma view_wchars_length (mem : list byte) (v : wstring_view) :
  0 <= data v → 0 <= size v → data v + 2 * size v <= Z.of_nat (length mem) →
  Z.of_nat (length (view_wchars mem v)) = size v.
Proof.
  intros Hd Hs Hin. unfold view_wchars, sizeof_wchar_t.
  rewrite (wchars_of_bytes_length (Z.to_nat (size v))); [lia|].
  rewrite length_take, length_drop. lia.
Qed.

Lemma string_record_of_view (mem : list byte) (p : Z) :
  0 <= p → p + 4 + 2 * uint32_at mem p <= Z.of_nat (length mem) →
  string_record (view_wchars mem {| data := p + 4; size := uint32_at mem p |}) =
    take (Z.to_nat (4 + 2 * uint32_at mem p)) (drop (Z.to_nat p) mem).
Proof.
  intros H0 Hin. pose proof (uint32_at_range mem p) as Hr. unfold UINT32_MOD in Hr.
  unfold string_record.
  rewrite view_wchars_length by (cbn [data size]; lia). cbn [size].
  rewrite uint32_bytes_at by lia.
  unfold view_wchars, sizeof_wchar_t. cbn [data size].
  rewrite (wstring_bytes_of_wchars (Z.to_nat (uint32_at mem p)))
    by (rewrite length_take, length_drop; lia).
  replace (Z.to_nat (p + 4)) with (Z.to_nat p + 4)%nat by lia.
  rewrite <- drop_drop.
  replace (Z.to_nat (4 + 2 * uint32_at mem p))
    with (4 + Z.to_nat (2 * uint32_at mem p))%nat by lia.
  apply take_take_drop.
Qed.

(** What a successful parse yields re-encodes to the bytes it consumed. *)
Lemma payload_bytes_of_parsed (mem : list byte) :
  consumed mem <= Z.of_nat (length mem) →
  payload_bytes (parsed_payload mem) = take (Z.to_nat (consumed mem)) mem.
Proof.
  intros Hc. pose proof (uint32_at_range mem) as Hr. unfold UINT32_MOD in Hr.
  assert (H1 := Hr 0). assert (H2 := Hr (4 + 2 * len_args mem)).
  assert (H3 := Hr (8 + 2 * len_args mem + 2 * len_env mem)).
  assert (H4 := Hr (12 + 2 * len_args mem + 2 * len_env mem + 2 * len_cwd mem)).
  fold (len_args mem) in H1. fold (len_env mem) in H2. fold (len_cwd mem) in H3.
  clear Hr. unfold consumed in *.
  unfold payload_bytes, parsed_payload. cbn [commandLine environmentBlock workingDirectory
                                               showCommand parsed_views args env cwd show].
  pose proof (string_record_of_view mem 0) as R1.
  pose proof (string_record_of_view mem (4 + 2 * len_args mem)) as R2.
  pose proof (string_record_of_view mem (8 + 2 * len_args mem + 2 * len_env mem)) as R3.
  fold (len_args mem) in R1. fold (len_env mem) in R2. fold (len_cwd mem) in R3.
  change (0 + 4) with 4 in R1.
  replace (4 + 2 * len_args mem + 4) with (8 + 2 * len_args mem) in R2 by lia.
  replace (8 + 2 * len_args mem + 2 * len_env mem + 4)
    with (12 + 2 * len_args mem + 2 * len_env mem) in R3 by lia.
  rewrite R1, R2, R3 by lia.
  rewrite uint32_bytes_at by lia.
  change (Z.to_nat 0) with 0%nat. rewrite drop_0.
  set (n1 := Z.to_nat (4 + 2 * len_args mem)).
  set (n2 := Z.to_nat (4 + 2 * len_env mem)).
  set (n3 := Z.to_nat (4 + 2 * len_cwd mem)).
  replace (Z.to_nat (4 + 2 * len_args mem)) with n1 by reflexivity.
  replace (Z.to_nat (8 + 2 * len_args mem + 2 * len_env mem)) with (n1 + n2)%nat by lia.
  replace (Z.to_nat (12 + 2 * len_args mem + 2 * len_env mem + 2 * len_cwd mem))
    with (n1 + n2 + n3)%nat by lia.
  replace (Z.to_nat (16 + 2 * (len_args mem + len_env mem + len_cwd mem)))
    with (n1 + n2 + n3 + 4)%nat by lia.
  rewrite <- (take_take_drop mem (n1 + n2 + n3) 4).
  rewrite <- (take_take_drop mem (n1 + n2) n3).
  rewrite <- (take_take_drop mem n1 n2).
  rewrite <- !app_assoc. reflexivity.
Qed.

Lemma parsed_payload_valid (mem : list byte) :
  consumed mem <= Z.of_nat (length mem) → valid_payload (parsed_payload mem).
Proof.
  intros Hc. pose proof (uint32_at_range mem) as Hr.
  assert (H1 := Hr 0). assert (H2 := Hr (4 + 2 * len_args mem)).
  assert (H3 := Hr (8 + 2 * len_args mem + 2 * len_env mem)).
  fold (len_args mem) in H1. fold (len_env mem) in H2. fold (len_cwd mem) in H3.
  unfold consumed in Hc. unfold valid_payload, parsed_payload.
  cbn [commandLine environmentBlock workingDirectory showCommand].
  rewrite !view_wchars_length by (cbn [parsed_views args env cwd data size]; lia).
  cbn [parsed_views args env cwd show size].
  repeat split; try apply wchars_of_bytes_wf; try lia; apply Hr.
Qed.
End DecodedPayloads.

Section CodecExtras.
Import Codec HandoffLayout.

Lemma uint32_at_app_l (a b : list byte) (p : Z) :
  0 <= p → p + 4 <= Z.of_nat (length a) → uint32_at (a ++ b) p = uint32_at a p.
Proof.
  intros H0 H4. unfold uint32_at, byte_at.
  rewrite !lookup_app_l by lia. reflexivity.
Qed.

Lemma view_wchars_app_l (a b : list byte) (v : wstring_view) :
  0 <= data v → 0 <= size v → data v + 2 * size v <= Z.of_nat (length a) →
  view_wchars (a ++ b) v = view_wchars a v.
Proof.
  intros Hd Hs Hin. unfold view_wchars, sizeof_wchar_t.
  rewrite drop_app_le by lia. rewrite take_app_le by (rewrite length_drop; lia). reflexivity.
Qed.

Lemma view_of_hstring (mem : list byte) (v : wstring_view) (log log' : list Z) (s : wstring) :
  hstring_of_view v mem log = (Ret s, log') → view_wchars mem v = s.
Proof.
  unfold hstring_of_view, view_wchars. destruct (decide _); intros E; [|discriminate].
  injection E as E _. exact E.
Qed.

(** A valid payload's bytes, followed by anything, parse back to the payload
    and to its own length. *)
Lemma parsed_of_payload_bytes (p : HandoffPayload) (junk : list byte) :
  valid_payload p →
  consumed (payload_bytes p ++ junk) = Z.of_nat (length (payload_bytes p)) ∧
  parsed_payload (payload_bytes p ++ junk) = p.
Proof.
  intros Hv. pose proof (payload_bytes_length p) as Hlen.
  pose proof (payload_len1 p Hv) as E1. pose proof (payload_len2 p Hv) as E2.
  pose proof (payload_len3 p Hv) as E3. pose proof (payload_show p Hv) as E4.
  destruct (payload_view1 p Hv []) as [g1 V1]. destruct (payload_view2 p Hv []) as [g2 V2].
  destruct (payload_view3 p Hv []) as [g3 V3].
  cbv zeta in E1, E2, E3, E4, V1, V2, V3.
  apply view_of_hstring in V1, V2, V3.
  set (a := payload_bytes p) in *.
  assert (L1 : len_args (a ++ junk) = Z.of_nat (length (commandLine p))).
  { unfold len_args. rewrite uint32_at_app_l by lia. exact E1. }
  assert (L2 : len_env (a ++ junk) = Z.of_nat (length (environmentBlock p))).
  { unfold len_env. rewrite L1, uint32_at_app_l by lia. exact E2. }
  assert (L3 : len_cwd (a ++ junk) = Z.of_nat (length (workingDirectory p))).
  { unfold len_cwd. rewrite L1, L2, uint32_at_app_l by lia. exact E3. }
  split; [unfold consumed; rewrite L1, L2, L3; lia|].
  unfold parsed_payload, parsed_views. cbn [args env cwd show]. rewrite L1, L2, L3.
  rewrite !view_wchars_app_l by (cbn [data size]; lia).
  rewrite uint32_at_app_l by lia.
  rewrite V1.
  replace (8 + 2 * Z.of_nat (length (commandLine p)))
    with (4 + 2 * Z.of_nat (length (commandLine p)) + 4) by lia.
  rewrite V2.
  replace (12 + 2 * Z.of_nat (length (commandLine p)) + 2 * Z.of_nat (length (environmentBlock p)))
    with (4 + 2 * Z.of_nat (length (commandLine p)) + 4
          + 2 * Z.of_nat (length (environmentBlock p)) + 4) by lia.
  rewrite V3.
  replace (4 + 2 * Z.of_nat (length (commandLine p)) + 4
           + 2 * Z.of_nat (length (environmentBlock p)) + 4
           + 2 * Z.of_nat (length (workingDirectory p)))
    with (12 + 2 * Z.of_nat (length (commandLine p))
          + 2 * Z.of_nat (length (environmentBlock p))
          + 2 * Z.of_nat (length (workingDirectory p))) by lia.
  rewrite E4. destruct p; reflexivity.
Qed.

Lemma consumed_at_least_16 (mem : list byte) : 16 <= consumed mem.
Proof.
  unfold consumed.
  pose proof (uint32_at_range mem 0) as H1. fold (len_args mem) in H1.
  pose proof (uint32_at_range mem (4 + 2 * len_args mem)) as H2. fold (len_env mem) in H2.
  pose proof (uint32_at_range mem (8 + 2 * len_args mem + 2 * len_env mem)) as H3.
  fold (len_cwd mem) in H3.
  revert H1 H2 H3. generalize (len_args mem) (len_env mem) (len_cwd mem). intros. lia.
Qed.

(** X1: bytes that follow a complete payload in the buffer are ignored: the
    decoder returns the payload without loading any of them, and never checks
    that it reached the end of the buffer. *)
Theorem decode_ignores_trailing_bytes (p : HandoffPayload) (junk : list byte) :
  valid_payload p →
  Z.of_nat (length (payload_bytes p ++ junk)) < SIZE_T_MOD →
  ∃ bytes log,
    encodeHandoff p = Ret bytes ∧ decodeHandoff (bytes ++ junk) = (Ret p, log) ∧
    reads_within (Z.of_nat (length bytes)) log.
Proof.
  intros Hv Hsz. exists (payload_bytes p).
  destruct (parsed_of_payload_bytes p junk Hv) as [Hc Hp].
  destruct (decodeHandoff_criterion (payload_bytes p ++ junk) Hsz)
    as (log & [(_ & Hlog & E)|(Hlt & _)]).
  - exists log. rewrite Hp in E. rewrite Hc in Hlog.
    split; [apply encodeHandoff_ok; exact Hv|]. split; [exact E|exact Hlog].
  - rewrite Hc, length_app in Hlt. lia.
Qed.

(** X2: on every buffer below 2^64 bytes the receive path either throws
    [std::out_of_range] or returns a payload that is itself valid (16-bit
    code units, lengths and show command below 2^32); every byte it loads
    lies inside the buffer. *)
Theorem decode_any_buffer_safe (mem : list byte) :
  Z.of_nat (length mem) < SIZE_T_MOD →
  ∃ log,
    reads_within (Z.of_nat (length mem)) log ∧
    ((∃ what, decodeHandoff mem = (Throw (out_of_range what), log)) ∨
     (∃ p, decodeHandoff mem = (Ret p, log) ∧ valid_payload p)).
Proof.
  intros Hsz.
  destruct (decodeHandoff_criterion mem Hsz) as (log & [(Hc & Hlog & E)|(Hc & Hlog & what & E)]);
    exists log.
  - split; [apply (reads_within_mono (consumed mem)); assumption|].
    right. exists (parsed_payload mem). split; [exact E|].
    apply parsed_payload_valid. exact Hc.
  - split; [exact Hlog|]. left. exists what. exact E.
Qed.

(** X3: whatever decodes re-encodes to the bytes the decoder consumed: if a
    buffer decodes to [p], the encoding of [p] is a prefix of the buffer. *)
Theorem decode_then_encode (mem : list byte) (p : HandoffPayload) (log : list Z) :
  Z.of_nat (length mem) < SIZE_T_MOD →
  decodeHandoff mem = (Ret p, log) →
  ∃ n, (n <= length mem)%nat ∧ encodeHandoff p = Ret (take n mem) ∧
       Z.of_nat n = 16 + 2 * (Z.of_nat (length (commandLine p))
                              + Z.of_nat (length (environmentBlock p))
                              + Z.of_nat (length (workingDirectory p))).
Proof.
  intros Hsz Hdec.
  destruct (decodeHandoff_criterion mem Hsz) as (log' & [(Hc & _ & E)|(_ & _ & what & E)]);
    rewrite Hdec in E; [|discriminate].
  injection E as -> _.
  pose proof (consumed_at_least_16 mem) as Hpos.
  exists (Z.to_nat (consumed mem)). split; [lia|]. split.
  - rewrite (encodeHandoff_ok _ (parsed_payload_valid mem Hc)).
    f_equal. apply payload_bytes_of_parsed. exact Hc.
  - rewrite <- payload_bytes_length, payload_bytes_of_parsed by exact Hc.
    rewrite length_take. lia.
Qed.

(** X4: the encoding is injective on valid payloads. *)
Theorem encode_injective (p q : HandoffPayload) :
  valid_payload p → valid_payload q → encodeHandoff p = encodeHandoff q → p = q.
Proof.
  intros Hp Hq E. rewrite (encodeHandoff_ok p Hp), (encodeHandoff_ok q Hq) in E.
  assert (E' : payload_bytes p = payload_bytes q) by congruence.
  destruct (parsed_of_payload_bytes p [] Hp) as [_ Ep].
  destruct (parsed_of_payload_bytes q [] Hq) as [_ Eq].
  transitivity (parsed_payload (payload_bytes p ++ [])); [symmetry; exact Ep|].
  rewrite E'. exact Eq.
Qed.

(** X5: a buffer decodes exactly when the lengths it declares fit into it,
    that is when [16 + 2 * (the three length prefixes)] does not exceed its
    size; in particular nothing shorter than 16 bytes decodes. *)
Theorem decode_succeeds_iff (mem : list byte) :
  Z.of_nat (length mem) < SIZE_T_MOD →
  ((∃ p log, decodeHandoff mem = (Ret p, log)) ↔ consumed mem <= Z.of_nat (length mem)) ∧
  ((∃ p log, decodeHandoff mem = (Ret p, log)) → (16 <= length mem)%nat).
Proof.
  intros Hsz.
  pose proof (consumed_at_least_16 mem) as Hpos.
  assert (Hiff : (∃ p log, decodeHandoff mem = (Ret p, log)) ↔ consumed mem <= Z.of_nat (length mem)).
  { destruct (decodeHandoff_criterion mem Hsz) as (log & [(Hc & _ & E)|(Hc & _ & what & E)]).
    - split; [intros _; exact Hc|]. intros _. eexists _, _. exact E.
    - split; [|lia]. intros (p & log' & E'). rewrite E' in E. discriminate. }
  split; [exact Hiff|]. intros H. apply Hiff in H. lia.
Qed.
End CodecExtras.

(** ** The environment block *)

Section EnvironmentBlockProofs.
Import EnvironmentBlock.

Lemma wcsnlen_string (s t : list Z) :
  Forall (λ c, c ≠ 0) s → wcsnlen (s ++ 0 :: t) = Some (length s).
Proof.
  induction 1 as [|c s Hc _ IH]; [reflexivity|].
  cbn [app wcsnlen length]. destruct (Z.eqb_spec c 0); [contradiction|].
  rewrite IH. reflexivity.
Qed.

Lemma wcsnlen_unterminated (s : list Z) : Forall (λ c, c ≠ 0) s → wcsnlen s = None.
Proof.
  induction 1 as [|c s Hc _ IH]; [reflexivity|].
  cbn [wcsnlen]. destruct (Z.eqb_spec c 0); [contradiction|]. rewrite IH. reflexivity.
Qed.

Lemma scan_block (strs : list (list Z)) :
  ∀ (pre rest : list Z) (fuel : nat),
    Forall env_string strs →
    (length strs < fuel)%nat →
    scan fuel (pre ++ terminated_strings strs ++ 0 :: rest) (length pre) =
      Some (Ret (length pre + length (terminated_strings strs))%nat).
Proof.
  induction strs as [|s strs IH]; intros pre rest fuel Hstrs Hfuel.
  - destruct fuel as [|fuel]; [cbn in Hfuel; lia|].
    cbn [scan terminated_strings map concat app length].
    rewrite lookup_app_r, Nat.sub_diag by lia. cbn. rewrite Nat.add_0_r. reflexivity.
  - apply Forall_cons_1 in Hstrs as [[Hne Hs] Hstrs].
    destruct fuel as [|fuel]; [cbn in Hfuel; lia|]. cbn [length] in Hfuel.
    unfold terminated_strings in *. cbn [map concat scan].
    rewrite <- !app_assoc.
    destruct s as [|c s]; [contradiction|].
    apply Forall_cons_1 in Hs as [Hc Hs].
    rewrite lookup_app_r, Nat.sub_diag by lia. cbn [app lookup list_lookup].
    destruct (Z.eqb_spec c 0); [contradiction|].
    rewrite drop_app_length. cbn [wcsnlen].
    destruct (Z.eqb_spec c 0); [contradiction|].
    rewrite wcsnlen_string by exact Hs. cbn [fmap option_fmap option_map].
    specialize (IH (pre ++ c :: s ++ [0]) rest fuel Hstrs).
    rewrite <- !app_assoc in IH. cbn [app] in IH. rewrite <- !app_assoc in IH. cbn [app] in IH.
    rewrite !length_app in *. cbn [length] in *. rewrite !length_app in *. cbn [length] in *.
    replace (length pre + S (length s) + 1)%nat with (length pre + S (length s + 1))%nat by lia.
    rewrite IH by lia. do 2 f_equal. lia.
Qed.

Lemma scan_unterminated (strs : list (list Z)) :
  ∀ (pre : list Z) (fuel : nat),
    Forall env_string strs →
    (length strs < fuel)%nat →
    scan fuel (pre ++ terminated_strings strs) (length pre) = Some Fault.
Proof.
  induction strs as [|s strs IH]; intros pre fuel Hstrs Hfuel.
  - destruct fuel as [|fuel]; [cbn in Hfuel; lia|].
    cbn [scan terminated_strings map concat]. rewrite app_nil_r.
    rewrite lookup_ge_None_2 by lia. reflexivity.
  - apply Forall_cons_1 in Hstrs as [[Hne Hs] Hstrs].
    destruct fuel as [|fuel]; [cbn in Hfuel; lia|]. cbn [length] in Hfuel.
    unfold terminated_strings in *. cbn [map concat scan].
    rewrite <- !app_assoc.
    destruct s as [|c s]; [contradiction|].
    apply Forall_cons_1 in Hs as [Hc Hs].
    rewrite lookup_app_r, Nat.sub_diag by lia. cbn [app lookup list_lookup].
    destruct (Z.eqb_spec c 0); [contradiction|].
    rewrite drop_app_length. cbn [wcsnlen].
    destruct (Z.eqb_spec c 0); [contradiction|].
    rewrite wcsnlen_string by exact Hs. cbn [fmap option_fmap option_map].
    specialize (IH (pre ++ c :: s ++ [0]) fuel Hstrs).
    rewrite <- !app_assoc in IH. cbn [app] in IH. rewrite <- !app_assoc in IH. cbn [app] in IH.
    rewrite !length_app in *. cbn [length] in *. rewrite !length_app in *. cbn [length] in *.
    replace (length pre + S (length s) + 1)%nat with (length pre + S (length s + 1))%nat by lia.
    apply IH. lia.
Qed.

(** X6: on a block of non-empty NUL-terminated strings closed by one more
    NUL, the scan returns the strings with their terminators and without the
    closing NUL, whatever follows the block in memory; an empty block (a
    single NUL) gives the empty string. *)
Theorem environment_block_extent (strs : list (list Z)) (rest : list Z) (extra : nat) :
  Forall env_string strs →
  stringFromDoubleNullTerminated (S (length strs) + extra)
    (terminated_strings strs ++ 0 :: rest) = Some (Ret (terminated_strings strs)).
Proof.
  intros Hstrs. unfold stringFromDoubleNullTerminated.
  rewrite (scan_block strs [] rest) by (assumption || lia).
  cbn [length Nat.add]. rewrite take_app_length. reflexivity.
Qed.

(** X7: when the NUL that closes the block is missing, the scan runs off the
    end of the memory it was given. *)
Theorem environment_block_unterminated (strs : list (list Z)) (extra : nat) :
  Forall env_string strs →
  stringFromDoubleNullTerminated (S (length strs) + extra) (terminated_strings strs) = Some Fault.
Proof.
  intros Hstrs. unfold stringFromDoubleNullTerminated.
  rewrite (scan_unterminated strs []) by (assumption || lia). reflexivity.
Qed.
End EnvironmentBlockProofs.

(** ** The retry loop, pass by pass *)

Section RetryLoopPasses.
Import SingleInstance HandoffAttempts.

Lemma narrow_DWORD_small (n : Z) : 0 <= n < UINT32_MOD → narrow_DWORD n = Ret n.
Proof.
  intros Hn. unfold narrow_DWORD, to_uint32. rewrite Z.mod_small by exact Hn.
  destruct (decide _); [reflexivity|contradiction].
Qed.

Lemma retry_loop_decisive (bytes : list byte) (os : nat → Attempt) :
  Z.of_nat (length bytes) < UINT32_MOD →
  ∀ (fuel n k0 : nat) (sleep : Z) (trace : list Event) (sched : list Z),
    backoff_schedule fuel sleep = Some sched →
    (n < length sched)%nat →
    (∀ j, (j < n)%nat → decisive (os (k0 + j)%nat) = false) →
    decisive (os (k0 + n)%nat) = true →
    ∃ tr,
      retry_loop fuel (Ret bytes) os k0 sleep trace =
        Some (Ret (fresh_mutex (os (k0 + n)%nat)), trace ++ tr) ∧
      sleeps_of tr = take n sched ∧
      (fresh_mutex (os (k0 + n)%nat) = false →
       last tr = Some (EvSendMessageTimeout (Z.of_nat (length bytes)) 10000)).
Proof.
  intros Hbytes.
  induction fuel as [|fuel IH]; intros n k0 sleep trace sched Hs Hn Hbefore Hat;
    simpl in Hs; [discriminate|].
  simpl. destruct (sleep <? 10000).
  2:{ injection Hs as <-. cbn in Hn. lia. }
  destruct (backoff_schedule fuel (next_sleep sleep)) as [sched'|] eqn:Hs'; [|discriminate].
  injection Hs as <-. cbn [length] in Hn.
  rewrite narrow_DWORD_small by lia.
  destruct n as [|n].
  - rewrite Nat.add_0_r in *. unfold decisive, fresh_mutex, delivered in *.
    destruct (CreateMutexW_handle (os k0) && negb (lastError_ALREADY_EXISTS (os k0))).
    + exists [EvCreateMutex]. repeat split. intros; discriminate.
    + cbn [orb] in Hat. apply andb_true_iff in Hat as [-> ->].
      exists [EvCreateMutex; EvFindWindow; EvSendMessageTimeout (Z.of_nat (length bytes)) 10000].
      rewrite <- !app_assoc. repeat split.
  - pose proof (Hbefore 0%nat ltac:(lia)) as H0. rewrite Nat.add_0_r in H0.
    unfold decisive, fresh_mutex, delivered in H0.
    apply orb_false_iff in H0 as [Hm Hd]. rewrite Hm.
    assert (Hnext : ∀ tr0,
      ∃ tr, retry_loop fuel (Ret bytes) os (S k0) (next_sleep sleep)
              ((trace ++ tr0) ++ [EvSleep sleep]) =
              Some (Ret (fresh_mutex (os (k0 + S n)%nat)),
                    ((trace ++ tr0) ++ [EvSleep sleep]) ++ tr) ∧
            sleeps_of tr = take n sched' ∧
            (fresh_mutex (os (k0 + S n)%nat) = false →
             last tr = Some (EvSendMessageTimeout (Z.of_nat (length bytes)) 10000))).
    { intros tr0.
      destruct (IH n (S k0) (next_sleep sleep) ((trace ++ tr0) ++ [EvSleep sleep]) sched' Hs')
        as (tr & E & Hsl & L).
      - lia.
      - intros j Hj. replace (S k0 + j)%nat with (k0 + S j)%nat by lia. apply Hbefore. lia.
      - replace (S k0 + n)%nat with (k0 + S n)%nat by lia. exact Hat.
      - replace (S k0 + n)%nat with (k0 + S n)%nat in * by lia. exists tr. repeat split; assumption. }
    assert (Hlast : ∀ (pre tr : list Event) e, last tr = Some e → last (pre ++ tr) = Some e).
    { intros pre tr e Hl. destruct tr as [|x tr] using rev_ind; [discriminate|].
      rewrite last_snoc in Hl. rewrite app_assoc, last_snoc. exact Hl. }
    destruct (FindWindowW_found (os k0)).
    + cbn [andb] in Hd. rewrite Hd.
      destruct (Hnext [EvCreateMutex; EvFindWindow;
                        EvSendMessageTimeout (Z.of_nat (length bytes)) 10000])
        as (tr & E & Hsl & L).
      exists ([EvCreateMutex; EvFindWindow; EvSendMessageTimeout (Z.of_nat (length bytes)) 10000;
               EvSleep sleep] ++ tr).
      rewrite <- !app_assoc in *. cbn [app] in *. split; [exact E|]. split.
      * change (sleeps_of (EvCreateMutex :: EvFindWindow
                           :: EvSendMessageTimeout (Z.of_nat (length bytes)) 10000
                           :: EvSleep sleep :: tr)) with (sleep :: sleeps_of tr).
        rewrite Hsl. reflexivity.
      * intros F. apply (Hlast [_; _; _; _]). apply L. exact F.
    + destruct (Hnext [EvCreateMutex; EvFindWindow]) as (tr & E & Hsl & L).
      exists ([EvCreateMutex; EvFindWindow; EvSleep sleep] ++ tr).
      rewrite <- !app_assoc in *. cbn [app] in *. split; [exact E|]. split.
      * change (sleeps_of (EvCreateMutex :: EvFindWindow :: EvSleep sleep :: tr))
          with (sleep :: sleeps_of tr).
        rewrite Hsl. reflexivity.
      * intros F. apply (Hlast [_; _; _]). apply L. exact F.
Qed.

Lemma retry_loop_exhausts (bytes : list byte) (os : nat → Attempt) :
  Z.of_nat (length bytes) < UINT32_MOD →
  ∀ (fuel k0 : nat) (sleep : Z) (trace : list Event) (sched : list Z),
    backoff_schedule fuel sleep = Some sched →
    (∀ j, (j < length sched)%nat → decisive (os (k0 + j)%nat) = false) →
    ∃ tr,
      retry_loop fuel (Ret bytes) os k0 sleep trace = Some (Ret false, trace ++ tr) ∧
      sleeps_of tr = sched.
Proof.
  intros Hbytes.
  induction fuel as [|fuel IH]; intros k0 sleep trace sched Hs Hnone; simpl in Hs; [discriminate|].
  simpl. destruct (sleep <? 10000).
  2:{ injection Hs as <-. exists []. rewrite app_nil_r. split; reflexivity. }
  destruct (backoff_schedule fuel (next_sleep sleep)) as [sched'|] eqn:Hs'; [|discriminate].
  injection Hs as <-. cbn [length] in Hnone.
  rewrite narrow_DWORD_small by lia.
  pose proof (Hnone 0%nat ltac:(lia)) as H0. rewrite Nat.add_0_r in H0.
  unfold decisive, fresh_mutex, delivered in H0.
  apply orb_false_iff in H0 as [Hm Hd]. rewrite Hm.
  assert (Hnext : ∀ tr0,
    ∃ tr, retry_loop fuel (Ret bytes) os (S k0) (next_sleep sleep)
            ((trace ++ tr0) ++ [EvSleep sleep]) =
            Some (Ret false, ((trace ++ tr0) ++ [EvSleep sleep]) ++ tr) ∧
          sleeps_of tr = sched').
  { intros tr0. apply IH; [exact Hs'|].
    intros j Hj. replace (S k0 + j)%nat with (k0 + S j)%nat by lia. apply Hnone. lia. }
  destruct (FindWindowW_found (os k0)).
  - cbn [andb] in Hd. rewrite Hd.
    destruct (Hnext [EvCreateMutex; EvFindWindow;
                      EvSendMessageTimeout (Z.of_nat (length bytes)) 10000]) as (tr & E & Hsl).
    exists ([EvCreateMutex; EvFindWindow; EvSendMessageTimeout (Z.of_nat (length bytes)) 10000;
             EvSleep sleep] ++ tr).
    rewrite <- !app_assoc in *. cbn [app] in *. split; [exact E|].
    change (sleeps_of (EvCreateMutex :: EvFindWindow
                       :: EvSendMessageTimeout (Z.of_nat (length bytes)) 10000
                       :: EvSleep sleep :: tr)) with (sleep :: sleeps_of tr).
    rewrite Hsl. reflexivity.
  - destruct (Hnext [EvCreateMutex; EvFindWindow]) as (tr & E & Hsl).
    exists ([EvCreateMutex; EvFindWindow; EvSleep sleep] ++ tr).
    rewrite <- !app_assoc in *. cbn [app] in *. split; [exact E|].
    change (sleeps_of (EvCreateMutex :: EvFindWindow :: EvSleep sleep :: tr))
      with (sleep :: sleeps_of tr).
    rewrite Hsl. reflexivity.
Qed.
End RetryLoopPasses.

Section RetryLoopExtras.
Import SingleInstance HandoffAttempts.

(** At most one send per pass. *)
Lemma retry_loop_sends (payload : outcome (list byte)) (os : nat → Attempt) :
  ∀ (fuel : nat) (k : nat) (sleep : Z) (trace : list Event) (sched : list Z),
    backoff_schedule fuel sleep = Some sched →
    ∃ r tr,
      retry_loop fuel payload os k sleep trace = Some (r, trace ++ tr) ∧
      sleeps_of tr `prefix_of` sched ∧
      Forall (λ t, t = 10000) (send_timeouts_of tr) ∧
      (length (send_timeouts_of tr) <= length sched)%nat.
Proof.
  induction fuel as [|fuel IH]; intros k sleep trace sched Hs; simpl in Hs; [discriminate|].
  simpl. destruct (sleep <? 10000).
  2:{ injection Hs as <-. exists (Ret false), []. rewrite app_nil_r.
      repeat split; [apply prefix_nil | apply Forall_nil_2 | cbn; lia]. }
  destruct (backoff_schedule fuel (next_sleep sleep)) as [sched'|] eqn:Hs'; [|discriminate].
  injection Hs as <-. cbn [length].
  destruct (CreateMutexW_handle (os k) && negb (lastError_ALREADY_EXISTS (os k))).
  { exists (Ret true), [EvCreateMutex].
    repeat split; [apply prefix_nil | apply Forall_nil_2 | cbn; lia]. }
  destruct (FindWindowW_found (os k)).
  - destruct payload as [bytes|x|].
    + destruct (narrow_DWORD (Z.of_nat (length bytes))) as [cb|x|].
      * destruct (SendMessageTimeoutW_ok (os k)).
        -- exists (Ret false), [EvCreateMutex; EvFindWindow; EvSendMessageTimeout cb 10000].
           rewrite <- !app_assoc.
           repeat split; [apply prefix_nil | repeat constructor | cbn; lia].
        -- destruct (IH (S k) (next_sleep sleep)
                       ((((trace ++ [EvCreateMutex]) ++ [EvFindWindow])
                         ++ [EvSendMessageTimeout cb 10000]) ++ [EvSleep sleep]) sched' Hs')
             as (r & tr & E & P & T & C).
           exists r, ([EvCreateMutex; EvFindWindow; EvSendMessageTimeout cb 10000;
                       EvSleep sleep] ++ tr).
           rewrite E, <- !app_assoc. repeat split.
           ++ rewrite sleeps_of_app. apply (prefix_app [sleep]). exact P.
           ++ rewrite send_timeouts_of_app. apply Forall_app.
              split; [repeat constructor|exact T].
           ++ rewrite send_timeouts_of_app, length_app. cbn. lia.
      * exists (Throw x), [EvCreateMutex; EvFindWindow]. rewrite <- !app_assoc.
        repeat split; [apply prefix_nil | apply Forall_nil_2 | cbn; lia].
      * exists Fault, [EvCreateMutex; EvFindWindow]. rewrite <- !app_assoc.
        repeat split; [apply prefix_nil | apply Forall_nil_2 | cbn; lia].
    + exists (Throw x), [EvCreateMutex; EvFindWindow]. rewrite <- !app_assoc.
      repeat split; [apply prefix_nil | apply Forall_nil_2 | cbn; lia].
    + exists Fault, [EvCreateMutex; EvFindWindow]. rewrite <- !app_assoc.
      repeat split; [apply prefix_nil | apply Forall_nil_2 | cbn; lia].
  - destruct (IH (S k) (next_sleep sleep)
                (((trace ++ [EvCreateMutex]) ++ [EvFindWindow]) ++ [EvSleep sleep]) sched' Hs')
      as (r & tr & E & P & T & C).
    exists r, ([EvCreateMutex; EvFindWindow; EvSleep sleep] ++ tr).
    rewrite E, <- !app_assoc. repeat split.
    + rewrite sleeps_of_app. apply (prefix_app [sleep]). exact P.
    + rewrite send_timeouts_of_app. apply Forall_app. split; [apply Forall_nil_2|exact T].
    + rewrite send_timeouts_of_app, length_app. cbn. lia.
Qed.

Lemma sum_list_constant (c : Z) (l : list Z) :
  Forall (λ t, t = c) l → sum_list l = c * Z.of_nat (length l).
Proof.
  unfold sum_list. induction 1 as [|t l -> _ IH]; cbn [fold_right length]; [lia|].
  rewrite IH. lia.
Qed.

(** X8: the loop ends at the first pass in which the mutex is created
    afresh or the primary's window takes the message: the caller owns the
    mutex exactly in the first case (a handle reported as already existing
    never counts), it has slept the first [n] steps of the schedule before,
    and in the second case the send is the last thing it did. *)
Theorem handoff_ends_at_first_decisive_pass
    (args env cwd : wstring) (nCmdShow : Z) (bytes : list byte) (os : nat → Attempt)
    (n extra : nat) :
  Codec.serializeHandoffPayload args env cwd nCmdShow = Ret bytes →
  Z.of_nat (length bytes) < UINT32_MOD →
  (n < 14)%nat →
  (∀ j, (j < n)%nat → decisive (os j) = false) →
  decisive (os n) = true →
  ∃ trace,
    acquireMutexOrAttemptHandoff (15 + extra) args env cwd nCmdShow os =
      Some (Ret (fresh_mutex (os n)), trace) ∧
    sleeps_of trace = take n schedule_50 ∧
    (fresh_mutex (os n) = false →
     last trace = Some (EvSendMessageTimeout (Z.of_nat (length bytes)) 10000)).
Proof.
  intros Hser Hbytes Hn Hbefore Hat.
  destruct (retry_loop_decisive bytes os Hbytes 15 n 0 50 [] schedule_50 eq_refl)
    as (tr & E & Hsl & L); [exact Hn|exact Hbefore|exact Hat|].
  exists tr. split; [|split; assumption].
  unfold acquireMutexOrAttemptHandoff. rewrite Hser.
  apply (retry_loop_more_fuel (Ret bytes) os 15 (15 + extra)); [exact E|lia].
Qed.

(** X9: when fourteen passes in a row neither create the mutex afresh nor
    deliver the message, the caller is left without the mutex after sleeping
    the whole schedule, 28941 ms. *)
Theorem handoff_gives_up_after_schedule
    (args env cwd : wstring) (nCmdShow : Z) (bytes : list byte) (os : nat → Attempt)
    (extra : nat) :
  Codec.serializeHandoffPayload args env cwd nCmdShow = Ret bytes →
  Z.of_nat (length bytes) < UINT32_MOD →
  (∀ j, (j < 14)%nat → decisive (os j) = false) →
  ∃ trace,
    acquireMutexOrAttemptHandoff (15 + extra) args env cwd nCmdShow os =
      Some (Ret false, trace) ∧
    sleeps_of trace = schedule_50 ∧
    sum_list (sleeps_of trace) = 28941.
Proof.
  intros Hser Hbytes Hnone.
  destruct (retry_loop_exhausts bytes os Hbytes 15 0 50 [] schedule_50 eq_refl)
    as (tr & E & Hsl); [exact Hnone|].
  exists tr. split; [|split; [exact Hsl|rewrite Hsl; reflexivity]].
  unfold acquireMutexOrAttemptHandoff. rewrite Hser.
  apply (retry_loop_more_fuel (Ret bytes) os 15 (15 + extra)); [exact E|lia].
Qed.

(** X10: whatever the operating system answers, a run makes at most
    fourteen sends, and the time it may spend sleeping and waiting for sends
    to time out is at most 28941 + 14 * 10000 = 168941 ms. *)
Theorem handoff_wait_budget
    (args env cwd : wstring) (nCmdShow : Z) (os : nat → Attempt) (extra : nat) :
  ∃ r trace,
    acquireMutexOrAttemptHandoff (15 + extra) args env cwd nCmdShow os = Some (r, trace) ∧
    (length (send_timeouts_of trace) <= 14)%nat ∧
    sum_list (sleeps_of trace) + sum_list (send_timeouts_of trace) <= 168941.
Proof.
  set (payload := Codec.serializeHandoffPayload args env cwd nCmdShow).
  destruct (retry_loop_sends payload os 15 0 50 [] schedule_50 eq_refl)
    as (r & tr & E & P & T & C).
  exists r, tr. cbn [app] in E. split; [|split].
  - unfold acquireMutexOrAttemptHandoff.
    apply (retry_loop_more_fuel payload os 15 (15 + extra)); [exact E|lia].
  - exact C.
  - rewrite (sum_list_constant 10000 _ T).
    assert (Hs : sum_list (sleeps_of tr) <= sum_list schedule_50)
      by (apply sum_list_prefix; [exact P|repeat constructor; lia]).
    change (sum_list schedule_50) with 28941 in Hs. change (length schedule_50) with 14%nat in C. lia.
Qed.
End RetryLoopExtras.

(** ** The counter over a run of closes *)

Section CounterRuns.
Import Emperor PoolRuns.

Lemma decrement_keeps_flags (e : WindowEmperor) :
  _quitting (_decrementWindowCount e) = _quitting e ∧
  _app (_decrementWindowCount e) = _app e.
Proof.
  unfold _decrementWindowCount, _close. cbn zeta. destruct (_ && _); split; reflexivity.
Qed.

Lemma decrement_os (e : WindowEmperor) :
  os (_decrementWindowCount e) =
    os e ++ (if (_windowThreadInstances e =? 1) && (_quitting e || negb (AllowHeadless (_app e)))
             then [PostQuitMessage 0] else []).
Proof.
  unfold _decrementWindowCount, _close. cbn zeta.
  cbn [_quitting with_windowThreadInstances _app].
  destruct (_ && _); cbn [os call with_windowThreadInstances]; [|rewrite app_nil_r]; reflexivity.
Qed.

(** X11: with [c] windows counted, the quit message is posted when the
    [c]-th of them goes and not before: after [k <= c] decrements the
    counter stands at [c - k], and a [PostQuitMessage(0)] has been made
    exactly if [k = c > 0] and a quit was requested or headless operation is
    not allowed. *)
Theorem quit_posted_when_last_window_goes (c k : nat) (e : WindowEmperor) :
  _windowThreadInstances e = Z.of_nat c →
  Z.of_nat c < UINT32_MOD →
  (k <= c)%nat →
  _windowThreadInstances (decrements k e) = Z.of_nat (c - k) ∧
  os (decrements k e) =
    os e ++ (if bool_decide (k = c ∧ (0 < c)%nat) && (_quitting e || negb (AllowHeadless (_app e)))
             then [PostQuitMessage 0] else []).
Proof.
  intros Hc Hsmall. induction k as [|k IH]; intros Hk.
  - cbn [decrements]. rewrite Nat.sub_0_r. split; [exact Hc|].
    rewrite bool_decide_eq_false_2 by lia. cbn. rewrite app_nil_r. reflexivity.
  - destruct IH as [IHc IHos]; [lia|].
    cbn [decrements].
    set (e1 := decrements k e) in *.
    assert (Hflags : _quitting e1 = _quitting e ∧ _app e1 = _app e).
    { subst e1. clear. induction k as [|k [IHq IHa]]; [split; reflexivity|].
      cbn [decrements]. destruct (decrement_keeps_flags (decrements k e)) as [-> ->].
      split; assumption. }
    destruct Hflags as [Hq Ha].
    rewrite bool_decide_eq_false_2 in IHos by lia. cbn [andb] in IHos.
    rewrite app_nil_r in IHos. split.
    + rewrite decrement_counter, IHc. unfold to_uint32. rewrite Z.mod_small; lia.
    + rewrite decrement_os, IHos, IHc, Hq, Ha. f_equal.
      destruct (decide (S k = c)) as [E|E].
      * rewrite bool_decide_eq_true_2 by lia.
        replace (Z.of_nat (c - k)) with 1 by lia. reflexivity.
      * rewrite bool_decide_eq_false_2 by lia.
        destruct (Z.eqb_spec (Z.of_nat (c - k)) 1); [lia|]. reflexivity.
Qed.
End CounterRuns.

(** ** Passes through the warm loop *)

Section WarmLoopExtras.
Import Emperor PoolRuns.

Lemma remove_decrement_commute (id : Z) (e : WindowEmperor) :
  _removeWindow id (_decrementWindowCount e) = _decrementWindowCount (_removeWindow id e).
Proof.
  unfold _decrementWindowCount, _close, _removeWindow. cbn zeta.
  cbn [with_windows _windowThreadInstances _quitting _app with_windowThreadInstances].
  destruct (_ && _); reflexivity.
Qed.

(** X12: when the message pump throws, the guards do the bookkeeping of a
    teardown whatever the platform: the emperor ends in the same state as
    after a Windows 11 close, and the window is not parked. *)
Theorem pump_exception_tears_down
    (IsWindows11 : bool) (window : WindowThread) (e : WindowEmperor) :
  fst (warm_cycle_leave true IsWindows11 PumpThrew window e) =
    fst (warm_cycle_leave true true PumpReturned window e) ∧
  snd (warm_cycle_leave true IsWindows11 PumpThrew window e) = LoopUnwind ∧
  _oldWindows (fst (warm_cycle_leave true IsWindows11 PumpThrew window e)) = _oldWindows e.
Proof.
  rewrite leave_unwinds, leave_tears_down. cbn [fst snd].
  rewrite remove_decrement_commute. repeat split.
  destruct (decrement_keeps_lists (_removeWindow (PeasantID window) e)) as (_ & K & _).
  rewrite K. reflexivity.
Qed.

Lemma windows_after_leave (IsWindows11 : bool) (pump : PumpExit) (window : WindowThread)
    (e : WindowEmperor) :
  _windows (fst (warm_cycle_leave true IsWindows11 pump window e)) =
    filter (λ w, PeasantID w ≠ PeasantID window) (_windows e).
Proof.
  destruct pump, IsWindows11;
    rewrite ?leave_refrigerates, ?leave_tears_down, ?leave_unwinds; cbn [fst];
    rewrite ?remove_decrement_commute;
    cbn [with_oldWindows _windows];
    destruct (decrement_keeps_lists (_removeWindow (PeasantID window) e)) as (K & _ & _);
    rewrite K; reflexivity.
Qed.

Lemma filter_all {A : Type} (P : A → Prop) `{∀ x, Decision (P x)} (l : list A) :
  Forall P l → filter P l = l.
Proof.
  induction 1 as [|x l Hx _ IH]; [reflexivity|].
  rewrite filter_cons_True by exact Hx. rewrite IH. reflexivity.
Qed.

(** X13: a pass through the warm loop publishes the window at the back of
    the active list and, when the pump is left, erases every window that
    carries its id; so the pass leaves the list as it found it when no other
    active window has that id, and otherwise takes those others out as well. *)
Theorem warm_cycle_restores_active_list
    (IsWindows11 : bool) (pump : PumpExit) (window : WindowThread) (e : WindowEmperor) :
  _windows (warm_cycle_enter true window e) = _windows e ++ [window] ∧
  _windows (fst (warm_cycle_leave true IsWindows11 pump window (warm_cycle_enter true window e))) =
    filter (λ w, PeasantID w ≠ PeasantID window) (_windows e) ∧
  (Forall (λ w, PeasantID w ≠ PeasantID window) (_windows e) →
   _windows (fst (warm_cycle_leave true IsWindows11 pump window (warm_cycle_enter true window e))) =
     _windows e).
Proof.
  assert (H2 : _windows (fst (warm_cycle_leave true IsWindows11 pump window
                                (warm_cycle_enter true window e))) =
               filter (λ w, PeasantID w ≠ PeasantID window) (_windows e)).
  { rewrite windows_after_leave. cbn [warm_cycle_enter with_windows _windows].
    rewrite filter_app, filter_cons_False, filter_nil, app_nil_r by (intros H; apply H; reflexivity).
    reflexivity. }
  split; [reflexivity|]. split; [exact H2|].
  intros Hfresh. rewrite H2. apply filter_all. exact Hfresh.
Qed.
End WarmLoopExtras.

(** ** An invariant of the pool *)

Section PoolInvariant.
Import Emperor PoolRuns.






End PoolInvariant.

(** ** Global hotkeys, run after run *)

Section HotkeyExtras.
Import Emperor.

Lemma register_loop_keeps (entries : list (KeyChord * Command)) :
  ∀ e : WindowEmperor,
    _app (fold_left register_entry entries e) = _app e ∧
    _window (fold_left register_entry entries e) = _window e.
Proof.
  induction entries as [|[keyChord cmd] entries IH]; intros e; [split; reflexivity|].
  cbn [fold_left]. destruct (IH (register_entry e (keyChord, cmd))) as [A W].
  rewrite A, W. unfold register_entry.
  destruct (try_as_GlobalSummonArgs cmd); split; reflexivity.
Qed.

Lemma setup_effect (e : WindowEmperor) :
  _window e = true →
  Z.of_nat (length (_hotkeys e)) < 2 ^ 31 →
  Z.of_nat (length (summon_entries (GlobalHotkeys (_app e)))) < 2 ^ 31 →
  os (_setupGlobalHotkeys e) =
    os e ++ unregister_calls (length (_hotkeys e))
         ++ register_calls 0 (summon_entries (GlobalHotkeys (_app e))) ∧
  _hotkeys (_setupGlobalHotkeys e) = map snd (summon_entries (GlobalHotkeys (_app e))) ∧
  _app (_setupGlobalHotkeys e) = _app e ∧
  _window (_setupGlobalHotkeys e) = true.
Proof.
  intros Hwindow Hold Hnew. unfold _setupGlobalHotkeys. rewrite Hwindow. cbn [negb].
  rewrite narrow_cast_int_small, Nat2Z.id by assumption.
  rewrite unregister_loop.
  destruct (calls_append (map (λ i : nat, CallUnregisterHotKey (Z.of_nat i))
                              (seq 0 (length (_hotkeys e)))) e) as (O & _ & A & W).
  set (e1 := fold_left _ _ e) in *.
  set (e2 := with_hotkeys (λ _, []) e1).
  assert (A2 : _app e2 = _app e) by exact A.
  assert (W2 : _window e2 = true) by (rewrite <- Hwindow; exact W).
  assert (O2 : os e2 = os e ++ unregister_calls (length (_hotkeys e))) by exact O.
  rewrite A2. destruct (register_loop (GlobalHotkeys (_app e)) e2) as [O3 H3].
  { cbn [e2 with_hotkeys _hotkeys length]. lia. }
  destruct (register_loop_keeps (GlobalHotkeys (_app e)) e2) as [A3 W3].
  rewrite O3, H3, O2, A3, W3, A2, W2, <- app_assoc. repeat split.
Qed.

Lemma held_after_setup (e : WindowEmperor) :
  _window e = true →
  Z.of_nat (length (_hotkeys e)) < 2 ^ 31 →
  Z.of_nat (length (summon_entries (GlobalHotkeys (_app e)))) < 2 ^ 31 →
  Forall (λ h, 0 <= fst h < Z.of_nat (length (_hotkeys e))) (held_hotkeys (os e)) →
  held_hotkeys (os (_setupGlobalHotkeys e)) =
    imap (λ i binding, (Z.of_nat i, (hotkey_flags (fst binding), Vkey (fst binding))))
         (summon_entries (GlobalHotkeys (_app e))).
Proof.
  intros Hwindow Hold Hnew Hheld.
  destruct (setup_effect e Hwindow Hold Hnew) as (Hos & _).
  rewrite Hos. unfold held_hotkeys in *. rewrite !fold_left_app.
  unfold unregister_calls. rewrite held_after_unregister by exact Hheld.
  rewrite held_after_register. reflexivity.
Qed.

Lemma held_ids {B : Type} (g : B → Z * Z) (l : list B) :
  ∀ first : nat,
    map fst (imap (λ i b, (Z.of_nat (first + i), g b)) l) =
      map Z.of_nat (seq first (length l)).
Proof.
  induction l as [|b l IH]; intros first; [reflexivity|].
  cbn [imap map length seq fst]. rewrite Nat.add_0_r. f_equal.
  rewrite <- IH. f_equal. apply imap_ext. intros i x _. cbn. do 2 f_equal. lia.
Qed.

Lemma held_ids_0 {B : Type} (g : B → Z * Z) (l : list B) :
  map fst (imap (λ i b, (Z.of_nat i, g b)) l) = map Z.of_nat (seq 0 (length l)).
Proof. apply (held_ids g l 0). Qed.

Lemma held_in_table {B : Type} (g : B → Z * Z) (l : list B) :
  Forall (λ h : Z * (Z * Z), 0 <= fst h < Z.of_nat (length l))
         (imap (λ i b, (Z.of_nat i, g b)) l).
Proof.
  apply Forall_forall. intros h Hh.
  apply (list_elem_of_fmap_2 fst) in Hh.
  change (fst <$> imap (λ i b, (Z.of_nat i, g b)) l)
    with (map fst (imap (λ i b, (Z.of_nat i, g b)) l)) in Hh.
  rewrite held_ids_0 in Hh.
  apply list_elem_of_fmap in Hh as (i & -> & Hi).
  apply list_elem_of_In, in_seq in Hi. lia.
Qed.

(** X15: setting the global hotkeys up a second time, with the settings
    unchanged, leaves the table and the hotkeys held by the message window as
    they were: the ids held are 0, 1, ..., one per entry of the table, none
    twice. *)
Theorem hotkey_resync_twice (e : WindowEmperor) :
  _window e = true →
  Z.of_nat (length (_hotkeys e)) < 2 ^ 31 →
  Z.of_nat (length (summon_entries (GlobalHotkeys (_app e)))) < 2 ^ 31 →
  Forall (λ h, 0 <= fst h < Z.of_nat (length (_hotkeys e))) (held_hotkeys (os e)) →
  let once := _setupGlobalHotkeys e in
  let twice := _setupGlobalHotkeys once in
  _hotkeys twice = _hotkeys once ∧
  held_hotkeys (os twice) = held_hotkeys (os once) ∧
  map fst (held_hotkeys (os twice)) = map Z.of_nat (seq 0 (length (_hotkeys twice))) ∧
  NoDup (map fst (held_hotkeys (os twice))).
Proof.
  intros Hwindow Hold Hnew Hheld once twice.
  destruct (setup_effect e Hwindow Hold Hnew) as (_ & Hkeys & Happ & Hwin).
  pose proof (held_after_setup e Hwindow Hold Hnew Hheld) as Hheld1.
  fold once in Hkeys, Happ, Hwin, Hheld1.
  assert (Hlen : length (_hotkeys once) =
                 length (summon_entries (GlobalHotkeys (_app e))))
    by (rewrite Hkeys, length_map; reflexivity).
  assert (Hold1 : Z.of_nat (length (_hotkeys once)) < 2 ^ 31) by (rewrite Hlen; exact Hnew).
  assert (Hnew1 : Z.of_nat (length (summon_entries (GlobalHotkeys (_app once)))) < 2 ^ 31)
    by (rewrite Happ; exact Hnew).
  assert (Hheld' : Forall (λ h, 0 <= fst h < Z.of_nat (length (_hotkeys once)))
                          (held_hotkeys (os once))).
  { rewrite Hheld1, Hlen. apply held_in_table. }
  destruct (setup_effect once Hwin Hold1 Hnew1) as (_ & Hkeys2 & _ & _).
  pose proof (held_after_setup once Hwin Hold1 Hnew1 Hheld') as Hheld2.
  fold twice in Hkeys2, Hheld2. rewrite Happ in Hkeys2, Hheld2.
  assert (Hids : map fst (held_hotkeys (os twice)) =
                 map Z.of_nat (seq 0 (length (_hotkeys twice)))).
  { rewrite Hheld2, held_ids_0, Hkeys2, length_map. reflexivity. }
  split; [congruence|]. split; [congruence|]. split; [exact Hids|].
  rewrite Hids. apply (NoDup_fmap_2 Z.of_nat), NoDup_seq.
Qed.

(** X16: a hotkey message for any id the message window holds after a
    setup is served: the handler reads the table at that id only and ends
    normally, and no hotkey message, whatever its id, changes the emperor. *)
Theorem held_hotkeys_are_served (e : WindowEmperor) (hotkeyIndex : Z) :
  _window e = true →
  Z.of_nat (length (_hotkeys e)) < 2 ^ 31 →
  Z.of_nat (length (summon_entries (GlobalHotkeys (_app e)))) < 2 ^ 31 →
  Forall (λ h, 0 <= fst h < Z.of_nat (length (_hotkeys e))) (held_hotkeys (os e)) →
  let e' := _setupGlobalHotkeys e in
  (hotkeyIndex ∈ map fst (held_hotkeys (os e')) →
   _hotkeyPressed hotkeyIndex e' = ([hotkeyIndex], Ret e')) ∧
  (∀ e'', snd (_hotkeyPressed hotkeyIndex e') = Ret e'' → e'' = e').
Proof.
  intros Hwindow Hold Hnew Hheld e'. split.
  - intros Hid.
    destruct (setup_effect e Hwindow Hold Hnew) as (_ & Hkeys & _ & _).
    pose proof (held_after_setup e Hwindow Hold Hnew Hheld) as Hheld1.
    fold e' in Hkeys, Hheld1.
    assert (Hlen : length (_hotkeys e') =
                   length (summon_entries (GlobalHotkeys (_app e))))
      by (rewrite Hkeys, length_map; reflexivity).
    rewrite Hheld1, held_ids_0 in Hid.
    apply list_elem_of_fmap in Hid as (i & -> & Hi).
    apply list_elem_of_In, in_seq in Hi.
    apply hotkeyPressed_in_range; [lia|].
    unfold SIZE_T_MOD. rewrite Hlen.
    eapply Z.lt_trans; [exact Hnew|]. reflexivity.
  - intros e''. unfold _hotkeyPressed.
    destruct (_ || _); cbn [snd]; [congruence|].
    destruct (til_at _ _); cbn; congruence.
Qed.

(** X17: the modifiers handed to [RegisterHotKey] are [MOD_NOREPEAT]
    together with the chord's modifiers, each moved to its own Win32 flag:
    Windows to [MOD_WIN], Menu to [MOD_ALT], Control to [MOD_CONTROL], Shift
    to [MOD_SHIFT]; no other bit is set. *)
Theorem hotkey_flags_translate (hotkey : KeyChord) :
  WI_IsFlagSet (hotkey_flags hotkey) MOD_NOREPEAT = true ∧
  WI_IsFlagSet (hotkey_flags hotkey) MOD_WIN =
    WI_IsFlagSet (Modifiers hotkey) VirtualKeyModifiers_Windows ∧
  WI_IsFlagSet (hotkey_flags hotkey) MOD_ALT =
    WI_IsFlagSet (Modifiers hotkey) VirtualKeyModifiers_Menu ∧
  WI_IsFlagSet (hotkey_flags hotkey) MOD_CONTROL =
    WI_IsFlagSet (Modifiers hotkey) VirtualKeyModifiers_Control ∧
  WI_IsFlagSet (hotkey_flags hotkey) MOD_SHIFT =
    WI_IsFlagSet (Modifiers hotkey) VirtualKeyModifiers_Shift ∧
  Z.land (hotkey_flags hotkey)
         (Z.lnot (Z.lor MOD_NOREPEAT (Z.lor MOD_WIN (Z.lor MOD_ALT (Z.lor MOD_CONTROL MOD_SHIFT)))))
    = 0.
Proof.
  unfold hotkey_flags. cbv zeta.
  destruct (WI_IsFlagSet (Modifiers hotkey) VirtualKeyModifiers_Windows),
           (WI_IsFlagSet (Modifiers hotkey) VirtualKeyModifiers_Menu),
           (WI_IsFlagSet (Modifiers hotkey) VirtualKeyModifiers_Control),
           (WI_IsFlagSet (Modifiers hotkey) VirtualKeyModifiers_Shift);
    vm_compute; repeat split; reflexivity.
Qed.
End HotkeyExtras.

(** ** The notification icon over a run *)

Section TrayExtras.
Import Emperor PoolRuns.

Lemma quiet_refl (e : WindowEmperor) : quiet e e.
Proof. split; reflexivity. Qed.

Lemma quiet_trans (e1 e2 e3 : WindowEmperor) : quiet e1 e2 → quiet e2 e3 → quiet e1 e3.
Proof. intros [A B] [C D]. split; congruence. Qed.

Lemma shell_calls_call (c : OsCall) (e : WindowEmperor) :
  shell_calls (call c e) =
    shell_calls e ++ match c with Shell_NotifyIconW m => [m] | _ => [] end.
Proof.
  unfold shell_calls, call. cbn [os]. rewrite omap_app. f_equal. destruct c; reflexivity.
Qed.

Lemma quiet_call (c : OsCall) (e : WindowEmperor) :
  (∀ m, c ≠ Shell_NotifyIconW m) → quiet e (call c e).
Proof.
  intros Hc. split; [|reflexivity]. rewrite shell_calls_call.
  destruct c; try apply app_nil_r. exfalso. eapply Hc. reflexivity.
Qed.

(** A call that is not a shell call, made on [x], a state that differs from
    the one before in other fields only. *)
Ltac quiet_by c x :=
  let A := fresh in
  let B := fresh in
  destruct (quiet_call c x) as [A B];
  [let m := fresh in intros m; discriminate|split; [exact A|exact B]].

Lemma quiet_fold {A : Type} (f : WindowEmperor → A → WindowEmperor) (l : list A) :
  (∀ e a, quiet e (f e a)) → ∀ e, quiet e (fold_left f l e).
Proof.
  intros Hf. induction l as [|a l IH]; intros e; [apply quiet_refl|].
  cbn [fold_left]. eapply quiet_trans; [apply Hf|apply IH].
Qed.

Lemma quiet_decrement (e : WindowEmperor) : quiet e (_decrementWindowCount e).
Proof.
  unfold _decrementWindowCount, _close. cbn zeta. destruct (_ && _).
  - quiet_by (PostQuitMessage 0)
             (with_windowThreadInstances (to_uint32 (_windowThreadInstances e - 1)) e).
  - split; reflexivity.
Qed.

Lemma quiet_leave (IsWindows11 : bool) (pump : PumpExit) (window : WindowThread)
    (e : WindowEmperor) :
  quiet e (fst (warm_cycle_leave true IsWindows11 pump window e)).
Proof.
  assert (H : quiet e (_decrementWindowCount (_removeWindow (PeasantID window) e))).
  { eapply quiet_trans; [|apply quiet_decrement]. split; reflexivity. }
  destruct H as [A B].
  destruct pump, IsWindows11;
    rewrite ?leave_refrigerates, ?leave_tears_down, ?leave_unwinds; cbn [fst];
    rewrite ?remove_decrement_commute; split; assumption.
Qed.

Lemma quiet_request (args : CommandlineArgs) (id : Z) (quake : bool) (e : WindowEmperor) :
  quiet e (fst (request_and_publish true args id quake e)).
Proof.
  unfold request_and_publish, _createNewWindowThread. destruct (last (_oldWindows e)); cbn [fst].
  - split; reflexivity.
  - quiet_by (StartThread (threads_started e)) e.
Qed.

Lemma quiet_requested (args : CommandlineArgs) (id : Z) (quake : bool) (e : WindowEmperor) :
  quiet e (fst (_createNewWindowThread args id quake e)).
Proof.
  unfold _createNewWindowThread. destruct (last (_oldWindows e)); cbn [fst].
  - split; reflexivity.
  - quiet_by (StartThread (threads_started e)) e.
Qed.

Lemma quiet_setup (e : WindowEmperor) : quiet e (_setupGlobalHotkeys e).
Proof.
  unfold _setupGlobalHotkeys. destruct (negb (_window e)); [apply quiet_refl|]. cbv zeta.
  set (e1 := fold_left (λ e i, _unregisterHotKey (Z.of_nat i) e) _ e).
  assert (H1 : quiet e e1).
  { apply quiet_fold. intros x i. quiet_by (CallUnregisterHotKey (Z.of_nat i)) x. }
  set (e2 := with_hotkeys (λ _, []) e1).
  assert (H2 : quiet e1 e2) by (split; reflexivity).
  eapply quiet_trans; [exact H1|]. eapply quiet_trans; [exact H2|].
  apply quiet_fold. intros x [keyChord cmd]. unfold register_entry.
  destruct (try_as_GlobalSummonArgs cmd); [|apply quiet_refl].
  quiet_by (CallRegisterHotKey (narrow_cast_int (Z.of_nat (length (_hotkeys x))))
                               (hotkey_flags keyChord) (Vkey keyChord)) x.
Qed.

Lemma tray_protocol_app (calls more : list NotifyIconMessage) :
  ∀ present,
    tray_protocol present (calls ++ more) =
      tray_protocol present calls && tray_protocol (tray_after present calls) more.
Proof.
  induction calls as [|m calls IH]; intros present; [reflexivity|].
  destruct m; cbn [app tray_protocol tray_after fold_left];
    rewrite IH, andb_assoc; reflexivity.
Qed.

Lemma tray_after_app (calls more : list NotifyIconMessage) (present : bool) :
  tray_after present (calls ++ more) = tray_after (tray_after present calls) more.
Proof. apply fold_left_app. Qed.

Lemma tray_ok_check (e : WindowEmperor) :
  tray_ok e →
  tray_ok (_checkWindowsForNotificationIcon e) ∧
  icon_in_tray (shell_calls (_checkWindowsForNotificationIcon e)) =
    RequestsTrayIcon (_app e) || existsb IsQuakeWindow (_windows e).
Proof.
  intros [Hp Hs]. rewrite icon_check_eq. cbv zeta.
  set (needsIcon := RequestsTrayIcon (_app e) || existsb IsQuakeWindow (_windows e)).
  unfold tray_ok, icon_in_tray in *.
  destruct (Bool.eqb (_notificationIconShown e) needsIcon) eqn:E.
  - apply Bool.eqb_prop in E. repeat split; congruence.
  - assert (Hne : _notificationIconShown e = negb needsIcon).
    { destruct (_notificationIconShown e), needsIcon; try discriminate; reflexivity. }
    destruct needsIcon; cbn [negb] in Hne;
      change (shell_calls (with_notificationIconShown ?b ?x)) with (shell_calls x);
      rewrite !shell_calls_call, <- ?app_assoc; cbn [app];
      rewrite tray_protocol_app, tray_after_app, Hp, <- Hs, Hne; repeat split.
Qed.

(** X18: however window requests, closes, hotkey setups, settings reloads
    and icon checks follow one another, the emperor never adds the icon while
    it is in the notification area and never versions or deletes it while it
    is not, and its flag says whether the icon is there; right after a check
    the icon is there exactly if the settings ask for it or some active
    window is a quake window. *)
Theorem tray_icon_protocol (IsWindows11 : bool) (e e' : WindowEmperor) :
  tray_ok e → rtc (emperor_step IsWindows11) e e' →
  tray_protocol false (shell_calls e') = true ∧
  _notificationIconShown e' = icon_in_tray (shell_calls e') ∧
  icon_in_tray (shell_calls (_checkWindowsForNotificationIcon e')) =
    RequestsTrayIcon (_app e') || existsb IsQuakeWindow (_windows e').
Proof.
  intros Hok Hrun.
  assert (Hok' : tray_ok e').
  { induction Hrun as [|e1 e2 e3 Hstep _ IH]; [exact Hok|]. apply IH.
    assert (Hq : quiet e1 e2 → tray_ok e2).
    { intros [Hc Hf]. destruct Hok as [Hp Hs]. split; rewrite Hc; congruence. }
    destruct Hstep as [e1 e2 Hpool|e1|e1|e1 e2 Hos Hflag].
    - apply Hq. destruct Hpool; [apply quiet_request|apply quiet_requested|apply quiet_leave].
    - apply Hq, quiet_setup.
    - apply tray_ok_check, Hok.
    - apply Hq. split; [|exact Hflag]. unfold shell_calls. rewrite Hos. reflexivity. }
  destruct (tray_ok_check e' Hok') as [_ Hafter].
  destruct Hok' as [Hp Hs]. repeat split; assumption.
Qed.
End TrayExtras.

(** ** A handoff, from the sender's bytes to the receiver's window *)

Section HandoffDelivery.
Import Codec HandoffLayout Emperor Messages.
Variable CommandLineToArgvW : list Z → list (list Z).

Lemma emplace_back_all {A : Type} (l : list A) :
  ∀ acc, fold_left (λ args arg, args ++ [arg]) l acc = acc ++ l.
Proof.
  induction l as [|a l IH]; intros acc; cbn [fold_left]; [rewrite app_nil_r; reflexivity|].
  rewrite IH, <- app_assoc. reflexivity.
Qed.

Lemma buildArgs_copies (commandLine : list Z) :
  buildArgsFromCommandline CommandLineToArgvW commandLine = CommandLineToArgvW commandLine.
Proof. unfold buildArgsFromCommandline. cbv zeta. apply emplace_back_all. Qed.

Lemma to_uint32_idem (z : Z) : to_uint32 (to_uint32 z) = to_uint32 z.
Proof. unfold to_uint32. apply Z.mod_mod. unfold UINT32_MOD. lia. Qed.

(** X19: a second instance's handoff arrives whole: when the sender
    serialises its command line, environment block, directory and show
    command, the receiver's [WM_COPYDATA] handler ends normally and calls
    [_createNewWindowThread] once, with a request that carries that
    directory and environment unchanged, the show command as an unsigned
    32-bit value, and the arguments the shell splits off the command line up
    to its first NUL.  The call reheats the back of the idle pool with that
    request, or starts one thread when no window is parked; the handler
    itself puts nothing into the list of active windows. *)
Theorem handoff_opens_the_senders_window
    (args env cwd : list Z) (nCmdShow : Z) (id : Z) (quake : bool) (e : WindowEmperor) :
  wf_wstring args → wf_wstring env → wf_wstring cwd →
  Z.of_nat (length args) < UINT32_MOD →
  Z.of_nat (length env) < UINT32_MOD →
  Z.of_nat (length cwd) < UINT32_MOD →
  let eventArgs :=
    {| Commandline := CommandLineToArgvW (c_str args); CurrentDirectory := cwd;
       ShowWindowCommand := to_uint32 nCmdShow; CurrentEnvironment := env |} in
  ∃ bytes e' o,
    serializeHandoffPayload args env cwd nCmdShow = Ret bytes ∧
    on_WM_COPYDATA CommandLineToArgvW TERMINAL_HANDOFF_MAGIC bytes id quake e
      = Ret (e', Some o) ∧
    request (outcome_window o) = eventArgs ∧
    PeasantID (outcome_window o) = id ∧
    _windows e' = _windows e ∧
    threads_started e' =
      (threads_started e + if decide (_oldWindows e = []) then 1 else 0)%nat ∧
    (∀ fridge back, _oldWindows e = fridge ++ [back] →
                    o = Reheated (Microwave eventArgs id quake back) ∧
                    _oldWindows e' = fridge) ∧
    (_oldWindows e = [] →
     o = Spawned {| thread_no := threads_started e; PeasantID := id; request := eventArgs;
                    IsQuakeWindow := quake |} ∧
     os e' = os e ++ [StartThread (threads_started e)]).
Proof.
  intros Wa We Wc La Le Lc eventArgs.
  set (p := {| commandLine := args; environmentBlock := env; workingDirectory := cwd;
               showCommand := to_uint32 nCmdShow |}).
  assert (Hshow : 0 <= to_uint32 nCmdShow < UINT32_MOD)
    by (unfold to_uint32; apply Z.mod_pos_bound; reflexivity).
  assert (Hv : valid_payload p) by (unfold valid_payload; cbn; repeat split; try assumption; lia).
  assert (Henc : serializeHandoffPayload args env cwd nCmdShow = Ret (payload_bytes p)).
  { rewrite <- (encodeHandoff_ok p Hv). unfold encodeHandoff, serializeHandoffPayload.
    unfold p. cbn [commandLine environmentBlock workingDirectory showCommand].
    rewrite to_uint32_idem. reflexivity. }
  pose proof (payload_bytes_small p Hv) as Hsz.
  destruct (parsed_of_payload_bytes p [] Hv) as [Hc Hp]. rewrite app_nil_r in Hc, Hp.
  destruct (decodeHandoff_criterion (payload_bytes p) Hsz)
    as (log & [(_ & _ & E)|(Hlt & _)]); [|lia].
  rewrite Hp in E.
  destruct (request_call eventArgs id quake e)
    as (e' & o & Hcall & Hw & Hr & Hi & _ & Ht & Hreheat & Hspawn).
  exists (payload_bytes p), e', o.
  split; [exact Henc|]. split.
  { unfold on_WM_COPYDATA. rewrite Z.eqb_refl, E. cbn [fst].
    rewrite buildArgs_copies.
    unfold p. cbn [commandLine environmentBlock workingDirectory showCommand].
    rewrite to_uint32_idem. fold eventArgs. rewrite Hcall. reflexivity. }
  split; [exact Hr|]. split; [exact Hi|]. split; [exact Hw|]. split; [exact Ht|].
  split; [exact Hreheat|]. intros Hempty. destruct (Hspawn Hempty) as (Ho & Hos & _).
  split; assumption.
Qed.

(** X20: the [WM_COPYDATA] handler never reads outside the message's bytes
    and lets nothing escape: it always ends normally.  A message with
    another tag, or whose bytes are not a whole payload (fewer than 16 bytes,
    or a length prefix that runs past the end), leaves the emperor as it was
    and makes no request; every other message makes exactly one call of
    [_createNewWindowThread]. *)
Theorem stray_copydata_is_ignored
    (dwData : Z) (lpData : list byte) (id : Z) (quake : bool) (e : WindowEmperor) :
  Z.of_nat (length lpData) < SIZE_T_MOD →
  (∃ e' called,
     on_WM_COPYDATA CommandLineToArgvW dwData lpData id quake e = Ret (e', called) ∧
     (dwData ≠ TERMINAL_HANDOFF_MAGIC ∨ Z.of_nat (length lpData) < consumed lpData →
      e' = e ∧ called = None) ∧
     (dwData = TERMINAL_HANDOFF_MAGIC → consumed lpData <= Z.of_nat (length lpData) →
      ∃ args o, called = Some o ∧ _createNewWindowThread args id quake e = (e', o))) ∧
  ((length lpData < 16)%nat → Z.of_nat (length lpData) < consumed lpData).
Proof.
  intros Hsz. split.
  - unfold on_WM_COPYDATA.
    destruct (Z.eqb_spec dwData TERMINAL_HANDOFF_MAGIC) as [Hm|Hm].
    + destruct (decodeHandoff_criterion lpData Hsz)
        as (log & [(Hc & _ & E)|(Hc & _ & what & E)]); rewrite E; cbn [fst].
      * match goal with |- context [_createNewWindowThread ?a id quake e] =>
          destruct (_createNewWindowThread a id quake e) as [e' o] eqn:Hcall end.
        exists e', (Some o). split; [reflexivity|].
        split; [intros [H|H]; [contradiction|lia]|].
        intros _ _. eexists _, o. split; [reflexivity|exact Hcall].
      * exists e, None. split; [reflexivity|]. split; [split; reflexivity|]. intros _ H. lia.
    + exists e, None. split; [reflexivity|]. split; [split; reflexivity|].
      intros H. contradiction.
  - intros Hshort. pose proof (consumed_at_least_16 lpData). lia.
Qed.
End HandoffDelivery.

(** ** The shutdown sweep on any directory *)

Section SweepExtras.
Import Persistence.
Variable GuidFromString : list Z → outcome guid.

Lemma sweep_returns (sessionIds : gset Z) (listing : list (list Z)) :
  ∀ dir dir',
    sweep GuidFromString sessionIds listing dir = (Ret tt, dir') →
    ∀ name, name ∈ listing → length name = 47%nat →
            ∃ id, GuidFromString (guidStr_of name) = Ret id.
Proof.
  induction listing as [|first rest IH]; intros dir dir' E name Hin Hlen.
  - apply elem_of_nil in Hin. contradiction.
  - cbn [sweep] in E. destruct (decide (length first ≠ 47%nat)) as [Hne|Heq].
    + apply elem_of_cons in Hin as [->|Hin]; [contradiction|]. eapply IH; eassumption.
    + destruct (GuidFromString (guidStr_of first)) as [id| |] eqn:G; try discriminate.
      apply elem_of_cons in Hin as [->|Hin]; [exists id; exact G|].
      destruct (decide (id ∈ sessionIds)); eapply IH; eassumption.
Qed.



Lemma collect_layout (layout : WindowLayout) :
  ∀ (acc : gset Z) (id : Z),
    id ∈ fold_left (λ sessionIds actionAndArgs,
                      match terminalArgs_of actionAndArgs with
                      | Some id => sessionIds ∪ {[id]}
                      | None => sessionIds
                      end) layout acc ↔
    id ∈ acc ∨ ∃ action, action ∈ layout ∧ terminalArgs_of action = Some id.
Proof.
  induction layout as [|a layout IH]; intros acc id; cbn [fold_left].
  - split; [intros H; left; exact H|].
    intros [H|(action & Hin & _)]; [exact H|]. apply elem_of_nil in Hin. contradiction.
  - rewrite IH. split.
    + intros [H|(action & Hin & Ht)].
      * destruct (terminalArgs_of a) as [id'|] eqn:Ta; [|left; exact H].
        apply elem_of_union in H as [H|H]; [left; exact H|].
        apply elem_of_singleton in H. subst id'.
        right. exists a. split; [left|exact Ta].
      * right. exists action. split; [right; exact Hin|exact Ht].
    + intros [H|(action & Hin & Ht)].
      * left. destruct (terminalArgs_of a); [apply elem_of_union; left|]; exact H.
      * apply elem_of_cons in Hin as [->|Hin].
        -- left. rewrite Ht. apply elem_of_union. right. apply elem_of_singleton. reflexivity.
        -- right. exists action. split; assumption.
Qed.

Lemma collect_layouts (layouts : list WindowLayout) :
  ∀ (acc : gset Z) (id : Z),
    id ∈ fold_left
           (λ sessionIds windowLayout,
              fold_left (λ sessionIds actionAndArgs,
                           match terminalArgs_of actionAndArgs with
                           | Some id => sessionIds ∪ {[id]}
                           | None => sessionIds
                           end) windowLayout sessionIds) layouts acc ↔
    id ∈ acc ∨ ∃ layout action, layout ∈ layouts ∧ action ∈ layout ∧
                                terminalArgs_of action = Some id.
Proof.
  induction layouts as [|l layouts IH]; intros acc id; cbn [fold_left].
  - split; [intros H; left; exact H|].
    intros [H|(layout & action & Hin & _)]; [exact H|]. apply elem_of_nil in Hin. contradiction.
  - rewrite IH, collect_layout. split.
    + intros [[H|(action & Hin & Ht)]|(layout & action & Hl & Hin & Ht)].
      * left. exact H.
      * right. exists l, action. split; [left|split; assumption].
      * right. exists layout, action. split; [right; exact Hl|split; assumption].
    + intros [H|(layout & action & Hl & Hin & Ht)].
      * left. left. exact H.
      * apply elem_of_cons in Hl as [->|Hl].
        -- left. right. exists action. split; assumption.
        -- right. exists layout, action. repeat split; assumption.
Qed.

(** X22: the session ids the sweep spares are exactly those named by the
    terminal arguments of a new-tab or split-pane action of some persisted
    window layout; other actions and other content contribute none, and
    without persisted layouts there is none. *)
Theorem spared_session_ids (layouts : option (list WindowLayout)) (id : guid) :
  id ∈ collect_sessionIds layouts ↔
  ∃ windows layout action,
    layouts = Some windows ∧ layout ∈ windows ∧ action ∈ layout ∧
    (action = NewTabArgs (NewTerminalArgs id) ∨ action = SplitPaneArgs (NewTerminalArgs id)).
Proof.
  assert (Hargs : ∀ action, terminalArgs_of action = Some id ↔
                            action = NewTabArgs (NewTerminalArgs id) ∨
                            action = SplitPaneArgs (NewTerminalArgs id)).
  { intros [[id'|]|[id'|]|]; cbn; split; try intros [H|H]; try discriminate;
      try (intros H; injection H as ->; auto); try (injection H as ->; reflexivity). }
  destruct layouts as [windows|]; cbn [collect_sessionIds].
  - rewrite collect_layouts. split.
    + intros [H|(layout & action & Hl & Hin & Ht)]; [apply elem_of_empty in H; contradiction|].
      exists windows, layout, action. rewrite <- Hargs. repeat split; assumption.
    + intros (windows' & layout & action & E & Hl & Hin & Ht). injection E as <-.
      right. exists layout, action. rewrite Hargs. repeat split; assumption.
  - split; [intros H; apply elem_of_empty in H; contradiction|].
    intros (? & ? & ? & E & _). discriminate.
Qed.

(** X23: a sweep that returned has nothing left to do: sweeping the
    resulting directory again, over any listing made of names the first
    sweep saw, returns and deletes nothing more. *)
Theorem second_sweep_deletes_nothing
    (sessionIds : gset Z) (listing again : list (list Z)) (dir dir' : gset (list Z)) :
  sweep GuidFromString sessionIds listing dir = (Ret tt, dir') →
  (∀ name, name ∈ again → name ∈ listing) →
  sweep GuidFromString sessionIds again dir' = (Ret tt, dir').
Proof.
  intros E Hsub.
  pose proof (sweep_returns sessionIds listing dir dir' E) as Hparse.
  rewrite (sweep_eq GuidFromString sessionIds listing dir Hparse) in E.
  rewrite (sweep_eq GuidFromString sessionIds again dir')
    by (intros name Hin; apply Hparse, Hsub, Hin).
  f_equal. apply set_eq. intros name. rewrite elem_of_difference, elem_of_list_to_set.
  split; [intros [H _]; exact H|]. intros H. split; [exact H|].
  intros Hd. apply elem_of_doomed in Hd as (Hin & Hlen & id & Hid & Hnot).
  injection E as <-. apply elem_of_difference in H as [_ H]. apply H.
  rewrite elem_of_list_to_set. apply elem_of_doomed.
  split; [apply Hsub, Hin|]. split; [exact Hlen|]. exists id. split; assumption.
Qed.
End SweepExtras.

(** ** Startup *)

Section StartupExtras.
Import Emperor Persistence Startup.
Variable to_hstring : Z → list Z.
Variables (env cwd : list Z) (nCmdShow : Z).

Lemma restore_requests_eq {Layout : Type} (layouts : list Layout) :
  ∀ first : nat,
    Z.of_nat (first + length layouts) < UINT32_MOD →
    restore_requests to_hstring env cwd nCmdShow layouts (Z.of_nat first) =
      map (λ i : nat, eventArgs_of env cwd nCmdShow (restore_argv to_hstring (Z.of_nat i)))
          (seq first (length layouts)).
Proof.
  induction layouts as [|l layouts IH]; intros first Hsmall; [reflexivity|].
  cbn [restore_requests length seq map]. cbn [length] in Hsmall. f_equal.
  replace (to_uint32 (Z.of_nat first + 1)) with (Z.of_nat (S first)).
  - apply IH. lia.
  - unfold to_uint32, UINT32_MOD in *. rewrite Z.mod_small; lia.
Qed.

(** X24: startup requests no window exactly when the mode is not isolated
    and no mutex came back (a primary instance exists, or the handoff was
    given up); otherwise at least one window is requested.  Then, with
    [n > 0] persisted layouts, the first [n] requests are [wt -w new -s i]
    for [i = 0 .. n-1], in order, and the command line gets a window of its
    own unless it is a bare [wt] (one argument); without persisted layouts
    the command line's window is the only one, and the shutdown sweep, which
    runs under the flag set here, then deletes nothing. *)
Theorem startup_requests_windows {Layout : Type}
    (IsolatedMode mutex : bool) (layouts : option (list Layout)) (args : list (list Z)) :
  let startup :=
    HandleCommandlineArgs_requests to_hstring env cwd nCmdShow IsolatedMode mutex layouts args in
  (startup = None ↔ IsolatedMode = false ∧ mutex = false) ∧
  (∀ flag requests, startup = Some (flag, requests) →
     requests ≠ [] ∧
     (∀ ls, layouts = Some ls → ls ≠ [] → Z.of_nat (length ls) < UINT32_MOD →
            flag = true ∧
            requests =
              map (λ i : nat, eventArgs_of env cwd nCmdShow (restore_argv to_hstring (Z.of_nat i)))
                  (seq 0 (length ls))
              ++ (if decide (length args = 1%nat) then []
                  else [eventArgs_of env cwd nCmdShow args])) ∧
     (layouts = None ∨ layouts = Some [] →
      flag = false ∧ requests = [eventArgs_of env cwd nCmdShow args] ∧
      ∀ GuidFromString persisted listing dir,
        _finalizeSessionPersistence GuidFromString flag persisted listing dir = (Ret tt, dir))).
Proof.
  cbv zeta. unfold HandleCommandlineArgs_requests. split.
  - destruct IsolatedMode, mutex; cbn [negb andb]; split;
      try discriminate; try (intros [H1 H2]; discriminate); try reflexivity.
    intros _. split; reflexivity.
  - intros flag requests.
    destruct (negb IsolatedMode && negb mutex); [discriminate|]. cbv zeta.
    intros E. injection E as <- <-. split; [|split].
    + destruct layouts as [[|l ls]|]; cbn -[to_uint32 Z.of_nat];
        try (rewrite orb_true_r; discriminate); discriminate.
    + intros ls -> Hne Hsmall. destruct ls as [|l ls]; [contradiction|].
      assert (Hpos : (0 <? Z.of_nat (length (l :: ls))) = true)
        by (apply Z.ltb_lt; cbn [length]; lia).
      rewrite Hpos. cbn [default negb]. rewrite orb_false_r.
      split; [reflexivity|]. f_equal.
      * apply (restore_requests_eq (l :: ls) 0). exact Hsmall.
      * destruct (decide (length args = 1%nat)) as [E|E].
        -- rewrite E. reflexivity.
        -- destruct (Z.eqb_spec (Z.of_nat (length args)) 1); [lia|reflexivity].
    + intros [->| ->]; cbn [length Z.of_nat Z.ltb Z.compare negb];
        rewrite orb_true_r; (split; [reflexivity|]); (split; [reflexivity|]);
        intros; reflexivity.
Qed.
End StartupExtras.

(** ** The properties above at concrete inputs *)

Section MoreWitnesses.
Import Codec HandoffLayout EnvironmentBlock SingleInstance HandoffAttempts.
Import Emperor PoolRuns Messages Persistence.

Lemma trailing_bytes_scenario :
  ∃ bytes log,
    encodeHandoff scenario_payload = Ret bytes ∧
    decodeHandoff (bytes ++ [x2a; x00]) = (Ret scenario_payload, log) ∧
    reads_within (Z.of_nat (length bytes)) log.
Proof.
  apply (decode_ignores_trailing_bytes scenario_payload [x2a; x00]).
  - exact scenario_payload_valid.
  - vm_compute. reflexivity.
Defined.

Lemma lone_length_prefix_safe :
  ∃ log,
    reads_within (Z.of_nat (length [x07; x00; x00; x00])) log ∧
    ((∃ what, decodeHandoff [x07; x00; x00; x00] = (Throw (out_of_range what), log)) ∨
     (∃ p, decodeHandoff [x07; x00; x00; x00] = (Ret p, log) ∧ valid_payload p)).
Proof. apply (decode_any_buffer_safe [x07; x00; x00; x00]). vm_compute. reflexivity. Defined.

Lemma reencode_scenario :
  ∃ n, (n <= length (payload_bytes scenario_payload ++ [x2a]))%nat ∧
       encodeHandoff scenario_payload = Ret (take n (payload_bytes scenario_payload ++ [x2a])) ∧
       Z.of_nat n = 16 + 2 * (Z.of_nat (length (commandLine scenario_payload))
                              + Z.of_nat (length (environmentBlock scenario_payload))
                              + Z.of_nat (length (workingDirectory scenario_payload))).
Proof.
  apply (decode_then_encode (payload_bytes scenario_payload ++ [x2a]) scenario_payload
           (snd (decodeHandoff (payload_bytes scenario_payload ++ [x2a])))).
  - vm_compute. reflexivity.
  - vm_compute. reflexivity.
Defined.

Lemma scenario_parsed_back :
  scenario_payload = parsed_payload (payload_bytes scenario_payload).
Proof.
  apply (encode_injective scenario_payload (parsed_payload (payload_bytes scenario_payload))).
  - exact scenario_payload_valid.
  - apply parsed_payload_valid. vm_compute. discriminate.
  - vm_compute. reflexivity.
Defined.

Lemma scenario_decodes_iff :
  ((∃ p log, decodeHandoff (payload_bytes scenario_payload) = (Ret p, log)) ↔
   consumed (payload_bytes scenario_payload) <= Z.of_nat (length (payload_bytes scenario_payload))) ∧
  ((∃ p log, decodeHandoff (payload_bytes scenario_payload) = (Ret p, log)) →
   (16 <= length (payload_bytes scenario_payload))%nat).
Proof. apply (decode_succeeds_iff (payload_bytes scenario_payload)). vm_compute. reflexivity. Defined.

Lemma two_variables_ok : Forall env_string two_variables.
Proof.
  unfold two_variables, env_string.
  repeat (apply Forall_cons_2; [split; [discriminate|]|]); try apply Forall_nil_2;
    repeat (apply Forall_cons_2; [discriminate|]); apply Forall_nil_2.
Defined.

Lemma environment_block_scenario :
  stringFromDoubleNullTerminated (S (length two_variables) + 0)
    (terminated_strings two_variables ++ 0 :: [7; 7]) =
    Some (Ret (terminated_strings two_variables)).
Proof. apply (environment_block_extent two_variables [7; 7] 0). exact two_variables_ok. Defined.

Lemma environment_block_cut_short :
  stringFromDoubleNullTerminated (S (length two_variables) + 0)
    (terminated_strings two_variables) = Some Fault.
Proof. apply (environment_block_unterminated two_variables 0). exact two_variables_ok. Defined.

Lemma scenario_serialized :
  serializeHandoffPayload (commandLine scenario_payload) (environmentBlock scenario_payload)
    (workingDirectory scenario_payload) 1 = Ret (payload_bytes scenario_payload).
Proof. vm_compute. reflexivity. Defined.

Lemma handoff_at_third_pass :
  ∃ trace,
    acquireMutexOrAttemptHandoff (15 + 0) (commandLine scenario_payload)
      (environmentBlock scenario_payload) (workingDirectory scenario_payload) 1
      ready_at_third_pass =
      Some (Ret (fresh_mutex (ready_at_third_pass 2)), trace) ∧
    sleeps_of trace = take 2 schedule_50 ∧
    (fresh_mutex (ready_at_third_pass 2) = false →
     last trace =
       Some (EvSendMessageTimeout (Z.of_nat (length (payload_bytes scenario_payload))) 10000)).
Proof.
  apply (handoff_ends_at_first_decisive_pass
           (commandLine scenario_payload) (environmentBlock scenario_payload)
           (workingDirectory scenario_payload) 1 (payload_bytes scenario_payload)
           ready_at_third_pass 2 0).
  - exact scenario_serialized.
  - vm_compute. reflexivity.
  - lia.
  - intros j Hj. destruct j as [|[|j]]; [reflexivity|reflexivity|lia].
  - reflexivity.
Defined.

Lemma handoff_to_hung_primary :
  ∃ trace,
    acquireMutexOrAttemptHandoff (15 + 0) (commandLine scenario_payload)
      (environmentBlock scenario_payload) (workingDirectory scenario_payload) 1
      (λ _, hung_primary) = Some (Ret false, trace) ∧
    sleeps_of trace = schedule_50 ∧
    sum_list (sleeps_of trace) = 28941.
Proof.
  apply (handoff_gives_up_after_schedule
           (commandLine scenario_payload) (environmentBlock scenario_payload)
           (workingDirectory scenario_payload) 1 (payload_bytes scenario_payload)
           (λ _, hung_primary) 0).
  - exact scenario_serialized.
  - vm_compute. reflexivity.
  - intros j _. reflexivity.
Defined.

Lemma third_window_quits :
  _windowThreadInstances (decrements 3 three_windows_counted) = Z.of_nat (3 - 3) ∧
  os (decrements 3 three_windows_counted) =
    os three_windows_counted ++
      (if bool_decide (3%nat = 3%nat ∧ (0 < 3)%nat) &&
          (_quitting three_windows_counted || negb (AllowHeadless (_app three_windows_counted)))
       then [PostQuitMessage 0] else []).
Proof.
  apply (quit_posted_when_last_window_goes 3 3 three_windows_counted).
  - reflexivity.
  - vm_compute. reflexivity.
  - lia.
Defined.




Lemma registered_A_held :
  Forall (λ h, 0 <= fst h < Z.of_nat (length (_hotkeys registered_A)))
         (held_hotkeys (os registered_A)).
Proof.
  vm_compute. apply Forall_cons_2; [split; [discriminate|reflexivity]|apply Forall_nil_2].
Defined.

Lemma resync_twice_from_A :
  _hotkeys (_setupGlobalHotkeys (_setupGlobalHotkeys registered_A)) =
    _hotkeys (_setupGlobalHotkeys registered_A) ∧
  held_hotkeys (os (_setupGlobalHotkeys (_setupGlobalHotkeys registered_A))) =
    held_hotkeys (os (_setupGlobalHotkeys registered_A)) ∧
  map fst (held_hotkeys (os (_setupGlobalHotkeys (_setupGlobalHotkeys registered_A)))) =
    map Z.of_nat
      (seq 0 (length (_hotkeys (_setupGlobalHotkeys (_setupGlobalHotkeys registered_A))))) ∧
  NoDup (map fst (held_hotkeys (os (_setupGlobalHotkeys (_setupGlobalHotkeys registered_A))))).
Proof.
  apply (hotkey_resync_twice registered_A).
  - reflexivity.
  - vm_compute. reflexivity.
  - vm_compute. reflexivity.
  - exact registered_A_held.
Defined.

Lemma second_hotkey_served :
  (1 ∈ map fst (held_hotkeys (os (_setupGlobalHotkeys registered_A))) →
   _hotkeyPressed 1 (_setupGlobalHotkeys registered_A) =
     ([1], Ret (_setupGlobalHotkeys registered_A))) ∧
  (∀ e'', snd (_hotkeyPressed 1 (_setupGlobalHotkeys registered_A)) = Ret e'' →
          e'' = _setupGlobalHotkeys registered_A).
Proof.
  apply (held_hotkeys_are_served registered_A 1).
  - reflexivity.
  - vm_compute. reflexivity.
  - vm_compute. reflexivity.
  - exact registered_A_held.
Defined.

Lemma fresh_tray_ok : tray_ok (fresh_emperor plain_app).
Proof. split; reflexivity. Defined.

Lemma quake_window_then_check :
  rtc (emperor_step false) (fresh_emperor plain_app)
    (_checkWindowsForNotificationIcon
       (fst (request_and_publish true blank_request 1 true (fresh_emperor plain_app)))).
Proof.
  eapply rtc_l; [apply step_pool, (step_request false blank_request 1 true)|].
  apply rtc_once. apply step_icon.
Defined.

Lemma tray_after_quake_window :
  tray_protocol false
    (shell_calls (_checkWindowsForNotificationIcon
                    (fst (request_and_publish true blank_request 1 true
                            (fresh_emperor plain_app))))) = true ∧
  _notificationIconShown
    (_checkWindowsForNotificationIcon
       (fst (request_and_publish true blank_request 1 true (fresh_emperor plain_app)))) =
    icon_in_tray
      (shell_calls (_checkWindowsForNotificationIcon
                      (fst (request_and_publish true blank_request 1 true
                              (fresh_emperor plain_app))))) ∧
  icon_in_tray
    (shell_calls
       (_checkWindowsForNotificationIcon
          (_checkWindowsForNotificationIcon
             (fst (request_and_publish true blank_request 1 true
                     (fresh_emperor plain_app)))))) =
    RequestsTrayIcon
      (_app (_checkWindowsForNotificationIcon
               (fst (request_and_publish true blank_request 1 true
                       (fresh_emperor plain_app)))))
    || existsb IsQuakeWindow
         (_windows (_checkWindowsForNotificationIcon
                      (fst (request_and_publish true blank_request 1 true
                              (fresh_emperor plain_app))))).
Proof.
  apply (tray_icon_protocol false (fresh_emperor plain_app)).
  - exact fresh_tray_ok.
  - exact quake_window_then_check.
Defined.

Lemma scenario_handoff_delivered :
  ∃ bytes e' o,
    serializeHandoffPayload (commandLine scenario_payload) (environmentBlock scenario_payload)
      (workingDirectory scenario_payload) 1 = Ret bytes ∧
    on_WM_COPYDATA whole_line TERMINAL_HANDOFF_MAGIC bytes 7 false (fresh_emperor plain_app)
      = Ret (e', Some o) ∧
    request (outcome_window o) =
      {| Commandline := whole_line (c_str (commandLine scenario_payload));
         CurrentDirectory := workingDirectory scenario_payload;
         ShowWindowCommand := to_uint32 1;
         CurrentEnvironment := environmentBlock scenario_payload |} ∧
    PeasantID (outcome_window o) = 7 ∧
    _windows e' = _windows (fresh_emperor plain_app) ∧
    threads_started e' =
      (threads_started (fresh_emperor plain_app)
       + if decide (_oldWindows (fresh_emperor plain_app) = []) then 1 else 0)%nat ∧
    (∀ fridge back,
       _oldWindows (fresh_emperor plain_app) = fridge ++ [back] →
       o = Reheated
             (Microwave
                {| Commandline := whole_line (c_str (commandLine scenario_payload));
                   CurrentDirectory := workingDirectory scenario_payload;
                   ShowWindowCommand := to_uint32 1;
                   CurrentEnvironment := environmentBlock scenario_payload |}
                7 false back) ∧
       _oldWindows e' = fridge) ∧
    (_oldWindows (fresh_emperor plain_app) = [] →
     o = Spawned
           {| thread_no := threads_started (fresh_emperor plain_app); PeasantID := 7;
              request :=
                {| Commandline := whole_line (c_str (commandLine scenario_payload));
                   CurrentDirectory := workingDirectory scenario_payload;
                   ShowWindowCommand := to_uint32 1;
                   CurrentEnvironment := environmentBlock scenario_payload |};
              IsQuakeWindow := false |} ∧
     os e' = os (fresh_emperor plain_app)
               ++ [StartThread (threads_started (fresh_emperor plain_app))]).
Proof.
  destruct scenario_payload_valid as (Wa & We & Wc & La & Le & Lc & _).
  apply (handoff_opens_the_senders_window whole_line
           (commandLine scenario_payload) (environmentBlock scenario_payload)
           (workingDirectory scenario_payload) 1 7 false (fresh_emperor plain_app));
    assumption.
Defined.

Lemma untagged_copydata_ignored :
  (∃ e' called,
     on_WM_COPYDATA whole_line 0 [x01] 7 false (fresh_emperor plain_app) = Ret (e', called) ∧
     (0 ≠ TERMINAL_HANDOFF_MAGIC ∨ Z.of_nat (length [x01]) < consumed [x01] →
      e' = fresh_emperor plain_app ∧ called = None) ∧
     (0 = TERMINAL_HANDOFF_MAGIC → consumed [x01] <= Z.of_nat (length [x01]) →
      ∃ args o, called = Some o ∧
                _createNewWindowThread args 7 false (fresh_emperor plain_app) = (e', o))) ∧
  ((length [x01] < 16)%nat → Z.of_nat (length [x01]) < consumed [x01]).
Proof.
  apply (stray_copydata_is_ignored whole_line 0 [x01] 7 false (fresh_emperor plain_app)).
  vm_compute. reflexivity.
Defined.

Lemma scenario_names_parse (name : list Z) :
  ∃ id, first_digit_guid (guidStr_of name) = Ret id.
Proof.
  unfold guidStr_of, first_digit_guid. cbn [app].
  destruct (take 36 (drop 7 name) ++ [125]) as [|digit rest] eqn:D.
  - apply (f_equal length) in D. rewrite length_app in D. cbn in D. lia.
  - exists digit. reflexivity.
Defined.

Lemma second_sweep_scenario :
  sweep first_digit_guid (collect_sessionIds scenario_layouts) [kept_buffer; other_file]
    ({[kept_buffer; other_file; stale_buffer]} ∖
       list_to_set (doomed first_digit_guid (collect_sessionIds scenario_layouts)
                      [kept_buffer; other_file; stale_buffer])) =
    (Ret tt,
     {[kept_buffer; other_file; stale_buffer]} ∖
       list_to_set (doomed first_digit_guid (collect_sessionIds scenario_layouts)
                      [kept_buffer; other_file; stale_buffer])).
Proof.
  apply (second_sweep_deletes_nothing first_digit_guid (collect_sessionIds scenario_layouts)
           [kept_buffer; other_file; stale_buffer] [kept_buffer; other_file]
           {[kept_buffer; other_file; stale_buffer]}).
  - apply sweep_eq. intros name _ _. apply scenario_names_parse.
  - intros name Hin. rewrite !elem_of_cons in *. tauto.
Defined.
End MoreWitnesses.
